(** * HFS front-end upload engine (upload.ts): queue, transfers, resume offers

    A shallow embedding of the upload subsystem of the HFS front-end: the
    accept-policy filter, [enqueue], the scheduler that reacts to changes of
    [uploadState], [startUpload] with the closures it creates (the transport
    callbacks, the notification callback, [error], [done], [next]) and the
    dialog actions on the queue.

    The code is single-threaded and event-driven.  Every callback is a
    function from worlds to worlds; the closures of one [startUpload] call
    share a frame holding that call's parameters and locals, and frames are
    kept in a store because the notification callback outlives the call that
    created it.  An [async] function is cut where it waits for something
    outside the page (the event source of the notifications, a dialog): the
    part behind the [await] is a callback of its own, run by a later event,
    and other events are delivered in between. *)

From Stdlib Require Import ZArith Lia Ascii String.
From stdpp Require Import base option list strings gmap.

Local Open Scope Z_scope.
Local Open Scope string_scope.
Local Open Scope list_scope.

(** ** Strings as the JavaScript runtime handles them

    Strings are sequences of one-byte characters here; the functions below
    are the [String.prototype] methods the code calls. *)

(** [s.startsWith(p)] *)
Fixpoint startsWith (s p : string) : bool :=
  match p, s with
  | EmptyString, _ => true
  | String _ _, EmptyString => false
  | String b p', String a s' => if Ascii.eqb a b then startsWith s' p' else false
  end.

(** [s.endsWith(p)] *)
Fixpoint endsWith (s p : string) : bool :=
  if String.eqb s p then true
  else match s with
       | EmptyString => false
       | String _ s' => endsWith s' p
       end.

(** [s.slice(n)] for [0 <= n] *)
Fixpoint slice (n : nat) (s : string) : string :=
  match n, s with
  | O, _ => s
  | S n', String _ s' => slice n' s'
  | S _, EmptyString => EmptyString
  end.

(** [s.replace(pat, rep)] with a string pattern: only the first occurrence
    is replaced.  The replacements used below contain no [$]. *)
Fixpoint replace (pat rep s : string) : string :=
  if startsWith s pat then rep +:+ slice (String.length pat) s
  else match s with
       | EmptyString => EmptyString
       | String c s' => String c (replace pat rep s')
       end.

(** [s.replaceAll('//','/')]: occurrences are found left to right and do
    not overlap, so ["///"] becomes ["//"]. *)
Fixpoint replaceAll_slashes (s : string) : string :=
  match s with
  | String "/"%char (String "/"%char s') => String "/"%char (replaceAll_slashes s')
  | String c s' => String c (replaceAll_slashes s')
  | EmptyString => EmptyString
  end.

(** [s.replace(/\|/g, ',')] *)
Fixpoint replace_pipes (s : string) : string :=
  match s with
  | String "|"%char s' => String ","%char (replace_pipes s')
  | String c s' => String c (replace_pipes s')
  | EmptyString => EmptyString
  end.

(** [s.replace(/ +/g, '')] *)
Fixpoint remove_spaces (s : string) : string :=
  match s with
  | String " "%char s' => remove_spaces s'
  | String c s' => String c (remove_spaces s')
  | EmptyString => EmptyString
  end.

(** [s.split(/ *[|,] */)].  [tok] is the current piece and [sp] the spaces
    seen since its last other character, both reversed: those spaces belong
    to the separator when [|] or [,] follows and to the piece otherwise.
    [after] holds right behind a separator, whose match also takes the
    spaces that follow it. *)
Fixpoint split_go (after : bool) (tok sp : list ascii) (s : string) : list string :=
  match s with
  | EmptyString => [string_of_list_ascii (rev (sp ++ tok))]
  | String c s' =>
      if Ascii.eqb c " "%char then
        if after then split_go true tok sp s' else split_go false tok (c :: sp) s'
      else if Ascii.eqb c "|"%char || Ascii.eqb c ","%char then
        string_of_list_ascii (rev tok) :: split_go true [] [] s'
      else split_go false (c :: sp ++ tok) [] s'
  end.

Definition split_accept (s : string) : list string := split_go false [] [] s.

(** [RegExp]: [s.match(p)] with a string [p] compiles [new RegExp(p)] and
    searches [s] for it.  The engine belongs to the runtime, so the
    development is stated over any engine: [Some b] tells whether a match
    was found, [None] that [p] is not a regular expression (a [SyntaxError]
    is thrown). *)
Class RegExpEngine := regexp_search : string → string → option bool.

(** *** An engine for simple patterns

    To run the code on concrete patterns, the fragment of the regular
    expressions made of characters, escaped characters, [.] and the
    quantifiers [*], [+] and [?] is implemented here.  A pattern outside the
    fragment gets no answer from it, so it is only used on patterns inside. *)
Inductive Atom :=
| Lit (c : ascii)
| AnyChar.

Inductive Quant := Once | Star | Plus | Opt.

Definition is_syntax_char (c : ascii) : bool :=
  existsb (Ascii.eqb c) (list_ascii_of_string "^$\.*+?()[]{}|").

Definition flush (pending : option Atom) (acc : list (Atom * Quant)) : list (Atom * Quant) :=
  match pending with
  | Some a => (a, Once) :: acc
  | None => acc
  end.

(** [pending] is the atom read last, which a quantifier may still follow;
    [esc] holds behind a backslash; [acc] is reversed. *)
Fixpoint parse_go (pending : option Atom) (esc : bool) (acc : list (Atom * Quant)) (s : string)
  : option (list (Atom * Quant)) :=
  match s with
  | EmptyString => if esc then None else Some (rev (flush pending acc))
  | String c s' =>
      if esc then
        if is_syntax_char c || Ascii.eqb c "/"%char
        then parse_go (Some (Lit c)) false acc s' else None
      else if Ascii.eqb c "\"%char then parse_go None true (flush pending acc) s'
      else if Ascii.eqb c "."%char then parse_go (Some AnyChar) false (flush pending acc) s'
      else if Ascii.eqb c "*"%char then
        match pending with
        | Some a => parse_go None false ((a, Star) :: acc) s'
        | None => None
        end
      else if Ascii.eqb c "+"%char then
        match pending with
        | Some a => parse_go None false ((a, Plus) :: acc) s'
        | None => None
        end
      else if Ascii.eqb c "?"%char then
        match pending with
        | Some a => parse_go None false ((a, Opt) :: acc) s'
        | None => None
        end
      else if is_syntax_char c then None
      else parse_go (Some (Lit c)) false (flush pending acc) s'
  end.

Definition parse (p : string) : option (list (Atom * Quant)) := parse_go None false [] p.

(** [.] matches every character but a line terminator. *)
Definition atom_matches (a : Atom) (c : ascii) : bool :=
  match a with
  | Lit d => Ascii.eqb c d
  | AnyChar => negb (Ascii.eqb c "010"%char || Ascii.eqb c "013"%char)
  end.

(** Does a prefix of [s] match the items? *)
Fixpoint match_here (items : list (Atom * Quant)) (s : string) : bool :=
  match items with
  | [] => true
  | (a, q) :: rest =>
      let more :=
        fix more (s : string) : bool :=
          match_here rest s
          || match s with
             | String c s' => atom_matches a c && more s'
             | EmptyString => false
             end in
      match q with
      | Once =>
          match s with
          | String c s' => atom_matches a c && match_here rest s'
          | EmptyString => false
          end
      | Star => more s
      | Plus =>
          match s with
          | String c s' => atom_matches a c && more s'
          | EmptyString => false
          end
      | Opt =>
          match_here rest s
          || match s with
             | String c s' => atom_matches a c && match_here rest s'
             | EmptyString => false
             end
      end
  end.

(** Does the pattern match somewhere in [s]? *)
Fixpoint search (items : list (Atom * Quant)) (s : string) : bool :=
  match_here items s
  || match s with
     | String _ s' => search items s'
     | EmptyString => false
     end.

Definition simple_patterns : RegExpEngine :=
  λ p s, items ← parse p; Some (search items s).

(** ** Data model *)

(** The fields of a browser [File] that the code reads. *)
Record File := mkFile {
  name : string;
  webkitRelativePath : string;
  type : string;
  size : Z
}.

(** [interface ToUpload { file: File, comment?: string }].  Entries are
    compared with [===] in the code, so an entry carries the identity of its
    object. *)
Record ToUpload := mkToUpload {
  oid : nat;
  file : File;
  comment : option string
}.

#[global] Instance File_eq_dec : EqDecision File.
Proof. solve_decision. Defined.
#[global] Instance ToUpload_eq_dec : EqDecision ToUpload.
Proof. solve_decision. Defined.

(** [a === b] on entries *)
Definition same (a b : ToUpload) : bool := Nat.eqb (oid a) (oid b).

(** One element of [uploadState.qs]. *)
Record Q := mkQ {
  to : string;
  entries : list ToUpload
}.

(** [uploadState.progress] is the quotient of two byte counts; it is kept
    as the pair the code divides, so that no rounding enters the model. *)
Record Fraction := mkFraction {
  numer : Z;
  denom : Z
}.

(** The [uploadState] proxy.  [speed] and [eta] are left out: they are
    derived from the clock by the sampling timer and nothing else reads
    them. *)
Record UploadState := mkUploadState {
  done : Z;
  doneByte : Z;
  errors : Z;
  adding : list ToUpload;
  qs : list Q;
  paused : bool;
  uploading : option ToUpload;
  progress : Fraction;
  partial : Z;
  skipExisting : bool
}.

(** The parameters and locals of one [startUpload] call, shared by the
    closures that call creates. *)
Module Frame.
Record t := mk {
  toUpload : ToUpload;
  to : string;
  resume : Z;
  resuming : bool;
  lastProgress : Z
}.
End Frame.

(** An [XMLHttpRequest]; [owner] is the frame of the [startUpload] call
    that created it and installed its callbacks. *)
Record XHR := mkXHR {
  owner : nat;
  readyState : Z;
  status : Z
}.

(** A run of the notification callback suspended at [await dialog]:
    [o_frame] is the frame the callback closes over, [o_uploading] and
    [o_size] are its locals [uploading] and [size]. *)
Record Offer := mkOffer {
  o_frame : nat;
  o_uploading : ToUpload;
  o_size : Z
}.

(** What the code shows or sends. *)
Inductive Message :=
| MRejected                                         (* "Some files were not accepted" *)
| MFailedUpload (item : ToUpload) (specifier : string) (* "Couldn't upload {name}" + prefix(': ', specifier) *)
| MConcluded                                        (* "Upload concluded:" with the tally *)
| MPauseHint.                                       (* "Pause applies to the queue, ..." *)

Inductive Effect :=
| Alert (msg : Message)
| ConfirmResume (size fileSize : Z)
| Send (dest : string) (channel : option nat) (resumeFrom : Z) (commentText : string)
       (skip : bool) (body : ToUpload) (bodyFrom : Z) (filename : string)
| Abort (x : XHR)
| ReloadList
| ReloadListLater.

(** The module-level variables of upload.ts next to [uploadState], the
    frames, the [startUpload] call suspended at its [await], if any, and the
    log of effects (latest last).

    [notificationSource] stands for the event source that notifications
    come from.  The server sends them on the channel whose id the upload
    requests carry, so a source that was opened for a channel id the
    requests never carry receives nothing; for such a source the field is
    [None], as it is for a closed one. *)
Record World := mkWorld {
  uploadState : UploadState;
  accept : option string;               (* state.props?.accept *)
  bytesSent : Z;
  reloadOnClose : bool;
  uploadDialogIsOpen : bool;
  everPaused : bool;
  req : option XHR;
  overrideStatus : Z;
  notificationChannel : option nat;     (* None is the empty string *)
  notificationSource : option nat;      (* the frame whose callback receives notifications *)
  closeLast : option Offer;             (* the open resume confirmation, if any *)
  frames : list Frame.t;
  awaiting : option nat;                (* the frame of the call waiting for its subscription *)
  concluded : nat;                      (* open "Upload concluded" alerts *)
  effects : list Effect
}.

(** *** Assignments *)

Definition set_done v (u : UploadState) :=
  mkUploadState v (doneByte u) (errors u) (adding u) (qs u) (paused u) (uploading u) (progress u) (partial u) (skipExisting u).
Definition set_doneByte v (u : UploadState) :=
  mkUploadState (done u) v (errors u) (adding u) (qs u) (paused u) (uploading u) (progress u) (partial u) (skipExisting u).
Definition set_errors v (u : UploadState) :=
  mkUploadState (done u) (doneByte u) v (adding u) (qs u) (paused u) (uploading u) (progress u) (partial u) (skipExisting u).
Definition set_adding v (u : UploadState) :=
  mkUploadState (done u) (doneByte u) (errors u) v (qs u) (paused u) (uploading u) (progress u) (partial u) (skipExisting u).
Definition set_qs v (u : UploadState) :=
  mkUploadState (done u) (doneByte u) (errors u) (adding u) v (paused u) (uploading u) (progress u) (partial u) (skipExisting u).
Definition set_paused v (u : UploadState) :=
  mkUploadState (done u) (doneByte u) (errors u) (adding u) (qs u) v (uploading u) (progress u) (partial u) (skipExisting u).
Definition set_uploading v (u : UploadState) :=
  mkUploadState (done u) (doneByte u) (errors u) (adding u) (qs u) (paused u) v (progress u) (partial u) (skipExisting u).
Definition set_progress v (u : UploadState) :=
  mkUploadState (done u) (doneByte u) (errors u) (adding u) (qs u) (paused u) (uploading u) v (partial u) (skipExisting u).
Definition set_partial v (u : UploadState) :=
  mkUploadState (done u) (doneByte u) (errors u) (adding u) (qs u) (paused u) (uploading u) (progress u) v (skipExisting u).
Definition set_skipExisting v (u : UploadState) :=
  mkUploadState (done u) (doneByte u) (errors u) (adding u) (qs u) (paused u) (uploading u) (progress u) (partial u) v.

(** [upd f w] applies an assignment to the [uploadState] of a world. *)
Definition upd (f : UploadState → UploadState) (w : World) : World :=
  mkWorld (f (uploadState w)) (accept w) (bytesSent w) (reloadOnClose w) (uploadDialogIsOpen w)
    (everPaused w) (req w) (overrideStatus w) (notificationChannel w) (notificationSource w)
    (closeLast w) (frames w) (awaiting w) (concluded w) (effects w).
Definition set_accept v (w : World) :=
  mkWorld (uploadState w) v (bytesSent w) (reloadOnClose w) (uploadDialogIsOpen w)
    (everPaused w) (req w) (overrideStatus w) (notificationChannel w) (notificationSource w)
    (closeLast w) (frames w) (awaiting w) (concluded w) (effects w).
Definition set_bytesSent v (w : World) :=
  mkWorld (uploadState w) (accept w) v (reloadOnClose w) (uploadDialogIsOpen w)
    (everPaused w) (req w) (overrideStatus w) (notificationChannel w) (notificationSource w)
    (closeLast w) (frames w) (awaiting w) (concluded w) (effects w).
Definition set_reloadOnClose v (w : World) :=
  mkWorld (uploadState w) (accept w) (bytesSent w) v (uploadDialogIsOpen w)
    (everPaused w) (req w) (overrideStatus w) (notificationChannel w) (notificationSource w)
    (closeLast w) (frames w) (awaiting w) (concluded w) (effects w).
Definition set_uploadDialogIsOpen v (w : World) :=
  mkWorld (uploadState w) (accept w) (bytesSent w) (reloadOnClose w) v
    (everPaused w) (req w) (overrideStatus w) (notificationChannel w) (notificationSource w)
    (closeLast w) (frames w) (awaiting w) (concluded w) (effects w).
Definition set_everPaused v (w : World) :=
  mkWorld (uploadState w) (accept w) (bytesSent w) (reloadOnClose w) (uploadDialogIsOpen w)
    v (req w) (overrideStatus w) (notificationChannel w) (notificationSource w)
    (closeLast w) (frames w) (awaiting w) (concluded w) (effects w).
Definition set_req v (w : World) :=
  mkWorld (uploadState w) (accept w) (bytesSent w) (reloadOnClose w) (uploadDialogIsOpen w)
    (everPaused w) v (overrideStatus w) (notificationChannel w) (notificationSource w)
    (closeLast w) (frames w) (awaiting w) (concluded w) (effects w).
Definition set_overrideStatus v (w : World) :=
  mkWorld (uploadState w) (accept w) (bytesSent w) (reloadOnClose w) (uploadDialogIsOpen w)
    (everPaused w) (req w) v (notificationChannel w) (notificationSource w)
    (closeLast w) (frames w) (awaiting w) (concluded w) (effects w).
Definition set_notificationChannel v (w : World) :=
  mkWorld (uploadState w) (accept w) (bytesSent w) (reloadOnClose w) (uploadDialogIsOpen w)
    (everPaused w) (req w) (overrideStatus w) v (notificationSource w)
    (closeLast w) (frames w) (awaiting w) (concluded w) (effects w).
Definition set_notificationSource v (w : World) :=
  mkWorld (uploadState w) (accept w) (bytesSent w) (reloadOnClose w) (uploadDialogIsOpen w)
    (everPaused w) (req w) (overrideStatus w) (notificationChannel w) v
    (closeLast w) (frames w) (awaiting w) (concluded w) (effects w).
Definition set_closeLast v (w : World) :=
  mkWorld (uploadState w) (accept w) (bytesSent w) (reloadOnClose w) (uploadDialogIsOpen w)
    (everPaused w) (req w) (overrideStatus w) (notificationChannel w) (notificationSource w)
    v (frames w) (awaiting w) (concluded w) (effects w).
Definition set_frames v (w : World) :=
  mkWorld (uploadState w) (accept w) (bytesSent w) (reloadOnClose w) (uploadDialogIsOpen w)
    (everPaused w) (req w) (overrideStatus w) (notificationChannel w) (notificationSource w)
    (closeLast w) v (awaiting w) (concluded w) (effects w).
Definition set_awaiting v (w : World) :=
  mkWorld (uploadState w) (accept w) (bytesSent w) (reloadOnClose w) (uploadDialogIsOpen w)
    (everPaused w) (req w) (overrideStatus w) (notificationChannel w) (notificationSource w)
    (closeLast w) (frames w) v (concluded w) (effects w).
Definition set_concluded v (w : World) :=
  mkWorld (uploadState w) (accept w) (bytesSent w) (reloadOnClose w) (uploadDialogIsOpen w)
    (everPaused w) (req w) (overrideStatus w) (notificationChannel w) (notificationSource w)
    (closeLast w) (frames w) (awaiting w) v (effects w).
Definition emit (e : Effect) (w : World) :=
  mkWorld (uploadState w) (accept w) (bytesSent w) (reloadOnClose w) (uploadDialogIsOpen w)
    (everPaused w) (req w) (overrideStatus w) (notificationChannel w) (notificationSource w)
    (closeLast w) (frames w) (awaiting w) (concluded w) (effects w ++ [e]).

(** The state when the module is loaded. *)
Definition uploadState0 : UploadState :=
  mkUploadState 0 0 0 [] [] false None (mkFraction 0 1) 0 false.
Definition world0 : World :=
  mkWorld uploadState0 None 0 false false false None 0 None None None [] None 0%nat [].

(** ** Constants and helpers imported from other modules *)

(** Modelled from the spec: [HTTP_CONFLICT] is imported from ./misc, which
    is not among the sources; the spec calls it the dedicated "conflict"
    status (file already exists, skip was requested).  It is HTTP's
    409 Conflict. *)
Definition HTTP_CONFLICT : Z := 409.

(** Modelled from the spec: [HTTP_PAYLOAD_TOO_LARGE] is imported from
    ./misc as well; the spec's dedicated "payload too large" status, HTTP's
    413. *)
Definition HTTP_PAYLOAD_TOO_LARGE : Z := 413.

(** Modelled from the spec: [prefix] is imported from ../../src/cross, which
    is not among the sources.  It wraps a value between two strings, and
    yields the empty string when there is no value; [path] relies on that to
    leave the relative path alone when no folder is given. *)
Definition prefix (pre v post : string) : string :=
  if decide (v = "") then "" else pre +:+ v +:+ post.

(** [path(f, pre='')]: the relative path that identifies a file within a
    destination. *)
Definition path (f : File) (pre : string) : string :=
  replaceAll_slashes
    (prefix "" pre "/"
     +:+ (if decide (webkitRelativePath f = "") then name f else webkitRelativePath f)).

(** [normalizeAccept] on a string that is there *)
Definition normalizeAccept (accept : string) : string :=
  remove_spaces (replace_pipes accept).

(** [Array.prototype.some] with a callback that may throw: the callback is
    not run on the elements behind the first one it accepts. *)
Fixpoint some {A} (p : A → option bool) (l : list A) : option bool :=
  match l with
  | [] => Some false
  | x :: l' =>
      match p x with
      | None => None
      | Some true => Some true
      | Some false => some p l'
      end
  end.

(** [_.uniqBy(l, key)]: the first element of every key, in order; [seen]
    are the keys met so far. *)
Fixpoint uniqBy_from {A K} `{EqDecision K} (key : A → K) (seen : list K) (l : list A) : list A :=
  match l with
  | [] => []
  | x :: l' =>
      if decide (key x ∈ seen) then uniqBy_from key seen l'
      else x :: uniqBy_from key (key x :: seen) l'
  end.
Definition uniqBy {A K} `{EqDecision K} (key : A → K) (l : list A) : list A :=
  uniqBy_from key [] l.

(** [_.differenceBy(l, others, key)] *)
Definition differenceBy {A K} `{EqDecision K} (l others : list A) (key : A → K) : list A :=
  filter (λ x, key x ∉ key <$> others) l.

(** [_.pull(l, f)]: every element identical to [f] is taken out. *)
Definition pull (l : list ToUpload) (f : ToUpload) : list ToUpload :=
  filter (λ x, same x f = false) l.

(** [function resetCounters()] *)
Definition resetCounters (w : World) : World :=
  upd (set_doneByte 0) (upd (set_done 0) (upd (set_errors 0) w)).

(** ** [startUpload] and its closures

    The functions of this module are the closures one [startUpload] call
    creates; [k] is the number of that call's frame in the store. *)
Module Closure.

(** [function error(status)] *)
Definition error (k : nat) (status : Z) (w : World) : World :=
  let before := errors (uploadState w) in
  let w := upd (set_errors (before + 1)) w in
  if decide (before ≠ 0) then w
  else
    match frames w !! k with
    | None => w
    | Some fr =>
        let specifier :=
          if decide (status = HTTP_PAYLOAD_TOO_LARGE) then "file too large" else "" in
        let w := set_closeLast None w in
        emit (Alert (MFailedUpload (Frame.toUpload fr) (prefix ": " specifier ""))) w
    end.

(** [function done()] *)
Definition done (k : nat) (w : World) : World :=
  match frames w !! k with
  | None => w
  | Some fr =>
      let w := upd (set_done (done (uploadState w) + 1)) w in
      let w := upd (set_doneByte (doneByte (uploadState w) + size (file (Frame.toUpload fr)))) w in
      set_reloadOnClose true w
  end.

(** [function next()] *)
Definition next (w : World) : World :=
  let w := upd (set_uploading None) w in
  let w := upd (set_partial 0) w in
  match qs (uploadState w) with
  | [] => w
  | q0 :: rest =>
      let shifted := mkQ (to q0) (tail (entries q0)) in
      let qs' := match entries shifted with
                 | [] => rest
                 | _ :: _ => shifted :: rest
                 end in
      let w := upd (set_qs qs') w in
      match qs' with
      | _ :: _ => w
      | [] =>
          let w := emit ReloadListLater w in
          let w := set_reloadOnClose false w in
          if uploadDialogIsOpen w then w
          else set_concluded (S (concluded w)) (emit (Alert MConcluded) w)
      end
  end.

(** [req.onloadend] *)
Definition onloadend (k : nat) (w : World) : World :=
  match req w with
  | None => w
  | Some x =>
      if decide (readyState x ≠ 4) then w
      else
        let status := if decide (overrideStatus w ≠ 0) then overrideStatus w else status x in
        let w := set_closeLast None w in
        let w :=
          if decide (status ≠ 0 ∧ status ≠ HTTP_CONFLICT) then
            if decide (status >= 400) then error k status w else done k w
          else w in
        match frames w !! k with
        | None => w
        | Some fr => if Frame.resuming fr then w else next w
        end
  end.

(** [req.onerror] *)
Definition onerror (k : nat) (w : World) : World := error k 0 w.

(** [req.upload.onprogress], on an event with [e.loaded] and [e.total] *)
Definition onprogress (k : nat) (loaded total : Z) (w : World) : World :=
  match frames w !! k with
  | None => w
  | Some fr =>
      let w := upd (set_partial (loaded + Frame.resume fr)) w in
      let w := upd (set_progress
                      (mkFraction (partial (uploadState w)) (total + Frame.resume fr))) w in
      let w := set_bytesSent (bytesSent w + (loaded - Frame.lastProgress fr)) w in
      set_frames (<[k := Frame.mk (Frame.toUpload fr) (Frame.to fr) (Frame.resume fr)
                            (Frame.resuming fr) loaded]> (frames w)) w
  end.

End Closure.

(** A request that was sent and has not ended. *)
Definition in_flight (x : XHR) : bool :=
  bool_decide (1 <= readyState x <= 3).

(** [function abortCurrentUpload()], that is [req?.abort()]: a request in
    flight ends with status 0 and its [loadend] callback runs before
    [abort] returns; the request is then back to the unsent state. *)
Definition abortCurrentUpload (w : World) : World :=
  match req w with
  | None => w
  | Some x =>
      if in_flight x then
        let w := emit (Abort x) (set_req (Some (mkXHR (owner x) 4 0)) w) in
        let w := Closure.onloadend (owner x) w in
        set_req (Some (mkXHR (owner x) 0 0)) w
      else if decide (readyState x = 4) then set_req (Some (mkXHR (owner x) 0 0)) w
      else w
  end.

(** [async function subscribeNotifications()], called by frame [k], up to
    its [await]: with a channel open it returns at once; otherwise a
    channel id is drawn, represented by [k], and the call waits for
    [getNotification] to open the event source. *)
Definition subscribeNotifications (k : nat) (w : World) : World :=
  match notificationChannel w with
  | Some _ => w
  | None => set_awaiting (Some k) (set_notificationChannel (Some k) w)
  end.

(** [startUpload] behind [await subscribeNotifications()]: the request is
    created, the callbacks of frame [k] are installed on it, and it is sent
    with the channel id, the comment and the skip flag as they are by
    then. *)
Definition startUpload_send (k : nat) (toUpload : ToUpload) (to : string) (resume : Z)
    (w : World) : World :=
  let w := set_req (Some (mkXHR k 1 0)) w in
  emit (Send to (notificationChannel w) resume (default "" (comment toUpload))
          (skipExisting (uploadState w)) toUpload resume (path (file toUpload) "")) w.

(** [async function startUpload(toUpload, to, resume=0)].  With a channel
    open, [subscribeNotifications] has nothing to wait for and the call goes
    on to send the request before any event is delivered.  Without one the
    call is suspended until the event source is open; other events are
    delivered meanwhile, and [subscribed] below is what follows. *)
Definition startUpload (toUpload : ToUpload) (to : string) (resume : Z) (w : World) : World :=
  let k := length (frames w) in
  let w := set_frames (frames w ++ [Frame.mk toUpload to resume false 0]) w in
  let w := set_overrideStatus 0 w in
  let w := upd (set_uploading (Some toUpload)) w in
  match notificationChannel w with
  | Some _ => startUpload_send k toUpload to resume w
  | None => subscribeNotifications k w
  end.

(** The event source asked for by the suspended call is open:
    [subscribeNotifications] assigns it to [notificationSource] and
    returns, and [startUpload] goes on.  When the scheduler has renewed the
    channel meanwhile, the source listens to a channel id that the request
    sent now, and those after it, do not carry. *)
Definition subscribed (w : World) : World :=
  match awaiting w with
  | None => w
  | Some k =>
      let w := set_awaiting None w in
      let w := if decide (notificationChannel w = Some k)
               then set_notificationSource (Some k) w else w in
      match frames w !! k with
      | None => w
      | Some fr => startUpload_send k (Frame.toUpload fr) (Frame.to fr) (Frame.resume fr) w
      end
  end.

(** The callback given to [getNotification] by frame [h], up to its
    [await dialog].  [data] maps relative paths to numbers; a missing key
    reads as [undefined], which fails both tests made on it just as 0
    does.  For a resume offer that is not dropped the confirmation opens and
    the run is suspended in [closeLast]; [subscribeKey] is modelled by
    [partial_changed] below. *)
Definition notification (h : nat) (name : string) (data : gmap string Z) (w : World) : World :=
  match uploading (uploadState w) with
  | None => w
  | Some uploading =>
      if decide (name = "upload.resumable") then
        let size_ := default 0 (data !! path (file uploading) "") in
        match frames w !! h with
        | None => w
        | Some fr =>
            if decide (size_ = 0 ∨ size_ > size (file (Frame.toUpload fr))) then w
            else
              let w := set_closeLast None w in
              let w := emit (ConfirmResume size_ (size (file (Frame.toUpload fr)))) w in
              set_closeLast (Some (mkOffer h uploading size_)) w
        end
      else if decide (name = "upload.status") then
        let w := set_overrideStatus (default 0 (data !! path (file uploading) "")) w in
        if decide (overrideStatus w >= 400) then abortCurrentUpload w else w
      else w
  end.

(** The subscription made with [subscribeKey(uploadState, 'partial', ...)]
    while a confirmation is open: it runs when [partial] has changed and
    dismisses the dialog once the threshold is passed. *)
Definition partial_changed (before : Z) (w : World) : World :=
  match closeLast w with
  | None => w
  | Some o =>
      let v := partial (uploadState w) in
      if decide (v ≠ before ∧ v >= o_size o) then set_closeLast None w else w
  end.

(** The rest of the notification callback, once the confirmation has been
    answered.  A dialog closed by [closeLast] or by its timeout resolves to
    a false answer. *)
Definition answered (confirmed : bool) (w : World) : World :=
  match closeLast w with
  | None => w
  | Some o =>
      let w := set_closeLast None w in
      if negb confirmed then w
      else
        match uploading (uploadState w) with
        | None => w
        | Some current =>
            if negb (same (o_uploading o) current) then w   (* too late *)
            else
              match frames w !! o_frame o with
              | None => w
              | Some fr =>
                  let w := set_frames
                             (<[o_frame o := Frame.mk (Frame.toUpload fr) (Frame.to fr)
                                  (Frame.resume fr) true (Frame.lastProgress fr)]> (frames w)) w in
                  let w := abortCurrentUpload w in
                  startUpload (Frame.toUpload fr) (Frame.to fr) (o_size o) w
              end
        end
  end.

(** The callback of [subscribe(uploadState, ...)]: the scheduler. *)
Definition scheduler (w : World) : World :=
  let renew := set_notificationSource None (set_notificationChannel None w) in
  match qs (uploadState w) with
  | [] => renew
  | cur :: _ =>
      match entries cur with
      | [] => renew
      | first :: _ =>
          match uploading (uploadState w) with
          | None => if paused (uploadState w) then w else startUpload first (to cur) 0 w
          | Some _ => w
          end
      end
  end.

(** *** Actions of the upload dialog *)

(** The delete button of the whole queue *)
Definition delete_queue (w : World) : World :=
  abortCurrentUpload (upd (set_qs []) w).

(** The pause button *)
Definition toggle_pause (w : World) : World :=
  let w := upd (set_paused (negb (paused (uploadState w)))) w in
  if everPaused w then w else emit (Alert MPauseHint) (set_everPaused true w).

(** The delete action of the entry [f] shown in the [idx]-th destination.
    Reading [entries] of a destination that is not there throws and nothing
    is changed. *)
Definition delete_entry (idx : nat) (f : ToUpload) (w : World) : World :=
  if match uploading (uploadState w) with
     | Some current => same f current
     | None => false
     end
  then abortCurrentUpload w
  else
    match qs (uploadState w) !! idx with
    | None => w
    | Some q =>
        let q' := mkQ (to q) (pull (entries q) f) in
        match entries q' with
        | [] => upd (set_qs (delete idx (qs (uploadState w)))) w
        | _ :: _ => upd (set_qs (<[idx := q']> (qs (uploadState w)))) w
        end
    end.

(** [showUpload()] up to the creation of the dialog, and its [onClose] *)
Definition showUpload (w : World) : World :=
  let w := match qs (uploadState w) with
           | [] => resetCounters w
           | _ :: _ => w
           end in
  set_uploadDialogIsOpen true w.

Definition onClose (w : World) : World :=
  let w := set_uploadDialogIsOpen false w in
  if reloadOnClose w then emit ReloadList (set_reloadOnClose false w) else w.

(** ** Accept policy, intake and [enqueue] *)

Section Engine.

Context `{RegExpEngine}.

(** [function simulateBrowserAccept(f)], reading [state.props?.accept] from
    its argument *)
Definition simulateBrowserAccept (accept : option string) (f : File) : option bool :=
  match accept with
  | None => Some true
  | Some a =>
      if decide (a = "") then Some true
      else
        some (λ pattern,
                if startsWith pattern "." then Some (endsWith (name f) pattern)
                else regexp_search (replace "*" ".*" (replace "." "\." pattern)) (type f))
             (split_accept (normalizeAccept a))
  end.

(** [_.remove(entries, x => !simulateBrowserAccept(x.file))]: the entries
    that stay and those taken out, or [None] when the predicate throws, in
    which case the array is left as it was. *)
Fixpoint remove_rejected (accept : option string) (entries : list ToUpload)
  : option (list ToUpload * list ToUpload) :=
  match entries with
  | [] => Some ([], [])
  | x :: l =>
      match simulateBrowserAccept accept (file x) with
      | None => None
      | Some ok =>
          match remove_rejected accept l with
          | None => None
          | Some (kept, removed) =>
              Some (if ok then (x :: kept, removed) else (kept, x :: removed))
          end
      end
  end.

(** [enqueue] behind its [await alertDialog(...)]: [items] is what the
    array [entries] holds by then and [location] stands for
    [location.pathname]. *)
Definition enqueue_rest (items : list ToUpload) (location : string) (w : World) : World :=
  let items := uniqBy (λ x, path (file x) "") items in
  match items with
  | [] => w
  | _ :: _ =>
      match list_find (λ q, to q = location) (qs (uploadState w)) with
      | None => upd (set_qs (qs (uploadState w) ++ [mkQ location items])) w
      | Some (i, q) =>
          let missing := differenceBy items (entries q) (λ x, path (file x) "") in
          upd (set_qs (<[i := mkQ (to q) (entries q ++ missing)]> (qs (uploadState w)))) w
      end
  end.

(** [async function enqueue(entries)] when the alert is closed at once and
    nothing else touches the array meanwhile.  When the predicate throws
    the promise is rejected and nothing has changed. *)
Definition enqueue (items : list ToUpload) (location : string) (w : World) : World :=
  match remove_rejected (accept w) items with
  | None => w
  | Some (kept, removed) =>
      let w := match removed with
               | [] => w
               | _ :: _ => emit (Alert MRejected) w
               end in
      enqueue_rest kept location w
  end.

(** [enqueue] up to its [await]: with nothing rejected it runs to its end,
    otherwise it stops at the alert. *)
Definition enqueue_call (items : list ToUpload) (location : string) (w : World) : World :=
  match remove_rejected (accept w) items with
  | None => w
  | Some (kept, []) => enqueue_rest kept location w
  | Some (kept, _ :: _) => emit (Alert MRejected) w
  end.

(** Intake: files dropped on the dialog are added as they are, picked ones
    are filtered first. *)
Definition drop_files (more : list ToUpload) (w : World) : World :=
  upd (set_adding (adding (uploadState w) ++ more)) w.

Definition pickFiles (list : list ToUpload) (w : World) : World :=
  match remove_rejected (accept w) list with
  | None => w
  | Some (kept, _) => upd (set_adding (adding (uploadState w) ++ kept)) w
  end.

Definition clear (w : World) : World := upd (set_adding []) w.

(** The send button: [enqueue(uploadState.adding).then(); clear()] *)
Definition send_files (location : string) (w : World) : World :=
  clear (enqueue_call (adding (uploadState w)) location w).

(** ** Events

    Everything that happens is a reaction to one of these. *)
Inductive Event :=
| EvSetAccept (a : option string)          (* the folder shown, hence its accept policy, changes *)
| EvDrop (more : list ToUpload)
| EvPick (list : list ToUpload)
| EvClear
| EvSend (location : string)
| EvEnqueue (items : list ToUpload) (location : string)
| EvEnqueueRest (items : list ToUpload) (location : string) (* the rejection alert is closed *)
| EvChange                                 (* uploadState changed: the scheduler runs *)
| EvProgress (loaded total : Z)            (* transport: upload progress *)
| EvLoad (status : Z)                      (* transport: the response has arrived *)
| EvNetworkError                           (* transport: the request failed *)
| EvNotification (name : string) (data : gmap string Z)
| EvAnswer (confirmed : bool)              (* the resume confirmation is answered or times out *)
| EvDeleteQueue
| EvTogglePause
| EvSkipExisting (v : bool)
| EvDeleteEntry (idx : nat) (f : ToUpload)
| EvShowUpload
| EvCloseUpload
| EvConcludedClosed                        (* an "Upload concluded" alert is closed *)
| EvSample                                 (* the sampling timer restarts the byte counter *)
| EvSubscribed.                            (* the event source asked for is open *)

(** The transport delivers its events to the callbacks of the request in
    flight. *)
Definition deliver_progress (loaded total : Z) (w : World) : World :=
  match req w with
  | Some x =>
      if in_flight x then
        partial_changed (partial (uploadState w)) (Closure.onprogress (owner x) loaded total w)
      else w
  | None => w
  end.

Definition deliver_load (status : Z) (w : World) : World :=
  match req w with
  | Some x =>
      if in_flight x then
        Closure.onloadend (owner x) (set_req (Some (mkXHR (owner x) 4 status)) w)
      else w
  | None => w
  end.

Definition deliver_error (w : World) : World :=
  match req w with
  | Some x =>
      if in_flight x then
        Closure.onloadend (owner x)
          (Closure.onerror (owner x) (set_req (Some (mkXHR (owner x) 4 0)) w))
      else w
  | None => w
  end.

Definition step (w : World) (e : Event) : World :=
  match e with
  | EvSetAccept a => set_accept a w
  | EvDrop more => drop_files more w
  | EvPick list => pickFiles list w
  | EvClear => clear w
  | EvSend location => send_files location w
  | EvEnqueue items location => enqueue_call items location w
  | EvEnqueueRest items location => enqueue_rest items location w
  | EvChange => scheduler w
  | EvProgress loaded total => deliver_progress loaded total w
  | EvLoad status => deliver_load status w
  | EvNetworkError => deliver_error w
  | EvNotification name data =>
      match notificationSource w with
      | Some h => notification h name data w
      | None => w
      end
  | EvAnswer confirmed => answered confirmed w
  | EvDeleteQueue => delete_queue w
  | EvTogglePause => toggle_pause w
  | EvSkipExisting v => upd (set_skipExisting v) w
  | EvDeleteEntry idx f => delete_entry idx f w
  | EvShowUpload => showUpload w
  | EvCloseUpload => onClose w
  | EvConcludedClosed =>
      match concluded w with
      | O => w
      | S n => resetCounters (set_concluded n w)
      end
  | EvSample => set_bytesSent 0 w
  | EvSubscribed => subscribed w
  end.

Definition run (evs : list Event) (w : World) : World := foldl step w evs.

(** The worlds the program can be in. *)
Definition reachable (w : World) : Prop := ∃ evs, w = run evs world0.

(** ** Notions used to state the properties *)

(** The relative paths of a list of entries *)
Definition paths (l : list ToUpload) : list string := (λ x, path (file x) "") <$> l.

(** What [next] does to the queue: the first entry of the first
    destination goes, and so does that destination when it was its last. *)
Definition shift_queue (l : list Q) : list Q :=
  match l with
  | [] => []
  | q0 :: rest =>
      match tail (entries q0) with
      | [] => rest
      | e :: t => mkQ (to q0) (e :: t) :: rest
      end
  end.

(** The queue is as it was or has advanced by one entry. *)
Definition advanced (l l' : list Q) : Prop := l' = l ∨ l' = shift_queue l.

(** The ways one event can change the queue. *)
Inductive queue_change : list Q → list Q → Prop :=
| qc_same l : queue_change l l
| qc_shift l : queue_change l (shift_queue l)
| qc_clear l : queue_change l []
| qc_new l location items :
    location ∉ to <$> l → items ≠ [] → NoDup (paths items) →
    queue_change l (l ++ [mkQ location items])
| qc_append l i q missing :
    l !! i = Some q → NoDup (paths missing) →
    (∀ x, x ∈ missing → path (file x) "" ∉ paths (entries q)) →
    queue_change l (<[i := mkQ (to q) (entries q ++ missing)]> l)
| qc_pull l i q f :
    l !! i = Some q →
    queue_change l (match pull (entries q) f with
                    | [] => delete i l
                    | e :: t => <[i := mkQ (to q) (e :: t)]> l
                    end).

(** The queue is well formed: no destination without entries, one
    [QueueEntry] per destination, one entry per relative path in it. *)
Definition queue_ok (l : list Q) : Prop :=
  Forall (λ q, entries q ≠ []) l
  ∧ NoDup (to <$> l)
  ∧ Forall (λ q, NoDup (paths (entries q))) l.

(** The entries queued for a destination, as [enqueue] finds them. *)
Definition queued_at (location : string) (w : World) : list ToUpload :=
  match list_find (λ q, to q = location) (qs (uploadState w)) with
  | Some (_, q) => entries q
  | None => []
  end.

(** [a] comes before [b] in a list of entries. *)
Definition before (a b : ToUpload) (l : list ToUpload) : Prop :=
  ∃ l1 l2 l3, l = l1 ++ a :: l2 ++ b :: l3.


(** A request carrying [b] to [location] is sent between [w] and [w']. *)
Definition starts (b : ToUpload) (location : string) (w w' : World) : Prop :=
  ∃ channel from text skip filename,
    effects w' = effects w ++ [Send location channel from text skip b from filename].

(** An entry is active only while its request is in flight or the call
    that is to send it waits for its subscription. *)
Definition active_ok (w : World) : Prop :=
  ∀ u, uploading (uploadState w) = Some u →
       (∃ x, req w = Some x ∧ in_flight x = true) ∨ is_Some (awaiting w).

(** While a [startUpload] call waits for its subscription, the entry it
    was called with is the active one, no request is in flight, no resume
    confirmation is open and no notification arrives. *)
Definition setup_ok (w : World) : Prop :=
  ∀ k, awaiting w = Some k →
       (∃ fr, frames w !! k = Some fr ∧ Frame.resuming fr = false
              ∧ uploading (uploadState w) = Some (Frame.toUpload fr))
       ∧ (∀ x, req w = Some x → in_flight x = false)
       ∧ closeLast w = None
       ∧ notificationSource w = None.

(** A resume confirmation is open only while a request is in flight. *)
Definition offer_ok (w : World) : Prop :=
  ∀ o, closeLast w = Some o → ∃ x, req w = Some x ∧ in_flight x = true.

(** Without a channel no notification arrives. *)
Definition source_ok (w : World) : Prop :=
  notificationChannel w = None → notificationSource w = None.

(** The active entry is the first entry of the first destination, and a
    call that waits for its subscription is to send it there. *)
Definition head_ok (w : World) : Prop :=
  ∀ u, uploading (uploadState w) = Some u →
       ∃ location rest more,
         qs (uploadState w) = mkQ location (u :: rest) :: more
         ∧ ∀ k fr, awaiting w = Some k → frames w !! k = Some fr → Frame.to fr = location.

(** The requests sent among the effects *)
Definition is_send (e : Effect) : bool :=
  match e with
  | Send _ _ _ _ _ _ _ _ => true
  | _ => false
  end.

(** The requests that carry the entry [u] among the effects *)
Definition is_send_of (u : ToUpload) (e : Effect) : bool :=
  match e with
  | Send _ _ _ _ _ body _ _ => same body u
  | _ => false
  end.
Definition sends_of (u : ToUpload) (l : list Effect) : list Effect :=
  filter (λ e, is_send_of u e = true) l.

(** Between [w] and [w'] no request is sent. *)
Definition sends_nothing (w w' : World) : Prop :=
  ∃ l, effects w' = effects w ++ l ∧ Forall (λ e, is_send e = false) l.

(** The pause hints among the effects *)
Definition is_pause_hint (e : Effect) : bool :=
  match e with
  | Alert MPauseHint => true
  | _ => false
  end.
Definition pause_hints (l : list Effect) : list Effect :=
  filter (λ e, is_pause_hint e = true) l.

(** [w'] has shown as many pause hints as [w] and agrees with it on
    [everPaused]. *)
Definition same_hints (w w' : World) : Prop :=
  everPaused w' = everPaused w ∧ pause_hints (effects w') = pause_hints (effects w).

(** No character of [s] is one of [cs]. *)
Fixpoint free_of (cs : list ascii) (s : string) : bool :=
  match s with
  | EmptyString => true
  | String c s' => negb (existsb (Ascii.eqb c) cs) && free_of cs s'
  end.

(** The status [onloadend] works with when the transport reports [s]. *)
Definition reported_status (w : World) (s : Z) : Z :=
  if decide (overrideStatus w ≠ 0) then overrideStatus w else s.

(** The alerts about a failed upload among the effects *)
Definition is_failure_alert (e : Effect) : bool :=
  match e with
  | Alert (MFailedUpload _ _) => true
  | _ => false
  end.
Definition failure_alerts (l : list Effect) : list Effect :=
  filter (λ e, is_failure_alert e = true) l.

(** The alerts about rejected files among the effects *)
Definition is_rejection_alert (e : Effect) : bool :=
  match e with
  | Alert MRejected => true
  | _ => false
  end.
Definition rejection_alerts (l : list Effect) : list Effect :=
  filter (λ e, is_rejection_alert e = true) l.

(** Two fractions stand for the same quotient. *)
Definition same_quotient (f g : Fraction) : Prop :=
  numer f * denom g = numer g * denom f.






(** Progress read to the letter: after a progress event the fraction is
    [partial] over the size of the file being uploaded. *)
Definition progress_as_stated : Prop :=
  ∀ (w : World) (x : XHR) (u : ToUpload) (loaded total : Z),
    reachable w → req w = Some x → in_flight x = true →
    uploading (uploadState w) = Some u →
    let w' := step w (EvProgress loaded total) in
    same_quotient (progress (uploadState w'))
                  (mkFraction (partial (uploadState w')) (size (file u))).

(** ** Sample data for the examples *)

Definition entryA : ToUpload :=
  mkToUpload 1 (mkFile "a.bin" "" "application/octet-stream" 100) None.
Definition entryB : ToUpload :=
  mkToUpload 2 (mkFile "b.bin" "" "application/octet-stream" 10) None.
Definition entryX : ToUpload :=
  mkToUpload 3 (mkFile "x.bin" "" "application/octet-stream" 1000) None.

(** [entryA] is being uploaded to /docs/ with [entryB] queued behind it. *)
Definition first_started : list Event :=
  [EvEnqueue [entryA; entryB] "/docs/"; EvChange; EvSubscribed].

(** [entryA] has been uploaded and [entryB], the second entry of the same
    queue, is being uploaded. *)
Definition second_started : list Event :=
  first_started ++ [EvLoad 200; EvChange].


(** [entryA] is being uploaded and the server has offered to resume it
    from byte 50: the confirmation is open. *)
Definition resume_offered : list Event :=
  first_started ++ [EvNotification "upload.resumable" {[ "a.bin" := 50 ]}].

(** The transfer of [entryA] is being set up: the call waits for its
    subscription, with [entryB] queued behind [entryA]. *)
Definition setting_up : list Event :=
  [EvEnqueue [entryA; entryB] "/docs/"; EvChange].

(** The queue is deleted while the transfer of [entryA] is being set up,
    [entryX] is queued then, and the subscription arrives. *)
Definition deleted_during_setup : list Event :=
  setting_up ++ [EvDeleteQueue; EvChange; EvEnqueue [entryX] "/docs/"; EvChange; EvSubscribed].

(** [entryB], the second entry of a queue, is being uploaded and the user
    accepts the offer to resume it from byte 5; [entryX] is queued then. *)
Definition resumed_second : list Event :=
  second_started ++ [EvNotification "upload.resumable" {[ "b.bin" := 5 ]}; EvAnswer true;
                     EvEnqueue [entryX] "/docs/"].

(** [entryB] alone is queued and being uploaded. *)
Definition last_started : list Event :=
  [EvEnqueue [entryB] "/docs/"; EvChange; EvSubscribed].

(** A picture, for the policies on extensions. *)
Definition picture : ToUpload := mkToUpload 4 (mkFile "p.png" "" "image/png" 5) None.

(** ** How the callbacks change the queue *)

Arguments startUpload : simpl never.
Arguments startUpload_send : simpl never.
Arguments subscribed : simpl never.
Arguments abortCurrentUpload : simpl never.
Arguments Closure.onloadend : simpl never.
Arguments Closure.next : simpl never.
Arguments Closure.error : simpl never.
Arguments Closure.done : simpl never.
Arguments Closure.onprogress : simpl never.
Arguments scheduler : simpl never.
Arguments notification : simpl never.
Arguments answered : simpl never.
Arguments enqueue_rest : simpl never.
Arguments delete_entry : simpl never.
Arguments enqueue : simpl never.
Arguments enqueue_call : simpl never.
Arguments delete_queue : simpl never.
Arguments differenceBy : simpl never.
Arguments uniqBy : simpl never.
Arguments pull : simpl never.
Arguments paths : simpl never.
Arguments shift_queue : simpl never.
Arguments deliver_load : simpl never.
Arguments deliver_error : simpl never.
Arguments deliver_progress : simpl never.
Arguments partial_changed : simpl never.
Arguments in_flight : simpl never.

Ltac callbacks :=
  unfold Closure.onloadend, Closure.onerror, Closure.error, Closure.done, Closure.next,
    Closure.onprogress, startUpload, startUpload_send, subscribeNotifications, resetCounters,
    partial_changed.

Ltac cases := repeat (first [progress cbn in * | case_match]); simplify_eq; try done.

Lemma next_qs w :
  qs (uploadState (Closure.next w)) = shift_queue (qs (uploadState w)).
Proof.
  unfold Closure.next, shift_queue. cbn.
  destruct (qs (uploadState w)) as [|q0 rest] eqn:E; [done|]. cbn.
  destruct (tail (entries q0)); cbn; cases.
Qed.

Lemma error_qs k s w :
  qs (uploadState (Closure.error k s w)) = qs (uploadState w).
Proof. callbacks. cases. Qed.

Lemma done_qs k w :
  qs (uploadState (Closure.done k w)) = qs (uploadState w).
Proof. callbacks. cases. Qed.

Lemma onloadend_qs k w :
  advanced (qs (uploadState w)) (qs (uploadState (Closure.onloadend k w))).
Proof.
  unfold Closure.onloadend.
  destruct (req w) as [x|]; [|by left].
  destruct (decide (readyState x ≠ 4)); [by left|].
  set (w1 := if decide _ then _ else _).
  assert (Hq : qs (uploadState w1) = qs (uploadState w)).
  { subst w1. repeat case_decide; rewrite ?error_qs, ?done_qs; done. }
  destruct (frames w1 !! k) as [fr|]; [|rewrite Hq; by left].
  destruct (Frame.resuming fr); [rewrite Hq; by left|].
  rewrite next_qs, Hq. by right.
Qed.

Lemma abortCurrentUpload_qs w :
  advanced (qs (uploadState w)) (qs (uploadState (abortCurrentUpload w))).
Proof.
  unfold abortCurrentUpload.
  destruct (req w) as [x|]; [|by left].
  destruct (in_flight x).
  - cbn. apply (onloadend_qs (owner x) (emit (Abort x) (set_req (Some (mkXHR (owner x) 4 0)) w))).
  - case_decide; by left.
Qed.

Lemma startUpload_qs u loc r w :
  qs (uploadState (startUpload u loc r w)) = qs (uploadState w).
Proof. callbacks. cases. Qed.

Lemma subscribed_qs w : qs (uploadState (subscribed w)) = qs (uploadState w).
Proof. unfold subscribed, startUpload_send. cases. Qed.

Lemma uniqBy_from_spec {A K} `{EqDecision K} (key : A → K) (l : list A) (seen : list K) :
  NoDup (key <$> uniqBy_from key seen l)
  ∧ (∀ x, x ∈ uniqBy_from key seen l → (key x ∉ seen) ∧ x ∈ l).
Proof.
  revert seen. induction l as [|x l IH]; intros seen; cbn.
  - split; [constructor|]. intros y Hy. inversion Hy.
  - destruct (decide (key x ∈ seen)) as [Hin|Hout].
    + destruct (IH seen) as [Hn Hs]. split; [done|].
      intros y Hy. destruct (Hs y Hy). split; [done|]. by right.
    + destruct (IH (key x :: seen)) as [Hn Hs]. split.
      * rewrite fmap_cons. constructor; [|done].
        intros Hx. apply list_elem_of_fmap in Hx as (y & Hk & Hy).
        destruct (Hs y Hy) as [Hy' _]. apply Hy'. rewrite Hk. left.
      * intros y Hy. apply elem_of_cons in Hy as [->|Hy]; [(split; [done|by left])|].
        destruct (Hs y Hy) as [Hy' ?]. split; [|by right].
        intros ?. apply Hy'. by right.
Qed.

Lemma uniqBy_NoDup l : NoDup (paths (uniqBy (λ x, path (file x) "") l)).
Proof. apply (uniqBy_from_spec (λ x, path (file x) "") l []). Qed.

Lemma differenceBy_NoDup l others :
  NoDup (paths l) → NoDup (paths (differenceBy l others (λ x, path (file x) ""))).
Proof.
  intros Hn. eapply sublist_NoDup; [exact Hn|].
  unfold paths, differenceBy. apply fmap_sublist, sublist_filter.
Qed.

Lemma differenceBy_fresh l others x :
  x ∈ differenceBy l others (λ x, path (file x) "") → path (file x) "" ∉ paths others.
Proof. unfold differenceBy. intros Hx. apply list_elem_of_filter in Hx as [Hx _]. exact Hx. Qed.

Lemma enqueue_rest_qs items loc w :
  queue_change (qs (uploadState w)) (qs (uploadState (enqueue_rest items loc w))).
Proof.
  unfold enqueue_rest.
  pose proof (uniqBy_NoDup items) as Hn.
  destruct (uniqBy _ items) as [|e t] eqn:Eu; [constructor|].
  destruct (list_find _ _) as [[i q]|] eqn:Ef; cbn.
  - apply list_find_Some in Ef as (Hi & _ & _).
    apply qc_append; [done| |].
    + by apply differenceBy_NoDup.
    + intros x. apply differenceBy_fresh.
  - apply list_find_None in Ef. apply qc_new; [|done|done].
    intros Hin. apply list_elem_of_fmap in Hin as (q & Hq & Hin).
    rewrite Forall_forall in Ef. by apply (Ef q).
Qed.

Lemma enqueue_call_qs items loc w :
  queue_change (qs (uploadState w)) (qs (uploadState (enqueue_call items loc w))).
Proof.
  unfold enqueue_call. destruct (remove_rejected _ _) as [[kept [|r removed]]|].
  - apply enqueue_rest_qs.
  - constructor.
  - constructor.
Qed.

Lemma enqueue_qs items loc w :
  queue_change (qs (uploadState w)) (qs (uploadState (enqueue items loc w))).
Proof.
  unfold enqueue. destruct (remove_rejected _ _) as [[kept [|r removed]]|].
  - apply enqueue_rest_qs.
  - apply (enqueue_rest_qs kept loc (emit (Alert MRejected) w)).
  - constructor.
Qed.

Lemma notification_qs h name data w :
  advanced (qs (uploadState w)) (qs (uploadState (notification h name data w))).
Proof.
  unfold notification.
  destruct (uploading (uploadState w)); [|by left].
  case_decide.
  - destruct (frames w !! h); [|by left]. case_decide; by left.
  - case_decide; [|by left]. case_decide; [|by left].
    apply (abortCurrentUpload_qs (set_overrideStatus _ w)).
Qed.

Lemma answered_qs c w :
  advanced (qs (uploadState w)) (qs (uploadState (answered c w))).
Proof.
  unfold answered.
  destruct (closeLast w) as [o|]; [|by left].
  destruct c; cbn; [|by left].
  destruct (uploading (uploadState w)) as [cur|] eqn:Eu; cbn; rewrite ?Eu; [|by left].
  destruct (same _ _); cbn; [|by left].
  destruct (frames w !! o_frame o) as [fr|] eqn:Efr; cbn; rewrite ?Efr; [|by left].
  rewrite startUpload_qs.
  apply (abortCurrentUpload_qs (set_frames _ (set_closeLast None w))).
Qed.

Lemma scheduler_qs w : qs (uploadState (scheduler w)) = qs (uploadState w).
Proof.
  unfold scheduler. cases. by rewrite startUpload_qs.
Qed.

Lemma delete_queue_qs w : qs (uploadState (delete_queue w)) = [].
Proof.
  unfold delete_queue.
  destruct (abortCurrentUpload_qs (upd (set_qs []) w)) as [-> | ->]; done.
Qed.

Lemma advanced_change l l' : advanced l l' → queue_change l l'.
Proof. intros [-> | ->]; constructor. Qed.

Lemma deliver_load_qs s w :
  advanced (qs (uploadState w)) (qs (uploadState (deliver_load s w))).
Proof.
  unfold deliver_load. destruct (req w) as [x|]; [|by left].
  destruct (in_flight x); [|by left].
  apply (onloadend_qs (owner x) (set_req _ w)).
Qed.

Lemma deliver_error_qs w :
  advanced (qs (uploadState w)) (qs (uploadState (deliver_error w))).
Proof.
  unfold deliver_error. destruct (req w) as [x|]; [|by left].
  destruct (in_flight x); [|by left].
  pose proof (onloadend_qs (owner x)
                (Closure.onerror (owner x) (set_req (Some (mkXHR (owner x) 4 0)) w))) as Ha.
  unfold Closure.onerror in *. by rewrite error_qs in Ha.
Qed.

Lemma deliver_progress_qs l t w :
  qs (uploadState (deliver_progress l t w)) = qs (uploadState w).
Proof.
  unfold deliver_progress, partial_changed, Closure.onprogress. cases.
Qed.

Lemma delete_entry_qs idx f w :
  queue_change (qs (uploadState w)) (qs (uploadState (delete_entry idx f w))).
Proof.
  unfold delete_entry.
  destruct (match uploading (uploadState w) with Some c => same f c | None => false end).
  - apply advanced_change, abortCurrentUpload_qs.
  - destruct (qs (uploadState w) !! idx) as [q|] eqn:Eq; [|constructor].
    pose proof (qc_pull _ _ _ f Eq) as Hc. cbn.
    destruct (pull (entries q) f); exact Hc.
Qed.

(** Every event changes the queue in one of the listed ways. *)
Lemma step_queue_change w e :
  queue_change (qs (uploadState w)) (qs (uploadState (step w e))).
Proof.
  destruct e; cbn.
  - constructor.
  - constructor.
  - unfold pickFiles. cases; constructor.
  - constructor.
  - unfold send_files, clear. cbn. apply enqueue_call_qs.
  - apply enqueue_call_qs.
  - apply enqueue_rest_qs.
  - rewrite scheduler_qs. constructor.
  - rewrite deliver_progress_qs. constructor.
  - apply advanced_change, deliver_load_qs.
  - apply advanced_change, deliver_error_qs.
  - destruct (notificationSource w); [|constructor].
    apply advanced_change, notification_qs.
  - apply advanced_change, answered_qs.
  - rewrite delete_queue_qs. constructor.
  - unfold toggle_pause. cases; constructor.
  - constructor.
  - apply delete_entry_qs.
  - unfold showUpload, resetCounters.
    destruct (qs (uploadState w)) eqn:E; cbn; rewrite ?E; constructor.
  - unfold onClose. cases; constructor.
  - unfold resetCounters. cases; constructor.
  - constructor.
  - rewrite subscribed_qs. constructor.
Qed.

(** ** The queue stays well formed *)

Lemma run_snoc evs e w : run (evs ++ [e]) w = step (run evs w) e.
Proof. unfold run. by rewrite foldl_app. Qed.

Lemma reachable_ind (P : World → Prop) :
  P world0 → (∀ w e, reachable w → P w → P (step w e)) → ∀ w, reachable w → P w.
Proof.
  intros H0 Hs w [evs ->].
  induction evs as [|e evs IH] using rev_ind; [exact H0|].
  rewrite run_snoc. apply Hs; [by exists evs|exact IH].
Qed.

Lemma reachable_step w e : reachable w → reachable (step w e).
Proof. intros [evs ->]. exists (evs ++ [e]). by rewrite run_snoc. Qed.

Lemma reachable_run evs w : reachable w → reachable (run evs w).
Proof.
  intros [evs0 ->]. exists (evs0 ++ evs). unfold run. by rewrite foldl_app.
Qed.

Lemma paths_tail_NoDup l : NoDup (paths l) → NoDup (paths (tail l)).
Proof.
  destruct l as [|x l]; [done|]. unfold paths. rewrite fmap_cons.
  apply NoDup_cons_1_2.
Qed.

Lemma paths_pull_NoDup l f : NoDup (paths l) → NoDup (paths (pull l f)).
Proof.
  intros Hn. eapply sublist_NoDup; [exact Hn|].
  unfold paths, pull. apply fmap_sublist, sublist_filter.
Qed.

Lemma to_insert_same (l : list Q) i q es :
  l !! i = Some q → to <$> <[i := mkQ (to q) es]> l = to <$> l.
Proof.
  intros Hi. rewrite list_fmap_insert. cbn.
  apply list_insert_id. by rewrite list_lookup_fmap, Hi.
Qed.

Lemma queue_change_ok l l' : queue_change l l' → queue_ok l → queue_ok l'.
Proof.
  intros Hc (Hne & Hto & Hp). destruct Hc as [l|l|l|l loc items Hloc Hit Hnd|l i q missing Hi Hnd Hfr|l i q f Hi].
  - done.
  - destruct l as [|q0 rest]; [done|]. unfold shift_queue.
    apply Forall_cons in Hne as [Hq0 Hne]. apply Forall_cons in Hp as [Hp0 Hp].
    rewrite fmap_cons in Hto. pose proof (paths_tail_NoDup _ Hp0) as Ht.
    destruct (tail (entries q0)) as [|e t].
    + split_and!; [done| by apply NoDup_cons_1_2 in Hto | done].
    + split_and!; [by constructor | by rewrite fmap_cons | by constructor].
  - split_and!; constructor.
  - split_and!.
    + apply Forall_app. split; [done|]. by constructor.
    + rewrite fmap_app. apply NoDup_app. split_and!; [done| |apply NoDup_singleton].
      intros x Hx Hx'. apply list_elem_of_singleton in Hx'. cbn in Hx'. by subst.
    + apply Forall_app. split; [done|]. by constructor.
  - split_and!.
    + apply Forall_insert; [done|]. cbn.
      rewrite Forall_lookup in Hne. specialize (Hne i q Hi).
      destruct (entries q); [done|]. done.
    + by rewrite to_insert_same.
    + apply Forall_insert; [done|]. cbn. unfold paths. rewrite fmap_app.
      rewrite Forall_lookup in Hp. specialize (Hp i q Hi).
      apply NoDup_app. split_and!; [done| |done].
      intros p Hp1 Hp2. apply list_elem_of_fmap in Hp2 as (x & -> & Hx).
      by apply (Hfr x Hx).
  - rewrite Forall_lookup in Hp. pose proof (paths_pull_NoDup _ f (Hp i q Hi)) as Hpl.
    rewrite <- Forall_lookup in Hp.
    destruct (pull (entries q) f) as [|e t].
    + split_and!.
      * by apply Forall_delete.
      * rewrite list_fmap_delete. eapply sublist_NoDup; [exact Hto|apply sublist_delete].
      * by apply Forall_delete.
    + split_and!.
      * by apply Forall_insert.
      * by rewrite to_insert_same.
      * by apply Forall_insert.
Qed.

Lemma step_queue_ok w e :
  queue_ok (qs (uploadState w)) → queue_ok (qs (uploadState (step w e))).
Proof. apply queue_change_ok, step_queue_change. Qed.

Lemma reachable_queue_ok w : reachable w → queue_ok (qs (uploadState w)).
Proof.
  revert w. apply reachable_ind.
  - split_and!; constructor.
  - intros w e _. apply step_queue_ok.
Qed.

(** C6.  In every reachable state each [QueueEntry] of the queue has at
    least one entry: the updates that take the last entry of a destination
    away ([next] on completion, the delete action) take the destination away
    with it, and [enqueue] adds no destination without entries. *)
Theorem queue_entries_never_empty (w : World) :
  reachable w → Forall (λ q, entries q ≠ []) (qs (uploadState w)).
Proof. intros Hr. by destruct (reachable_queue_ok w Hr) as (Hne & _). Qed.

(** ** The request in flight belongs to the active entry *)

(** A request in flight was created by a frame that is not handing over to
    a resumed transfer, and carries the active entry. *)
Definition req_ok (w : World) : Prop :=
  ∀ x, req w = Some x → in_flight x = true →
    ∃ fr, frames w !! owner x = Some fr
          ∧ Frame.resuming fr = false
          ∧ uploading (uploadState w) = Some (Frame.toUpload fr).

(** The properties that hold of every reachable world, together. *)
Definition sound (w : World) : Prop :=
  req_ok w ∧ setup_ok w ∧ offer_ok w ∧ source_ok w ∧ active_ok w.

Lemma req_ok_same w w' :
  req w' = req w → frames w' = frames w →
  uploading (uploadState w') = uploading (uploadState w) →
  req_ok w → req_ok w'.
Proof. unfold req_ok. intros -> -> ->. done. Qed.

Lemma req_ok_ended w :
  (∀ x, req w = Some x → in_flight x = false) → req_ok w.
Proof. intros He x Hx Hf. rewrite (He x Hx) in Hf. done. Qed.

(** A world that agrees with a sound one on the variables the invariants
    read is sound. *)
Lemma sound_same w w' :
  req w' = req w → frames w' = frames w →
  uploading (uploadState w') = uploading (uploadState w) →
  awaiting w' = awaiting w → closeLast w' = closeLast w →
  notificationChannel w' = notificationChannel w →
  notificationSource w' = notificationSource w →
  sound w → sound w'.
Proof.
  unfold sound, req_ok, setup_ok, offer_ok, source_ok, active_ok.
  intros -> -> -> -> -> -> ->. done.
Qed.

(** In a sound world with a request in flight no call is waiting; with
    nothing active, nothing is in flight, waiting or offered. *)
Lemma sound_in_flight w x :
  sound w → req w = Some x → in_flight x = true → awaiting w = None.
Proof.
  intros (_ & Hs & _) Hx Hf. destruct (awaiting w) as [k|] eqn:Ek; [|done].
  destruct (Hs k Ek) as (_ & Hno & _). rewrite (Hno x Hx) in Hf. done.
Qed.

Lemma sound_idle w :
  sound w → uploading (uploadState w) = None →
  (∀ x, req w = Some x → in_flight x = false) ∧ closeLast w = None ∧ awaiting w = None.
Proof.
  intros (Hr & Hs & Ho & _) Hu.
  assert (Hno : ∀ x, req w = Some x → in_flight x = false).
  { intros x Hx. destruct (in_flight x) eqn:Hf; [|done].
    destruct (Hr x Hx Hf) as (fr & _ & _ & Hup). congruence. }
  split_and!; [done| |].
  - destruct (closeLast w) as [o|] eqn:Ec; [|done].
    destruct (Ho o Ec) as (x & Hx & Hf). rewrite (Hno x Hx) in Hf. done.
  - destruct (awaiting w) as [k|] eqn:Ek; [|done].
    destruct (Hs k Ek) as ((fr & _ & _ & Hup) & _). congruence.
Qed.

Lemma sound_offer w o :
  sound w → closeLast w = Some o → awaiting w = None.
Proof.
  intros (_ & Hs & _) Hc. destruct (awaiting w) as [k|] eqn:Ek; [|done].
  destruct (Hs k Ek) as (_ & _ & Hnone & _). congruence.
Qed.

(** With a notification arriving for an active entry, its request is in
    flight. *)
Lemma sound_notified w h u :
  sound w → notificationSource w = Some h → uploading (uploadState w) = Some u →
  ∃ x, req w = Some x ∧ in_flight x = true.
Proof.
  intros (_ & Hs & _ & _ & Ha) Hh Hu.
  destruct (Ha u Hu) as [?|[k Hk]]; [done|].
  destruct (Hs k Hk) as (_ & _ & _ & Hnone). congruence.
Qed.

Lemma startUpload_frames u loc r w :
  frames (startUpload u loc r w) = frames w ++ [Frame.mk u loc r false 0].
Proof. callbacks. cases. Qed.

Lemma startUpload_uploading u loc r w :
  uploading (uploadState (startUpload u loc r w)) = Some u.
Proof. callbacks. cases. Qed.

(** [startUpload] with a channel open sends the request at once. *)
Lemma startUpload_open u loc r w c :
  notificationChannel w = Some c →
  startUpload u loc r w
  = startUpload_send (length (frames w)) u loc r
      (upd (set_uploading (Some u))
         (set_overrideStatus 0 (set_frames (frames w ++ [Frame.mk u loc r false 0]) w))).
Proof. intros Hc. unfold startUpload. cbn. by rewrite Hc. Qed.

(** Without a channel it draws a channel id and waits. *)
Lemma startUpload_waits u loc r w :
  notificationChannel w = None →
  startUpload u loc r w
  = set_awaiting (Some (length (frames w)))
      (set_notificationChannel (Some (length (frames w)))
         (upd (set_uploading (Some u))
            (set_overrideStatus 0 (set_frames (frames w ++ [Frame.mk u loc r false 0]) w)))).
Proof. intros Hc. unfold startUpload, subscribeNotifications. cbn. by rewrite Hc. Qed.

Lemma startUpload_req u loc r w c :
  notificationChannel w = Some c →
  req (startUpload u loc r w) = Some (mkXHR (length (frames w)) 1 0).
Proof. intros Hc. by rewrite (startUpload_open _ _ _ _ c). Qed.

Lemma startUpload_sound u loc r w :
  source_ok w → (∀ x, req w = Some x → in_flight x = false) →
  closeLast w = None → awaiting w = None →
  sound (startUpload u loc r w).
Proof.
  intros Hso Hno Hc Ha.
  assert (Hfr : (frames w ++ [Frame.mk u loc r false 0]) !! length (frames w)
                = Some (Frame.mk u loc r false 0))
    by (by rewrite lookup_app_r, Nat.sub_diag).
  destruct (notificationChannel w) as [c|] eqn:Ech.
  - rewrite (startUpload_open _ _ _ _ c) by done. unfold startUpload_send. cbn.
    split_and!.
    + intros x Hx _. cbn in *. simplify_eq. cbn. eauto.
    + intros k Hk. cbn in Hk. congruence.
    + intros o Ho. cbn in Ho. congruence.
    + intros Hn. cbn in *. congruence.
    + intros v _. left. cbn. eauto.
  - rewrite startUpload_waits by done. split_and!.
    + apply req_ok_ended. exact Hno.
    + intros k Hk. cbn in *. simplify_eq. split_and!; [eauto|exact Hno|done|by apply Hso].
    + intros o Ho. cbn in Ho. congruence.
    + intros Hn. cbn in Hn. done.
    + intros v _. right. cbn. eauto.
Qed.

Lemma next_req w : req (Closure.next w) = req w.
Proof. unfold Closure.next. cases. Qed.

Lemma error_req k s w : req (Closure.error k s w) = req w.
Proof. callbacks. cases. Qed.

Lemma done_req k w : req (Closure.done k w) = req w.
Proof. callbacks. cases. Qed.

Lemma onloadend_req k w : req (Closure.onloadend k w) = req w.
Proof.
  unfold Closure.onloadend.
  destruct (req w) as [x|] eqn:Ex; [|done].
  destruct (decide (readyState x ≠ 4)); [done|].
  set (w1 := if decide _ then _ else _).
  assert (Hq : req w1 = Some x).
  { subst w1. repeat case_decide; rewrite ?error_req, ?done_req; done. }
  destruct (frames w1 !! k) as [fr|]; [|done].
  destruct (Frame.resuming fr); [done|]. by rewrite next_req.
Qed.

(** What the callbacks of a request leave alone. *)
Lemma next_kept w :
  awaiting (Closure.next w) = awaiting w
  ∧ closeLast (Closure.next w) = closeLast w
  ∧ notificationChannel (Closure.next w) = notificationChannel w
  ∧ notificationSource (Closure.next w) = notificationSource w
  ∧ frames (Closure.next w) = frames w
  ∧ uploading (uploadState (Closure.next w)) = None.
Proof. unfold Closure.next. cases. Qed.

Lemma error_kept k s w :
  awaiting (Closure.error k s w) = awaiting w
  ∧ notificationChannel (Closure.error k s w) = notificationChannel w
  ∧ notificationSource (Closure.error k s w) = notificationSource w
  ∧ frames (Closure.error k s w) = frames w
  ∧ uploading (uploadState (Closure.error k s w)) = uploading (uploadState w)
  ∧ (closeLast w = None → closeLast (Closure.error k s w) = None).
Proof. unfold Closure.error. cases. Qed.

Lemma done_kept k w :
  awaiting (Closure.done k w) = awaiting w
  ∧ closeLast (Closure.done k w) = closeLast w
  ∧ notificationChannel (Closure.done k w) = notificationChannel w
  ∧ notificationSource (Closure.done k w) = notificationSource w
  ∧ frames (Closure.done k w) = frames w
  ∧ uploading (uploadState (Closure.done k w)) = uploading (uploadState w).
Proof. unfold Closure.done. cases. Qed.

Lemma onloadend_kept k w :
  awaiting (Closure.onloadend k w) = awaiting w
  ∧ notificationChannel (Closure.onloadend k w) = notificationChannel w
  ∧ notificationSource (Closure.onloadend k w) = notificationSource w
  ∧ frames (Closure.onloadend k w) = frames w.
Proof.
  unfold Closure.onloadend.
  destruct (req w) as [x|]; [|done].
  destruct (decide (readyState x ≠ 4)); [done|].
  set (st := if decide (overrideStatus w ≠ 0) then _ else _).
  set (w1 := if decide _ then _ else _).
  assert (H1 : awaiting w1 = awaiting w
               ∧ notificationChannel w1 = notificationChannel w
               ∧ notificationSource w1 = notificationSource w
               ∧ frames w1 = frames w).
  { subst w1. destruct (decide (st ≠ 0 ∧ st ≠ HTTP_CONFLICT)); [|done].
    destruct (decide (st >= 400)).
    - by destruct (error_kept k st (set_closeLast None w)) as (-> & -> & -> & -> & _).
    - by destruct (done_kept k (set_closeLast None w)) as (-> & _ & -> & -> & -> & _). }
  destruct H1 as (Ha & Hc & Hs & Hf).
  destruct (frames w1 !! k) as [fr|]; [|done].
  destruct (Frame.resuming fr); [done|].
  by destruct (next_kept w1) as (-> & _ & -> & -> & -> & _).
Qed.

(** When the request has ended, [onloadend] closes the confirmation; and
    unless its frame is handing over, no entry is active afterwards. *)
Lemma onloadend_done k w x :
  req w = Some x → readyState x = 4 →
  closeLast (Closure.onloadend k w) = None
  ∧ (∀ fr, frames w !! k = Some fr → Frame.resuming fr = false →
           uploading (uploadState (Closure.onloadend k w)) = None).
Proof.
  intros Hx Hr. unfold Closure.onloadend. rewrite Hx.
  rewrite decide_False by (by intros ?).
  set (st := if decide (overrideStatus w ≠ 0) then _ else _).
  set (w1 := if decide _ then _ else _).
  assert (H1 : closeLast w1 = None ∧ frames w1 = frames w).
  { subst w1. destruct (decide (st ≠ 0 ∧ st ≠ HTTP_CONFLICT)); [|done].
    destruct (decide (st >= 400)).
    - destruct (error_kept k st (set_closeLast None w)) as (_ & _ & _ & -> & _ & Hc).
      split; [by apply Hc|done].
    - by destruct (done_kept k (set_closeLast None w)) as (_ & -> & _ & _ & -> & _). }
  destruct H1 as (Hc & Hf). rewrite Hf.
  destruct (frames w !! k) as [fr|] eqn:Efr.
  - destruct (Frame.resuming fr) eqn:Eres.
    + split; [done|intros ? [= <-]; congruence].
    + destruct (next_kept w1) as (_ & Hc' & _ & _ & _ & Hu').
      split; [by rewrite Hc'|intros ? _ _; done].
  - split; [done|intros ? [=]].
Qed.

(** A request in flight that ends leaves a sound world in which no entry
    is active. *)
Lemma ended_sound s w x w1 :
  sound w → req w = Some x → in_flight x = true →
  req w1 = Some (mkXHR (owner x) 4 s) → frames w1 = frames w →
  awaiting w1 = awaiting w →
  notificationChannel w1 = notificationChannel w →
  notificationSource w1 = notificationSource w →
  sound (Closure.onloadend (owner x) w1)
  ∧ uploading (uploadState (Closure.onloadend (owner x) w1)) = None.
Proof.
  intros Hs Hx Hf Hx1 Hfr1 Ha1 Hc1 Hs1.
  pose proof (sound_in_flight w x Hs Hx Hf) as Hnone.
  destruct Hs as (Hr & _ & _ & Hso & _).
  destruct (Hr x Hx Hf) as (fr & Hfr & Hres & Hup).
  destruct (onloadend_kept (owner x) w1) as (Ha & Hc & Hsrc & Hfs).
  destruct (onloadend_done (owner x) w1 _ Hx1 eq_refl) as (Hcl & Hu).
  specialize (Hu fr). rewrite Hfr1 in Hu. specialize (Hu Hfr Hres).
  split; [|done]. split_and!.
  - apply req_ok_ended. intros y. rewrite onloadend_req, Hx1. by intros [= <-].
  - intros j Hj. congruence.
  - intros o Ho. congruence.
  - intros Hn. rewrite Hsrc, Hs1. apply Hso. congruence.
  - intros v Hv. congruence.
Qed.

(** After [abortCurrentUpload] no request is in flight. *)
Lemma abortCurrentUpload_ended w :
  ∀ y, req (abortCurrentUpload w) = Some y → in_flight y = false.
Proof.
  unfold abortCurrentUpload. destruct (req w) as [x|] eqn:Ex; [|by rewrite Ex].
  destruct (in_flight x) eqn:Ef; cbn.
  - by intros y [= <-].
  - case_decide; cbn; [by intros y [= <-]|]. rewrite Ex. by intros y [= <-].
Qed.

Lemma abortCurrentUpload_kept w :
  awaiting (abortCurrentUpload w) = awaiting w
  ∧ notificationChannel (abortCurrentUpload w) = notificationChannel w
  ∧ notificationSource (abortCurrentUpload w) = notificationSource w
  ∧ frames (abortCurrentUpload w) = frames w.
Proof.
  unfold abortCurrentUpload. destruct (req w) as [x|]; [|done].
  destruct (in_flight x); [|by case_decide]. cbn.
  by destruct (onloadend_kept (owner x)
                 (emit (Abort x) (set_req (Some (mkXHR (owner x) 4 0)) w)))
    as (-> & -> & -> & ->).
Qed.

(** Without a request in flight, [abortCurrentUpload] changes nothing but
    the state of the request that has ended. *)
Lemma abortCurrentUpload_idle w :
  (∀ x, req w = Some x → in_flight x = false) →
  uploadState (abortCurrentUpload w) = uploadState w
  ∧ effects (abortCurrentUpload w) = effects w
  ∧ closeLast (abortCurrentUpload w) = closeLast w.
Proof.
  intros Hno. unfold abortCurrentUpload. destruct (req w) as [x|] eqn:Ex; [|done].
  rewrite (Hno x eq_refl). by case_decide.
Qed.

(** The request that has ended going back to the unsent state keeps a
    world sound. *)
Lemma sound_unsent w r :
  sound w → (∀ x, req w = Some x → in_flight x = false) → in_flight r = false →
  sound (set_req (Some r) w).
Proof.
  intros (Hr & Hse & Ho & Hso & Ha) Hno Hnr. split_and!.
  - apply req_ok_ended. by intros y [= <-].
  - intros k Hk. cbn in *. destruct (Hse k Hk) as (? & ? & ? & ?).
    split_and!; try done. by intros y [= <-].
  - intros o Hc. cbn in *. destruct (Ho o Hc) as (y & Hy & Hfy).
    rewrite (Hno y Hy) in Hfy. done.
  - done.
  - intros v Hv. cbn in *. destruct (Ha v Hv) as [(y & Hy & Hfy)|?]; [|by right].
    rewrite (Hno y Hy) in Hfy. done.
Qed.

Lemma abortCurrentUpload_sound w : sound w → sound (abortCurrentUpload w).
Proof.
  intros Hs. unfold abortCurrentUpload.
  destruct (req w) as [x|] eqn:Ex; [|done].
  destruct (in_flight x) eqn:Ef.
  - destruct (ended_sound 0 w x (emit (Abort x) (set_req (Some (mkXHR (owner x) 4 0)) w))
                Hs Ex Ef) as [Hs' _]; try done.
    apply sound_unsent; [done| |done].
    intros y. rewrite onloadend_req. by intros [= <-].
  - case_decide; [|done]. apply sound_unsent; [done| |done].
    intros y. rewrite Ex. by intros [= <-].
Qed.

(** In a sound world in which no call is waiting, no entry is active after
    [abortCurrentUpload]. *)
Lemma abortCurrentUpload_clears w :
  sound w → awaiting w = None → uploading (uploadState (abortCurrentUpload w)) = None.
Proof.
  intros Hs Hna.
  destruct (uploading (uploadState w)) as [u|] eqn:Eu.
  - pose proof Hs as (_ & _ & _ & _ & Ha).
    destruct (Ha u Eu) as [(x & Hx & Hf)|[k Hk]]; [|congruence].
    unfold abortCurrentUpload. rewrite Hx, Hf. cbn.
    by destruct (ended_sound 0 w x (emit (Abort x) (set_req (Some (mkXHR (owner x) 4 0)) w))
                   Hs Hx Hf) as [_ ->].
  - destruct (sound_idle w Hs Eu) as (Hno & _).
    destruct (abortCurrentUpload_idle w Hno) as (-> & _). done.
Qed.

Lemma deliver_load_sound s w : sound w → sound (deliver_load s w).
Proof.
  intros Hs. unfold deliver_load.
  destruct (req w) as [x|] eqn:Ex; [|done].
  destruct (in_flight x) eqn:Ef; [|done].
  by destruct (ended_sound s w x (set_req (Some (mkXHR (owner x) 4 s)) w) Hs Ex Ef).
Qed.

Lemma deliver_error_sound w : sound w → sound (deliver_error w).
Proof.
  intros Hs. unfold deliver_error.
  destruct (req w) as [x|] eqn:Ex; [|done].
  destruct (in_flight x) eqn:Ef; [|done].
  unfold Closure.onerror.
  destruct (error_kept (owner x) 0 (set_req (Some (mkXHR (owner x) 4 0)) w))
    as (Ha & Hc & Hsrc & Hf & Hu & _).
  by destruct (ended_sound 0 w x
                 (Closure.error (owner x) 0 (set_req (Some (mkXHR (owner x) 4 0)) w))
                 Hs Ex Ef); rewrite ?error_req.
Qed.

Lemma deliver_progress_req_ok l t w : req_ok w → req_ok (deliver_progress l t w).
Proof.
  intros Hok. unfold deliver_progress.
  destruct (req w) as [x|] eqn:Ex; [|done].
  destruct (in_flight x) eqn:Ef; [|done].
  destruct (Hok x Ex Ef) as (fr & Hfr & Hres & Hup).
  intros y Hy Hfy.
  unfold partial_changed, Closure.onprogress in *. rewrite Hfr in *.
  assert (y = x) as -> by (cases; congruence).
  exists (Frame.mk (Frame.toUpload fr) (Frame.to fr) (Frame.resume fr) (Frame.resuming fr) l).
  split_and!; [|done|].
  - assert (owner x < length (frames w))%nat by (by eapply lookup_lt_Some).
    cases; by apply list_lookup_insert_eq.
  - cases.
Qed.

Lemma deliver_progress_kept l t w :
  req (deliver_progress l t w) = req w
  ∧ uploading (uploadState (deliver_progress l t w)) = uploading (uploadState w)
  ∧ awaiting (deliver_progress l t w) = awaiting w
  ∧ notificationChannel (deliver_progress l t w) = notificationChannel w
  ∧ notificationSource (deliver_progress l t w) = notificationSource w
  ∧ (closeLast (deliver_progress l t w) = closeLast w
     ∨ closeLast (deliver_progress l t w) = None).
Proof.
  unfold deliver_progress, partial_changed, Closure.onprogress.
  cases; split_and!; auto.
Qed.

Lemma deliver_progress_sound l t w : sound w → sound (deliver_progress l t w).
Proof.
  intros (Hr & Hse & Ho & Hso & Ha).
  destruct (deliver_progress_kept l t w) as (Hx & Hu & Haw & Hc & Hs & Hcl).
  split_and!.
  - by apply deliver_progress_req_ok.
  - intros k Hk. rewrite Haw in Hk. destruct (Hse k Hk) as ((fr & Hfr & Hres & Hup) & Hno & Hn & Hsn).
    assert (Hsame : deliver_progress l t w = w).
    { unfold deliver_progress. destruct (req w) as [x|] eqn:Ex; [|done].
      by rewrite (Hno x eq_refl). }
    rewrite Hsame. split_and!; eauto.
  - intros o Hoc. rewrite Hx. destruct Hcl as [Hcl|Hcl]; [|congruence].
    rewrite Hcl in Hoc. by apply (Ho o).
  - unfold source_ok. by rewrite Hc, Hs.
  - intros u Hup. rewrite Hu in Hup. rewrite Hx, Haw. by apply (Ha u).
Qed.

Lemma scheduler_sound w : sound w → sound (scheduler w).
Proof.
  intros Hs. unfold scheduler.
  assert (Hrenew : sound (set_notificationSource None (set_notificationChannel None w))).
  { destruct Hs as (Hr & Hse & Ho & Hso & Ha). split_and!; try done.
    intros k Hk. cbn in *. destruct (Hse k Hk) as (? & ? & ? & ?). done. }
  destruct (qs (uploadState w)) as [|cur ?]; [done|].
  destruct (entries cur) as [|first ?]; [done|].
  destruct (uploading (uploadState w)) eqn:Eu; [done|].
  destruct (paused (uploadState w)); [done|].
  destruct (sound_idle w Hs Eu) as (Hno & Hc & Ha).
  apply startUpload_sound; try done. by destruct Hs as (_ & _ & _ & ? & _).
Qed.

Lemma notification_sound h name data w :
  notificationSource w = Some h → sound w → sound (notification h name data w).
Proof.
  intros Hh Hs. unfold notification.
  destruct (uploading (uploadState w)) as [u|] eqn:Eu; [|done].
  destruct (sound_notified w h u Hs Hh Eu) as (x & Hx & Hf).
  case_decide.
  - destruct (frames w !! h); [|done]. case_decide; [done|].
    destruct Hs as (Hr & Hse & Ho & Hso & Ha). split_and!; try done.
    + intros k Hk. cbn in *. destruct (Hse k Hk) as (_ & Hno & _).
      rewrite (Hno x Hx) in Hf. done.
    + intros o _. cbn. eauto.
  - case_decide; [|done].
    assert (sound (set_overrideStatus (default 0 (data !! path (file u) "")) w))
      by (revert Hs; by apply sound_same).
    case_decide; [|done]. by apply abortCurrentUpload_sound.
Qed.

Lemma answered_sound c w : sound w → sound (answered c w).
Proof.
  intros Hs. unfold answered.
  destruct (closeLast w) as [o|] eqn:Ec; [|done].
  pose proof (sound_offer w o Hs Ec) as Hna.
  assert (Hclosed : sound (set_closeLast None w)).
  { destruct Hs as (Hr & Hse & Ho & Hso & Ha). split_and!; try done.
    intros k Hk. cbn in *. congruence. }
  destruct c; cbn; [|done].
  destruct (uploading (uploadState w)) as [cur|] eqn:Eu; cbn; rewrite ?Eu; [|done].
  destruct (same _ _); cbn; [|done].
  destruct (frames w !! o_frame o) as [fr|] eqn:Efr; cbn; rewrite ?Efr; [|done].
  set (w1 := set_frames _ _).
  destruct (abortCurrentUpload_kept w1) as (Ha & Hc & Hsrc & _).
  apply startUpload_sound.
  - unfold source_ok. rewrite Hc, Hsrc. by destruct Hs as (_ & _ & _ & ? & _).
  - apply abortCurrentUpload_ended.
  - unfold abortCurrentUpload. destruct (req w1) as [x|] eqn:Ex; [|done].
    destruct (in_flight x); [|by case_decide]. cbn.
    rewrite (proj1 (onloadend_done (owner x)
                      (emit (Abort x) (set_req (Some (mkXHR (owner x) 4 0)) w1))
                      (mkXHR (owner x) 4 0) eq_refl eq_refl)). done.
  - by rewrite Ha.
Qed.

Lemma subscribed_sound w : sound w → sound (subscribed w).
Proof.
  intros (Hr & Hse & Ho & Hso & Ha). unfold subscribed.
  destruct (awaiting w) as [k|] eqn:Ek; [|done].
  destruct (Hse k Ek) as ((fr & Hfr & Hres & Hup) & Hno & Hc & Hsn).
  cbn. set (w1 := if decide _ then _ else _).
  assert (H1 : frames w1 = frames w ∧ uploading (uploadState w1) = uploading (uploadState w)
               ∧ closeLast w1 = None ∧ awaiting w1 = None
               ∧ notificationChannel w1 = notificationChannel w
               ∧ (notificationChannel w = None → notificationSource w1 = None)).
  { subst w1. case_decide; split_and!; try done. congruence. }
  destruct H1 as (Hf1 & Hu1 & Hc1 & Ha1 & Hch1 & Hs1).
  rewrite Hf1, Hfr. unfold startUpload_send. split_and!.
  - intros x Hx _. cbn in *. simplify_eq. cbn. rewrite Hf1, Hu1. eauto.
  - intros j Hj. cbn in Hj. congruence.
  - intros o Hoc. cbn in Hoc. congruence.
  - intros Hn. cbn in *. apply Hs1. congruence.
  - intros v _. left. cbn. eauto.
Qed.

Lemma enqueue_rest_same items loc w :
  req (enqueue_rest items loc w) = req w
  ∧ frames (enqueue_rest items loc w) = frames w
  ∧ uploading (uploadState (enqueue_rest items loc w)) = uploading (uploadState w)
  ∧ awaiting (enqueue_rest items loc w) = awaiting w
  ∧ closeLast (enqueue_rest items loc w) = closeLast w
  ∧ notificationChannel (enqueue_rest items loc w) = notificationChannel w
  ∧ notificationSource (enqueue_rest items loc w) = notificationSource w.
Proof. unfold enqueue_rest. cases. Qed.

Lemma enqueue_call_same items loc w :
  req (enqueue_call items loc w) = req w
  ∧ frames (enqueue_call items loc w) = frames w
  ∧ uploading (uploadState (enqueue_call items loc w)) = uploading (uploadState w)
  ∧ awaiting (enqueue_call items loc w) = awaiting w
  ∧ closeLast (enqueue_call items loc w) = closeLast w
  ∧ notificationChannel (enqueue_call items loc w) = notificationChannel w
  ∧ notificationSource (enqueue_call items loc w) = notificationSource w.
Proof.
  unfold enqueue_call. destruct (remove_rejected _ _) as [[kept [|??]]|]; [|done|done].
  apply enqueue_rest_same.
Qed.

Lemma delete_entry_sound idx f w : sound w → sound (delete_entry idx f w).
Proof.
  intros Hs. unfold delete_entry.
  destruct (match uploading (uploadState w) with Some c => same f c | None => false end).
  - by apply abortCurrentUpload_sound.
  - destruct (qs (uploadState w) !! idx) as [q|]; [|done]. cbn.
    destruct (pull (entries q) f); revert Hs; by apply sound_same.
Qed.

Lemma step_sound w e : sound w → sound (step w e).
Proof.
  intros Hs. destruct e; cbn.
  - revert Hs. by apply sound_same.
  - revert Hs. by apply sound_same.
  - unfold pickFiles. destruct (remove_rejected _ _) as [[??]|]; revert Hs; by apply sound_same.
  - revert Hs. by apply sound_same.
  - destruct (enqueue_call_same (adding (uploadState w)) location w)
      as (? & ? & ? & ? & ? & ? & ?).
    revert Hs. by apply sound_same.
  - destruct (enqueue_call_same items location w) as (? & ? & ? & ? & ? & ? & ?).
    revert Hs. by apply sound_same.
  - destruct (enqueue_rest_same items location w) as (? & ? & ? & ? & ? & ? & ?).
    revert Hs. by apply sound_same.
  - by apply scheduler_sound.
  - by apply deliver_progress_sound.
  - by apply deliver_load_sound.
  - by apply deliver_error_sound.
  - destruct (notificationSource w) eqn:Eh; [|done]. by apply notification_sound.
  - by apply answered_sound.
  - unfold delete_queue. apply abortCurrentUpload_sound. revert Hs. by apply sound_same.
  - unfold toggle_pause. cbn. destruct (everPaused w); revert Hs; by apply sound_same.
  - revert Hs. by apply sound_same.
  - by apply delete_entry_sound.
  - unfold showUpload, resetCounters.
    destruct (qs (uploadState w)); revert Hs; by apply sound_same.
  - unfold onClose. cbn. destruct (reloadOnClose w); revert Hs; by apply sound_same.
  - destruct (concluded w); [done|]. revert Hs. by apply sound_same.
  - revert Hs. by apply sound_same.
  - by apply subscribed_sound.
Qed.

Lemma reachable_sound w : reachable w → sound w.
Proof.
  revert w. apply reachable_ind.
  - split_and!; [by intros x Hx|by intros k Hk|by intros o Ho|done|by intros u Hu].
  - intros w e _. apply step_sound.
Qed.

Lemma reachable_req_ok w : reachable w → req_ok w.
Proof. intros Hr. by destruct (reachable_sound w Hr). Qed.

(** ** Completion of a request *)

Lemma next_spec w :
  done (uploadState (Closure.next w)) = done (uploadState w)
  ∧ doneByte (uploadState (Closure.next w)) = doneByte (uploadState w)
  ∧ errors (uploadState (Closure.next w)) = errors (uploadState w)
  ∧ uploading (uploadState (Closure.next w)) = None
  ∧ partial (uploadState (Closure.next w)) = 0
  ∧ ∃ l, effects (Closure.next w) = effects w ++ l ∧ failure_alerts l = [].
Proof.
  unfold Closure.next. cbn.
  destruct (qs (uploadState w)) as [|q0 rest]; cbn.
  { split_and!; try done. exists []. by rewrite app_nil_r. }
  destruct (tail (entries q0)) as [|e t]; [destruct rest|]; cbn;
    [destruct (uploadDialogIsOpen w); cbn| |]; split_and!; try done.
  - by exists [ReloadListLater].
  - exists [ReloadListLater; Alert MConcluded]. by rewrite <- app_assoc.
  - exists []. by rewrite app_nil_r.
  - exists []. by rewrite app_nil_r.
Qed.


Lemma error_counts k s w :
  errors (uploadState (Closure.error k s w)) = errors (uploadState w) + 1
  ∧ done (uploadState (Closure.error k s w)) = done (uploadState w)
  ∧ doneByte (uploadState (Closure.error k s w)) = doneByte (uploadState w)
  ∧ frames (Closure.error k s w) = frames w
  ∧ overrideStatus (Closure.error k s w) = overrideStatus w.
Proof. unfold Closure.error. cases. Qed.

(** [onloadend] of frame [k] when the request of [w] has ended and the
    frame is not handing over: the status decides between [error], [done]
    and neither, and [next] follows. *)
Lemma onloadend_ended k w x fr :
  req w = Some x → readyState x = 4 →
  frames w !! k = Some fr → Frame.resuming fr = false →
  let s := reported_status w (status x) in
  Closure.onloadend k w =
  Closure.next
    (if decide (s ≠ 0 ∧ s ≠ HTTP_CONFLICT)
     then if decide (s >= 400) then Closure.error k s (set_closeLast None w)
          else Closure.done k (set_closeLast None w)
     else set_closeLast None w).
Proof.
  intros Hx Hr Hfr Hres. cbn. unfold Closure.onloadend, reported_status.
  rewrite Hx. rewrite decide_False by (intros ?; done). cbn.
  set (s := if decide (overrideStatus w ≠ 0) then _ else _).
  set (w1 := if decide (s ≠ 0 ∧ s ≠ HTTP_CONFLICT) then _ else _).
  assert (Hf : frames w1 = frames w).
  { subst w1. repeat case_decide; [| |done].
    - by destruct (error_counts k s (set_closeLast None w)) as (_ & _ & _ & -> & _).
    - unfold Closure.done. cbn. rewrite Hfr. done. }
  rewrite Hf, Hfr, Hres. done.
Qed.



(** C10.  A network failure runs [onerror] and then [onloadend] with
    transport status 0.  [onerror] adds one to [errors]; [onloadend],
    without a status override, changes no counter for status 0; so the
    failure is counted once, and a request ended by [abort] is not counted
    at all. *)
Theorem network_error_counted_once (w : World) (x : XHR) :
  req w = Some x → in_flight x = true → overrideStatus w = 0 →
  let ended := set_req (Some (mkXHR (owner x) 4 0)) w in
  let failed := Closure.onerror (owner x) ended in
  step w EvNetworkError = Closure.onloadend (owner x) failed
  ∧ errors (uploadState failed) = errors (uploadState w) + 1
  ∧ errors (uploadState (Closure.onloadend (owner x) failed)) = errors (uploadState failed)
  ∧ errors (uploadState (step w EvNetworkError)) = errors (uploadState w) + 1
  ∧ done (uploadState (step w EvNetworkError)) = done (uploadState w)
  ∧ doneByte (uploadState (step w EvNetworkError)) = doneByte (uploadState w)
  ∧ errors (uploadState (abortCurrentUpload w)) = errors (uploadState w)
  ∧ done (uploadState (abortCurrentUpload w)) = done (uploadState w).
Proof.
  intros Hx Hf Ho. cbn.
  assert (Hstep : deliver_error w
                  = Closure.onloadend (owner x)
                      (Closure.onerror (owner x) (set_req (Some (mkXHR (owner x) 4 0)) w))).
  { unfold deliver_error. by rewrite Hx, Hf. }
  assert (Hquiet : ∀ v, req v = Some (mkXHR (owner x) 4 0) → overrideStatus v = 0 →
            errors (uploadState (Closure.onloadend (owner x) v)) = errors (uploadState v)
            ∧ done (uploadState (Closure.onloadend (owner x) v)) = done (uploadState v)
            ∧ doneByte (uploadState (Closure.onloadend (owner x) v)) = doneByte (uploadState v)).
  { intros v Hv Hov. unfold Closure.onloadend. rewrite Hv, Hov. cbn.
    destruct (decide (4 ≠ 4)); [done|]. destruct (decide (0 ≠ 0)); [done|].
    rewrite decide_False by (by intros [? _]). cbn.
    destruct (frames v !! owner x) as [fr|]; [|done].
    destruct (Frame.resuming fr); [done|].
    by destruct (next_spec (set_closeLast None v)) as (? & ? & ? & _). }
  set (ended := set_req (Some (mkXHR (owner x) 4 0)) w).
  destruct (error_counts (owner x) 0 ended) as (He & Hd & Hb & _ & Hov).
  destruct (Hquiet (Closure.onerror (owner x) ended)) as (He' & Hd' & Hb').
  { unfold Closure.onerror. by rewrite error_req. }
  { unfold Closure.onerror. by rewrite Hov. }
  unfold Closure.onerror in *. subst ended.
  split_and!; try done.
  - by rewrite Hstep, He', He.
  - by rewrite Hstep, Hd', Hd.
  - by rewrite Hstep, Hb', Hb.
  - unfold abortCurrentUpload. rewrite Hx, Hf. cbn.
    by destruct (Hquiet (emit (Abort x) (set_req (Some (mkXHR (owner x) 4 0)) w))) as (-> & _).
  - unfold abortCurrentUpload. rewrite Hx, Hf. cbn.
    by destruct (Hquiet (emit (Abort x) (set_req (Some (mkXHR (owner x) 4 0)) w))) as (_ & -> & _).
Qed.

(** C7, amended.  While a request with resume offset [R] is in flight, a
    progress event reporting [loaded] bytes out of [total] publishes
    [partial = loaded + R] and [progress = partial / (total + R)], where
    [total] is the size the transport reports for the body of this request;
    that is the file's size exactly when [total] is the size of the
    remaining range.  The byte counter grows by [loaded] minus the value
    of the previous progress event (0 at first). *)
Theorem progress_published (w : World) (x : XHR) (fr : Frame.t) (loaded total : Z) :
  req w = Some x → in_flight x = true → frames w !! owner x = Some fr →
  let w' := step w (EvProgress loaded total) in
  partial (uploadState w') = loaded + Frame.resume fr
  ∧ progress (uploadState w') = mkFraction (loaded + Frame.resume fr) (total + Frame.resume fr)
  ∧ (total = size (file (Frame.toUpload fr)) - Frame.resume fr →
     progress (uploadState w')
     = mkFraction (partial (uploadState w')) (size (file (Frame.toUpload fr))))
  ∧ bytesSent w' = bytesSent w + (loaded - Frame.lastProgress fr)
  ∧ (∀ loaded2 total2,
       bytesSent (step w' (EvProgress loaded2 total2)) = bytesSent w' + (loaded2 - loaded)).
Proof.
  intros Hx Hf Hfr. cbn.
  assert (Hlt : (owner x < length (frames w))%nat) by (by eapply lookup_lt_Some).
  assert (Hstep : ∀ v fr' l t, req v = Some x → frames v !! owner x = Some fr' →
            partial (uploadState (deliver_progress l t v)) = l + Frame.resume fr'
            ∧ progress (uploadState (deliver_progress l t v))
              = mkFraction (l + Frame.resume fr') (t + Frame.resume fr')
            ∧ bytesSent (deliver_progress l t v) = bytesSent v + (l - Frame.lastProgress fr')
            ∧ req (deliver_progress l t v) = Some x
            ∧ frames (deliver_progress l t v) !! owner x
              = Some (Frame.mk (Frame.toUpload fr') (Frame.to fr') (Frame.resume fr')
                        (Frame.resuming fr') l)).
  { intros v fr' l t Hv Hfr'.
    assert ((owner x < length (frames v))%nat) by (by eapply lookup_lt_Some).
    unfold deliver_progress, partial_changed, Closure.onprogress.
    rewrite Hv, Hf, Hfr'. cases; split_and!; try done; by apply list_lookup_insert_eq. }
  destruct (Hstep w fr loaded total Hx Hfr) as (Hp & Hg & Hb & Hx' & Hfr').
  split_and!; try done.
  - intros ->. rewrite Hg, Hp. f_equal. lia.
  - intros l2 t2. by destruct (Hstep _ _ l2 t2 Hx' Hfr') as (_ & _ & -> & _).
Qed.

(** ** [enqueue] and identity *)

Lemma set_qs_same (u : UploadState) : set_qs (qs u) u = u.
Proof. by destruct u. Qed.

Lemma uniqBy_single (x : ToUpload) : uniqBy (λ y, path (file y) "") [x] = [x].
Proof.
  unfold uniqBy. cbn. rewrite decide_False; [done|]. apply not_elem_of_nil.
Qed.

Lemma enqueue_rest_present (w : World) (x : ToUpload) (location : string) :
  path (file x) "" ∈ paths (queued_at location w) →
  uploadState (enqueue_rest [x] location w) = uploadState w.
Proof.
  unfold queued_at, enqueue_rest. rewrite uniqBy_single.
  destruct (list_find _ _) as [[i q]|] eqn:Ef.
  - intros Hin. apply list_find_Some in Ef as (Hi & _ & _).
    unfold differenceBy. rewrite filter_cons.
    rewrite decide_False by (intros Hn; by apply Hn).
    rewrite filter_nil, app_nil_r.
    replace (mkQ (to q) (entries q)) with q by (by destruct q).
    rewrite list_insert_id by done. apply set_qs_same.
  - intros Hin. inversion Hin.
Qed.

Lemma remove_rejected_single (a : option string) (x : ToUpload) :
  remove_rejected a [x] =
  match simulateBrowserAccept a (file x) with
  | None => None
  | Some true => Some ([x], [])
  | Some false => Some ([], [x])
  end.
Proof. cbn. destruct (simulateBrowserAccept a (file x)) as [[|]|]; done. Qed.

Lemma enqueue_rest_nil (w : World) (location : string) : enqueue_rest [] location w = w.
Proof. done. Qed.

Lemma enqueue_present (w : World) (x : ToUpload) (location : string) :
  path (file x) "" ∈ paths (queued_at location w) →
  uploadState (enqueue [x] location w) = uploadState w.
Proof.
  intros Hin. unfold enqueue. rewrite remove_rejected_single.
  destruct (simulateBrowserAccept (accept w) (file x)) as [[|]|]; [|done|done].
  by apply enqueue_rest_present.
Qed.

Lemma enqueue_rest_queued (w : World) (x : ToUpload) (location : string) :
  path (file x) "" ∈ paths (queued_at location (enqueue_rest [x] location w)).
Proof.
  unfold queued_at, enqueue_rest. rewrite uniqBy_single.
  destruct (list_find _ (qs (uploadState w))) as [[i q]|] eqn:Ef; cbn.
  - apply list_find_Some in Ef as (Hi & Hto & Hmin).
    set (q' := mkQ (to q) (entries q ++ differenceBy [x] (entries q) (λ y, path (file y) ""))).
    assert (Hf' : list_find (λ q0, to q0 = location) (<[i := q']> (qs (uploadState w)))
                  = Some (i, q')).
    { apply list_find_insert_Some. right. left. split_and!; try done.
      by eapply lookup_lt_Some. }
    rewrite Hf'. subst q'. cbn. unfold paths. rewrite fmap_app.
    unfold differenceBy. rewrite filter_cons, filter_nil.
    destruct (decide (path (file x) "" ∉ (λ y, path (file y) "") <$> entries q)) as [Hn|Hn].
    + apply elem_of_app. right. cbn. by left.
    + apply elem_of_app. left. by apply dec_stable.
  - rewrite list_find_app_r by done. cbn. rewrite decide_True by done. cbn. by left.
Qed.

Lemma filter_none {A} (P : A → Prop) `{∀ x, Decision (P x)} (l : list A) :
  (∀ y, y ∈ l → ¬ P y) → filter P l = [].
Proof.
  induction l as [|a l IH]; intros Hl; [done|].
  rewrite filter_cons, decide_False by (apply Hl; by left).
  apply IH. intros y Hy. apply Hl. by right.
Qed.

Lemma count_one {A B} `{EqDecision B} (f : A → B) (l : list A) (b : B) :
  NoDup (f <$> l) → b ∈ f <$> l → length (filter (λ y, f y = b) l) = 1%nat.
Proof.
  induction l as [|a l IH]; intros Hn Hin; [inversion Hin|].
  rewrite fmap_cons in Hn, Hin. apply NoDup_cons in Hn as [Ha Hn].
  rewrite filter_cons. destruct (decide (f a = b)) as [<-|Hne].
  - cbn. f_equal. rewrite filter_none; [done|]. intros y Hy Heq.
    apply Ha. rewrite <- Heq. apply list_elem_of_fmap. by exists y.
  - apply IH; [done|]. apply elem_of_cons in Hin as [?|?]; [congruence|done].
Qed.

Lemma queued_at_paths_NoDup (w : World) (location : string) :
  queue_ok (qs (uploadState w)) → NoDup (paths (queued_at location w)).
Proof.
  intros (_ & _ & Hp). unfold queued_at.
  destruct (list_find _ _) as [[i q]|] eqn:Ef; [|constructor].
  apply list_find_Some in Ef as (Hi & _ & _).
  rewrite Forall_lookup in Hp. by apply (Hp i q).
Qed.

(** C5.  Calling [enqueue] with an entry whose relative path is already
    queued for the destination leaves [uploadState], the queue included, as
    it was; hence enqueuing an accepted entry twice leaves exactly one
    entry with its relative path in the queue of the destination. *)
Theorem enqueue_same_pair_once (w : World) (x : ToUpload) (location : string) :
  reachable w → simulateBrowserAccept (accept w) (file x) = Some true →
  let once := enqueue [x] location w in
  let twice := enqueue [x] location once in
  (∀ v y, path (file y) "" ∈ paths (queued_at location v) →
          uploadState (enqueue [y] location v) = uploadState v)
  ∧ uploadState twice = uploadState once
  ∧ length (filter (λ y, path (file y) "" = path (file x) "") (queued_at location twice)) = 1%nat.
Proof.
  intros Hr Hacc. cbn.
  assert (Hstep : enqueue [x] location w = step w (EvEnqueue [x] location)).
  { cbn. unfold enqueue, enqueue_call. by rewrite remove_rejected_single, Hacc. }
  assert (Hin : path (file x) "" ∈ paths (queued_at location (enqueue [x] location w))).
  { unfold enqueue. rewrite remove_rejected_single, Hacc. apply enqueue_rest_queued. }
  pose proof (enqueue_present _ _ _ Hin) as Hsame.
  split_and!; [intros v y; apply enqueue_present|done|].
  assert (Hq : queued_at location (enqueue [x] location (enqueue [x] location w))
               = queued_at location (enqueue [x] location w)).
  { unfold queued_at. by rewrite Hsame. }
  rewrite Hq.
  apply (count_one (λ y, path (file y) "")); [|exact Hin].
  apply queued_at_paths_NoDup, reachable_queue_ok.
  rewrite Hstep. by apply reachable_step.
Qed.

(** ** The order of the queue *)

(** The entries of the first [QueueEntry] for a destination, by recursion
    on the queue. *)
Fixpoint entries_for (location : string) (l : list Q) : list ToUpload :=
  match l with
  | [] => []
  | q :: r => if decide (to q = location) then entries q else entries_for location r
  end.

Lemma queued_at_entries_for location w :
  queued_at location w = entries_for location (qs (uploadState w)).
Proof.
  unfold queued_at. induction (qs (uploadState w)) as [|q r IH]; [done|].
  cbn. destruct (decide (to q = location)); [done|].
  rewrite <- IH. by destruct (list_find _ r) as [[??]|].
Qed.

Lemma entries_for_absent location l : location ∉ to <$> l → entries_for location l = [].
Proof.
  induction l as [|q r IH]; [done|]. rewrite fmap_cons. intros Hn.
  apply not_elem_of_cons in Hn as [Hq Hr]. cbn.
  rewrite decide_False by done. by apply IH.
Qed.

Lemma entries_for_app_l location l r :
  location ∈ to <$> l → entries_for location (l ++ r) = entries_for location l.
Proof.
  induction l as [|q l IH]; [intros Hin; inversion Hin|]. rewrite fmap_cons. intros Hin. cbn.
  destruct (decide (to q = location)); [done|].
  apply IH. apply elem_of_cons in Hin as [?|?]; [congruence|done].
Qed.


Lemma entries_for_insert_other location l i q q' :
  l !! i = Some q → to q ≠ location → to q' ≠ location →
  entries_for location (<[i := q']> l) = entries_for location l.
Proof.
  revert i. induction l as [|q0 l IH]; intros i Hi Hq Hq'; [done|].
  destruct i as [|i]; cbn in *.
  - simplify_eq. by rewrite !decide_False.
  - destruct (decide (to q0 = location)); [done|]. by eapply IH.
Qed.








Lemma startUpload_send_effects k u loc r w :
  effects (startUpload_send k u loc r w)
  = effects w ++ [Send loc (notificationChannel w) r (default "" (comment u))
                    (skipExisting (uploadState w)) u r (path (file u) "")].
Proof. done. Qed.

(** With a channel open [startUpload] sends the request; without one it
    sends nothing yet. *)
Lemma startUpload_effects u loc r w :
  effects (startUpload u loc r w)
  = effects w ++
    match notificationChannel w with
    | Some c => [Send loc (Some c) r (default "" (comment u)) (skipExisting (uploadState w))
                   u r (path (file u) "")]
    | None => []
    end.
Proof.
  destruct (notificationChannel w) as [c|] eqn:Ec.
  - rewrite (startUpload_open _ _ _ _ c) by done. rewrite startUpload_send_effects. cbn.
    by rewrite Ec.
  - rewrite startUpload_waits by done. cbn. by rewrite app_nil_r.
Qed.

Lemma effects_grow (l : list Effect) e : l ≠ l ++ [e].
Proof. intros Heq. apply (f_equal length) in Heq. rewrite length_app in Heq. cbn in Heq. lia. Qed.

(** The scheduler starts nothing but the first entry of the first
    destination, and only when nothing is active and the queue is not
    paused. *)
Lemma scheduler_starts_head b location w :
  starts b location w (scheduler w) →
  ∃ rest more, qs (uploadState w) = mkQ location (b :: rest) :: more
               ∧ uploading (uploadState w) = None
               ∧ paused (uploadState w) = false.
Proof.
  intros (ch & from & text & skip & fn & Heff). unfold scheduler in Heff.
  pose proof (effects_grow (effects w) (Send location ch from text skip b from fn)) as Hno.
  destruct (qs (uploadState w)) as [|cur more] eqn:Eq; [done|].
  destruct (entries cur) as [|first rest] eqn:Ee; [done|].
  destruct (uploading (uploadState w)) eqn:Eu; [done|].
  destruct (paused (uploadState w)) eqn:Ep; [done|].
  rewrite startUpload_effects in Heff. apply app_inv_head in Heff.
  destruct (notificationChannel w); [|done].
  inversion Heff as [[Hloc Hch Hfrom Htext Hskip Hb]].
  exists rest, more. split_and!; [|done|done].
  f_equal. destruct cur. cbn in *. by subst.
Qed.

Lemma scheduler_skips_behind a b location w :
  queue_ok (qs (uploadState w)) → before a b (queued_at location w) →
  ¬ starts b location w (scheduler w).
Proof.
  intros (_ & _ & Hp) (l1 & l2 & l3 & Hbef) Hst.
  destruct (scheduler_starts_head _ _ _ Hst) as (rest & more & Hq & _).
  rewrite queued_at_entries_for, Hq in Hbef. cbn in Hbef.
  rewrite decide_True in Hbef by done.
  rewrite Hq in Hp. apply Forall_cons in Hp as [Hp _]. cbn in Hp.
  apply NoDup_fmap_1 in Hp. apply NoDup_cons in Hp as [Hb _]. apply Hb.
  destruct l1 as [|y l1]; cbn in Hbef; simplify_eq.
  - apply elem_of_app. right. by left.
  - apply elem_of_app. right. right. apply elem_of_app. right. by left.
Qed.

Lemma run_cons e evs w : run (e :: evs) w = run evs (step w e).
Proof. done. Qed.

(** ** Resume offers handled by the frame of the active transfer

    The notification callback closes over the frame that opened the channel.
    As long as that frame is the one of the request in flight the offer is
    treated as expected; the examples at the end of the file show what
    happens for the later entries of a queue. *)

Lemma oversized_offer_ignored (w : World) (h : nat) (fr : Frame.t) (u : ToUpload)
    (data : gmap string Z) (reported : Z) :
  notificationSource w = Some h → frames w !! h = Some fr →
  uploading (uploadState w) = Some u → Frame.toUpload fr = u →
  data !! path (file u) "" = Some reported → reported > size (file u) →
  step w (EvNotification "upload.resumable" data) = w.
Proof.
  intros Hs Hfr Hu Hsame Hd Hbig. cbn. rewrite Hs. unfold notification.
  rewrite Hu, decide_True by done. rewrite Hfr, Hd, Hsame. cbn.
  by rewrite decide_True by (right; done).
Qed.

Lemma startUpload_counters u loc r w :
  done (uploadState (startUpload u loc r w)) = done (uploadState w)
  ∧ doneByte (uploadState (startUpload u loc r w)) = doneByte (uploadState w)
  ∧ errors (uploadState (startUpload u loc r w)) = errors (uploadState w).
Proof. callbacks. cases. Qed.

Lemma resume_handoff (w : World) (o : Offer) (fr : Frame.t) (x : XHR) (c : nat) :
  closeLast w = Some o → uploading (uploadState w) = Some (o_uploading o) →
  frames w !! o_frame o = Some fr →
  req w = Some x → in_flight x = true → owner x = o_frame o → overrideStatus w = 0 →
  notificationChannel w = Some c →
  let w' := step w (EvAnswer true) in
  qs (uploadState w') = qs (uploadState w)
  ∧ done (uploadState w') = done (uploadState w)
  ∧ doneByte (uploadState w') = doneByte (uploadState w)
  ∧ errors (uploadState w') = errors (uploadState w)
  ∧ uploading (uploadState w') = Some (Frame.toUpload fr)
  ∧ effects w' =
    effects w ++ [Abort x;
                  Send (Frame.to fr) (Some c) (o_size o) (default "" (comment (Frame.toUpload fr)))
                    (skipExisting (uploadState w)) (Frame.toUpload fr) (o_size o)
                    (path (file (Frame.toUpload fr)) "")].
Proof.
  intros Hc Hu Hfr Hx Hf Hown Ho Hch. cbn. unfold answered.
  rewrite Hc. cbn. rewrite Hu.
  replace (same (o_uploading o) (o_uploading o)) with true
    by (unfold same; by rewrite Nat.eqb_refl).
  cbn. rewrite Hfr.
  assert (Hlt : (o_frame o < length (frames w))%nat) by (by eapply lookup_lt_Some).
  set (fr' := Frame.mk _ _ _ true _).
  set (w1 := set_frames _ _).
  assert (Hab : abortCurrentUpload w1
                = set_req (Some (mkXHR (owner x) 0 0))
                    (set_closeLast None
                       (emit (Abort x) (set_req (Some (mkXHR (owner x) 4 0)) w1)))).
  { unfold abortCurrentUpload. subst w1. cbn. rewrite Hx, Hf. cbn. f_equal.
    unfold Closure.onloadend. cbn. rewrite Ho.
    destruct (decide (4 ≠ 4)); [done|]. destruct (decide (0 ≠ 0)); [done|].
    rewrite decide_False by (by intros [? _]). cbn.
    rewrite Hown, list_lookup_insert_eq by done. done. }
  rewrite Hab. clear Hab.
  pose proof (startUpload_effects (Frame.toUpload fr) (Frame.to fr) (o_size o)
              (set_req (Some (mkXHR (owner x) 0 0))
                 (set_closeLast None
                    (emit (Abort x) (set_req (Some (mkXHR (owner x) 4 0)) w1))))) as Heff.
  destruct (startUpload_counters (Frame.toUpload fr) (Frame.to fr) (o_size o)
              (set_req (Some (mkXHR (owner x) 0 0))
                 (set_closeLast None
                    (emit (Abort x) (set_req (Some (mkXHR (owner x) 4 0)) w1)))))
    as (Hd & Hb & He).
  rewrite startUpload_qs, startUpload_uploading, Heff, Hd, Hb, He. subst w1. cbn.
  rewrite Hch. split_and!; try done.
  by rewrite <- app_assoc.
Qed.

(** ** Rejected files *)

Lemma rejection_alerts_app l1 l2 :
  rejection_alerts (l1 ++ l2) = rejection_alerts l1 ++ rejection_alerts l2.
Proof. unfold rejection_alerts. apply filter_app. Qed.

Lemma enqueue_rest_effects items loc w : effects (enqueue_rest items loc w) = effects w.
Proof. unfold enqueue_rest. cases. Qed.

Lemma remove_rejected_spec a items kept removed :
  remove_rejected a items = Some (kept, removed) →
  (∀ x, x ∈ kept → x ∈ items ∧ simulateBrowserAccept a (file x) = Some true)
  ∧ (∀ x, x ∈ items → simulateBrowserAccept a (file x) = Some false → x ∈ removed).
Proof.
  revert kept removed. induction items as [|y items IH]; intros kept removed; cbn.
  - intros [= <- <-]. split; intros x Hx; inversion Hx.
  - destruct (simulateBrowserAccept a (file y)) as [ok|] eqn:Ey; [|done].
    destruct (remove_rejected a items) as [[k r]|]; [|done].
    destruct (IH k r eq_refl) as [Hk Hr].
    destruct ok; intros [= <- <-]; split; intros x Hx.
    + apply elem_of_cons in Hx as [->|Hx]; [split; [by left|done]|].
      destruct (Hk x Hx). split; [by right|done].
    + intros Hrej. apply elem_of_cons in Hx as [->|Hx]; [congruence|]. by apply Hr.
    + destruct (Hk x Hx). split; [by right|done].
    + intros Hrej. apply elem_of_cons in Hx as [->|Hx]; [by left|]. right. by apply Hr.
Qed.

(** A file that fails the policy is taken out of the batch before the
    queue is touched; the batch gets one notice when something was taken
    out and none otherwise. *)
Lemma rejected_file_not_enqueued (w : World) (items : list ToUpload) (location : string)
    (x : ToUpload) :
  simulateBrowserAccept (accept w) (file x) = Some false →
  (∀ q, q ∈ qs (uploadState w) → x ∉ entries q) →
  (∀ q, q ∈ qs (uploadState (enqueue items location w)) → x ∉ entries q)
  ∧ (x ∈ items →
     (∀ y, y ∈ items → is_Some (simulateBrowserAccept (accept w) (file y))) →
     rejection_alerts (effects (enqueue items location w))
     = rejection_alerts (effects w) ++ [Alert MRejected]).
Proof.
  intros Hrej Hout. unfold enqueue.
  destruct (remove_rejected (accept w) items) as [[kept removed]|] eqn:Er.
  - destruct (remove_rejected_spec _ _ _ _ Er) as [Hk Hr]. split.
    + assert (Hx : x ∉ kept) by (intros Hx; destruct (Hk x Hx); congruence).
      set (w1 := match removed with [] => w | _ :: _ => emit (Alert MRejected) w end).
      assert (Hq1 : qs (uploadState w1) = qs (uploadState w)) by (subst w1; by destruct removed).
      unfold enqueue_rest.
      pose proof (uniqBy_from_spec (λ y, path (file y) "") kept []) as [_ Hsub].
      fold (uniqBy (λ y, path (file y) "") kept) in Hsub.
      destruct (uniqBy _ kept) as [|e t] eqn:Eu; [by rewrite Hq1|].
      rewrite Hq1.
      destruct (list_find _ _) as [[i q0]|] eqn:Ef; cbn; intros q Hq.
      * apply list_find_Some in Ef as (Hi & _ & _).
        apply list_elem_of_lookup in Hq as [j Hj].
        destruct (decide (i = j)) as [->|Hne].
        -- rewrite list_lookup_insert_eq in Hj by (by eapply lookup_lt_Some).
           simplify_eq. cbn. intros Hin. apply elem_of_app in Hin as [Hin|Hin].
           ++ eapply Hout; [|exact Hin]. by eapply list_elem_of_lookup_2.
           ++ apply list_elem_of_filter in Hin as [_ Hin].
              apply Hx. by apply (Hsub x).
        -- rewrite list_lookup_insert_ne in Hj by done.
           apply Hout. by eapply list_elem_of_lookup_2.
      * apply elem_of_app in Hq as [Hq|Hq]; [by apply Hout|].
        apply list_elem_of_singleton in Hq as ->. cbn. intros Hin.
        apply Hx. by apply (Hsub x).
    + intros Hin _. specialize (Hr x Hin Hrej).
      destruct removed as [|r removed]; [inversion Hr|].
      rewrite enqueue_rest_effects. cbn. by rewrite rejection_alerts_app.
  - split; [done|]. intros Hin Hall. exfalso.
    clear Hrej Hout Hin. induction items as [|y items IH]; [done|]. cbn in Er.
    destruct (Hall y) as [ok Hok]; [by left|]. rewrite Hok in Er.
    destruct (remove_rejected (accept w) items) as [[k r]|]; [done|].
    apply IH; [done|]. intros z Hz. apply Hall. by right.
Qed.

(** The example of the spec: under the policy [.png] a file named
    report.pdf is rejected, whatever the engine. *)
Lemma report_pdf_rejected (t : string) (n : Z) :
  simulateBrowserAccept (Some ".png") (mkFile "report.pdf" "" t n) = Some false.
Proof. done. Qed.

(** * Further properties of the upload engine *)

(** ** How a request ends *)

Lemma done_spec k w fr :
  frames w !! k = Some fr →
  done (uploadState (Closure.done k w)) = done (uploadState w) + 1
  ∧ doneByte (uploadState (Closure.done k w))
    = doneByte (uploadState w) + size (file (Frame.toUpload fr))
  ∧ errors (uploadState (Closure.done k w)) = errors (uploadState w)
  ∧ effects (Closure.done k w) = effects w.
Proof. intros Hfr. unfold Closure.done. rewrite Hfr. done. Qed.

(** The request of [w] has ended, its frame [k] is not handing over, and
    the reported status is 0 or the conflict status: nothing is counted. *)
Lemma completion_quiet k w x fr :
  req w = Some x → readyState x = 4 →
  frames w !! k = Some fr → Frame.resuming fr = false →
  reported_status w (status x) = 0 ∨ reported_status w (status x) = HTTP_CONFLICT →
  let w' := Closure.onloadend k w in
  done (uploadState w') = done (uploadState w)
  ∧ doneByte (uploadState w') = doneByte (uploadState w)
  ∧ errors (uploadState w') = errors (uploadState w)
  ∧ uploading (uploadState w') = None
  ∧ qs (uploadState w') = shift_queue (qs (uploadState w))
  ∧ ∃ l, effects w' = effects w ++ l ∧ failure_alerts l = [].
Proof.
  intros Hx Hr Hfr Hres Hs. cbn.
  rewrite (onloadend_ended k w x fr) by done. cbv zeta.
  rewrite decide_False by (intros [? ?]; destruct Hs; done).
  destruct (next_spec (set_closeLast None w)) as (? & ? & ? & ? & _ & ?).
  split_and!; try done. by rewrite next_qs.
Qed.

(** The same with a reported status other than 0 below 400: the entry of
    the frame is counted as done. *)
Lemma completion_done k w x fr :
  req w = Some x → readyState x = 4 →
  frames w !! k = Some fr → Frame.resuming fr = false →
  reported_status w (status x) ≠ 0 → reported_status w (status x) < 400 →
  let w' := Closure.onloadend k w in
  done (uploadState w') = done (uploadState w) + 1
  ∧ doneByte (uploadState w') = doneByte (uploadState w) + size (file (Frame.toUpload fr))
  ∧ errors (uploadState w') = errors (uploadState w)
  ∧ uploading (uploadState w') = None
  ∧ qs (uploadState w') = shift_queue (qs (uploadState w))
  ∧ ∃ l, effects w' = effects w ++ l ∧ failure_alerts l = [].
Proof.
  intros Hx Hr Hfr Hres Hs Hlt. cbn.
  rewrite (onloadend_ended k w x fr) by done. cbv zeta.
  rewrite decide_True by (split; [done|unfold HTTP_CONFLICT; lia]).
  rewrite decide_False by lia.
  destruct (done_spec k (set_closeLast None w) fr Hfr) as (Hd & Hb & He & Hf).
  destruct (next_spec (Closure.done k (set_closeLast None w))) as (Hd' & Hb' & He' & Hu & _ & l & Hl & Hn).
  split_and!; [by rewrite Hd', Hd|by rewrite Hb', Hb|by rewrite He', He|done
              |by rewrite next_qs, done_qs|].
  exists l. by rewrite Hl, Hf.
Qed.

(** The same with a reported status of 400 or more other than the conflict
    status: an error is counted. *)
Lemma completion_error k w x fr :
  req w = Some x → readyState x = 4 →
  frames w !! k = Some fr → Frame.resuming fr = false →
  reported_status w (status x) >= 400 → reported_status w (status x) ≠ HTTP_CONFLICT →
  let w' := Closure.onloadend k w in
  done (uploadState w') = done (uploadState w)
  ∧ doneByte (uploadState w') = doneByte (uploadState w)
  ∧ errors (uploadState w') = errors (uploadState w) + 1
  ∧ uploading (uploadState w') = None
  ∧ qs (uploadState w') = shift_queue (qs (uploadState w)).
Proof.
  intros Hx Hr Hfr Hres Hs Hne. cbn.
  rewrite (onloadend_ended k w x fr) by done. cbv zeta.
  rewrite decide_True by (split; [lia|done]). rewrite decide_True by done.
  destruct (error_counts k (reported_status w (status x)) (set_closeLast None w))
    as (He & Hd & Hb & _).
  destruct (next_spec (Closure.error k (reported_status w (status x)) (set_closeLast None w)))
    as (Hd' & Hb' & He' & Hu & _).
  split_and!; [by rewrite Hd', Hd|by rewrite Hb', Hb|by rewrite He', He|done
              |by rewrite next_qs, error_qs].
Qed.

(** ** One transfer at a time *)

Lemma not_in_flight_ended k s : in_flight (mkXHR k 4 s) = false.
Proof. done. Qed.

(** What [abortCurrentUpload] comes to when a request is in flight. *)
Lemma abortCurrentUpload_in_flight w x :
  req w = Some x → in_flight x = true →
  abortCurrentUpload w
  = set_req (Some (mkXHR (owner x) 0 0))
      (Closure.onloadend (owner x)
         (emit (Abort x) (set_req (Some (mkXHR (owner x) 4 0)) w))).
Proof. intros Hx Hf. unfold abortCurrentUpload. by rewrite Hx, Hf. Qed.

Lemma onloadend_clears k w x fr :
  req w = Some x → readyState x = 4 →
  frames w !! k = Some fr → Frame.resuming fr = false →
  uploading (uploadState (Closure.onloadend k w)) = None.
Proof.
  intros Hx Hr Hfr Hres. rewrite (onloadend_ended k w x fr) by done. cbv zeta.
  match goal with
  | |- context [Closure.next ?v] => by destruct (next_spec v) as (_ & _ & _ & Hu & _)
  end.
Qed.

Lemma deliver_progress_same l t w :
  req (deliver_progress l t w) = req w
  ∧ uploading (uploadState (deliver_progress l t w)) = uploading (uploadState w).
Proof. unfold deliver_progress, partial_changed, Closure.onprogress. cases. Qed.

Lemma delete_queue_clears w :
  sound w → awaiting w = None → uploading (uploadState (delete_queue w)) = None.
Proof.
  intros Hs Ha. unfold delete_queue.
  apply abortCurrentUpload_clears; [revert Hs; by apply sound_same|done].
Qed.

(** The call that waits for its subscription sends its entry once the
    event source is open. *)
Lemma subscribed_starts k fr w :
  awaiting w = Some k → frames w !! k = Some fr →
  starts (Frame.toUpload fr) (Frame.to fr) w (subscribed w)
  ∧ req (subscribed w) = Some (mkXHR k 1 0)
  ∧ uploadState (subscribed w) = uploadState w
  ∧ awaiting (subscribed w) = None.
Proof.
  intros Hk Hfr. unfold subscribed. rewrite Hk. cbn.
  set (w1 := if decide _ then _ else _).
  assert (H1 : frames w1 = frames w ∧ effects w1 = effects w
               ∧ uploadState w1 = uploadState w ∧ awaiting w1 = None)
    by (subst w1; by case_decide).
  destruct H1 as (Hf1 & He1 & Hu1 & Ha1). rewrite Hf1, Hfr.
  split_and!; [|done|done|done].
  unfold starts. rewrite startUpload_send_effects, He1. eauto 10.
Qed.

(** X1.  In every reachable state an entry is active exactly while its
    request is in flight or the [startUpload] call that is to send it
    waits for its subscription, never both; the request in flight, and the
    call that waits, are those of the active entry. *)
Theorem active_while_sent_or_set_up (w : World) :
  reachable w →
  (∀ u, uploading (uploadState w) = Some u →
        (∃ x fr, req w = Some x ∧ in_flight x = true ∧ awaiting w = None
                 ∧ frames w !! owner x = Some fr
                 ∧ Frame.toUpload fr = u ∧ Frame.resuming fr = false)
        ∨ (∃ k fr, awaiting w = Some k ∧ (∀ x, req w = Some x → in_flight x = false)
                   ∧ frames w !! k = Some fr ∧ Frame.toUpload fr = u))
  ∧ (∀ x, req w = Some x → in_flight x = true →
          ∃ fr, frames w !! owner x = Some fr
                ∧ uploading (uploadState w) = Some (Frame.toUpload fr))
  ∧ (∀ k, awaiting w = Some k →
          ∃ fr, frames w !! k = Some fr
                ∧ uploading (uploadState w) = Some (Frame.toUpload fr)).
Proof.
  intros Hr. pose proof (reachable_sound w Hr) as Hs.
  pose proof Hs as (Hro & Hse & _ & _ & Hao). split_and!.
  - intros u Hu. destruct (Hao u Hu) as [(x & Hx & Hf)|[k Hk]].
    + left. destruct (Hro x Hx Hf) as (fr & Hfr & Hres & Hup).
      exists x, fr. split_and!; try done; [by eapply sound_in_flight|congruence].
    + right. destruct (Hse k Hk) as ((fr & Hfr & _ & Hup) & Hno & _).
      exists k, fr. split_and!; try done. congruence.
  - intros x Hx Hf. destruct (Hro x Hx Hf) as (fr & Hfr & _ & Hup). eauto.
  - intros k Hk. destruct (Hse k Hk) as ((fr & Hfr & _ & Hup) & _). eauto.
Qed.

(** ** Outcomes of the active transfer *)

(** X2.  When the request of the active transfer ends with a reported
    status other than 0 and below 400, the entry is counted as done:
    [done] grows by one and [doneByte] by the size of the active file,
    [errors] stays, no entry is active any more and the queue has advanced
    by one entry.  Every such status counts, not only those from 200 to
    299. *)
Theorem success_counts_the_active_file (w : World) (x : XHR) (s : Z) :
  reachable w → req w = Some x → in_flight x = true →
  reported_status w s ≠ 0 → reported_status w s < 400 →
  ∃ u, uploading (uploadState w) = Some u
       ∧ let w' := step w (EvLoad s) in
         done (uploadState w') = done (uploadState w) + 1
         ∧ doneByte (uploadState w') = doneByte (uploadState w) + size (file u)
         ∧ errors (uploadState w') = errors (uploadState w)
         ∧ uploading (uploadState w') = None
         ∧ qs (uploadState w') = shift_queue (qs (uploadState w)).
Proof.
  intros Hr Hx Hf Hs Hlt.
  destruct (reachable_req_ok w Hr x Hx Hf) as (fr & Hfr & Hres & Hup).
  exists (Frame.toUpload fr). split; [done|]. cbn. unfold deliver_load. rewrite Hx, Hf.
  destruct (completion_done (owner x) (set_req (Some (mkXHR (owner x) 4 s)) w)
              (mkXHR (owner x) 4 s) fr) as (? & ? & ? & ? & ? & _); done.
Qed.

(** X3.  The delete action of the active entry, whatever destination the
    button belongs to.  While the request of the entry is in flight it is
    aborted: with no status override pending no counter changes, no entry
    is active afterwards, no request is in flight, and the queue has
    advanced by one entry.  While the transfer is still being set up there
    is no request to abort: the action changes nothing, the entry stays
    active and queued, and it is sent once the subscription is there. *)
Theorem deleting_the_active_entry (w : World) (u f : ToUpload) (idx : nat) :
  reachable w → uploading (uploadState w) = Some u → same f u = true →
  let w' := step w (EvDeleteEntry idx f) in
  (∀ x, req w = Some x → in_flight x = true → overrideStatus w = 0 →
        done (uploadState w') = done (uploadState w)
        ∧ doneByte (uploadState w') = doneByte (uploadState w)
        ∧ errors (uploadState w') = errors (uploadState w)
        ∧ uploading (uploadState w') = None
        ∧ qs (uploadState w') = shift_queue (qs (uploadState w))
        ∧ (∀ y, req w' = Some y → in_flight y = false)
        ∧ ∃ l, effects w' = effects w ++ Abort x :: l)
  ∧ (∀ k, awaiting w = Some k →
          uploadState w' = uploadState w ∧ effects w' = effects w
          ∧ awaiting w' = Some k
          ∧ ∃ location, starts u location w' (step w' EvSubscribed)).
Proof.
  intros Hr Hu Hsame. cbn. unfold delete_entry. rewrite Hu, Hsame.
  pose proof (reachable_sound w Hr) as Hs. split.
  - intros x Hx Hf Ho.
    destruct (reachable_req_ok w Hr x Hx Hf) as (fr & Hfr & Hres & _).
    rewrite (abortCurrentUpload_in_flight w x) by done. cbn.
    destruct (completion_quiet (owner x) (emit (Abort x) (set_req (Some (mkXHR (owner x) 4 0)) w))
                (mkXHR (owner x) 4 0) fr) as (? & ? & ? & ? & ? & l & Hl & _); try done.
    { left. unfold reported_status. cbn. rewrite Ho. done. }
    split_and!; try done.
    + intros y [= <-]. done.
    + exists l. rewrite Hl. cbn. by rewrite <- app_assoc.
  - intros k Hk. destruct Hs as (_ & Hse & _).
    destruct (Hse k Hk) as ((fr & Hfr & _ & Hup) & Hno & _).
    destruct (abortCurrentUpload_idle w Hno) as (Hst & Heff & _).
    destruct (abortCurrentUpload_kept w) as (Haw & _ & _ & Hfs).
    split_and!; [done|done|congruence|].
    exists (Frame.to fr).
    assert (Frame.toUpload fr = u) as <- by congruence.
    apply (subscribed_starts k); congruence.
Qed.

(** X4.  A status pushed for the active file that is 400 or more aborts
    the request at once, and the completion is reported with the pushed
    status: an error is counted unless the status is the conflict status,
    for which nothing is counted; either way the queue advances. *)
Theorem pushed_error_status_aborts (w : World) (h : nat) (u : ToUpload)
    (data : gmap string Z) (code : Z) :
  reachable w → notificationSource w = Some h →
  uploading (uploadState w) = Some u →
  data !! path (file u) "" = Some code → code >= 400 →
  let w' := step w (EvNotification "upload.status" data) in
  uploading (uploadState w') = None
  ∧ qs (uploadState w') = shift_queue (qs (uploadState w))
  ∧ done (uploadState w') = done (uploadState w)
  ∧ errors (uploadState w')
    = errors (uploadState w) + (if decide (code = HTTP_CONFLICT) then 0 else 1)
  ∧ (∀ y, req w' = Some y → in_flight y = false).
Proof.
  intros Hr Hs Hu Hd Hge. cbn. rewrite Hs. unfold notification.
  rewrite Hu, decide_False by done. rewrite decide_True by done. rewrite Hd. cbn.
  rewrite decide_True by done.
  destruct (sound_notified w h u (reachable_sound w Hr) Hs Hu) as (x & Hx & Hf).
  destruct (reachable_req_ok w Hr x Hx Hf) as (fr & Hfr & Hres & _).
  rewrite (abortCurrentUpload_in_flight _ x) by done. cbn.
  set (w1 := emit (Abort x) (set_req (Some (mkXHR (owner x) 4 0)) (set_overrideStatus code w))).
  assert (Hrs : reported_status w1 0 = code).
  { unfold reported_status. cbn. rewrite decide_True by lia. done. }
  destruct (decide (code = HTTP_CONFLICT)) as [Hc|Hc].
  - destruct (completion_quiet (owner x) w1 (mkXHR (owner x) 4 0) fr)
      as (? & ? & ? & ? & ? & _); try done.
    { right. cbn. congruence. }
    split_and!; try done. { cbn in *. lia. } intros y [= <-]. done.
  - destruct (completion_error (owner x) w1 (mkXHR (owner x) 4 0) fr)
      as (? & ? & ? & ? & ?); try done.
    { cbn. congruence. } { cbn. congruence. }
    split_and!; try done. intros y [= <-]. done.
Qed.

(** X5.  A pushed status below 400 other than 0 aborts nothing, and the
    completion of the request is then judged by it whatever status the
    transport reports: the entry is counted as done even when the response
    carries an error status. *)
Theorem pushed_success_status_overrides_the_response (w : World) (h : nat) (u : ToUpload)
    (data : gmap string Z) (code s : Z) :
  reachable w → notificationSource w = Some h →
  uploading (uploadState w) = Some u →
  data !! path (file u) "" = Some code → code ≠ 0 → code < 400 →
  let w1 := step w (EvNotification "upload.status" data) in
  let w' := step w1 (EvLoad s) in
  req w1 = req w ∧ effects w1 = effects w
  ∧ done (uploadState w') = done (uploadState w) + 1
  ∧ doneByte (uploadState w') = doneByte (uploadState w) + size (file u)
  ∧ errors (uploadState w') = errors (uploadState w).
Proof.
  intros Hr Hs Hu Hd Hne Hlt. cbn. rewrite Hs. unfold notification.
  rewrite Hu, decide_False by done. rewrite decide_True by done. rewrite Hd. cbn.
  rewrite decide_False by lia.
  destruct (sound_notified w h u (reachable_sound w Hr) Hs Hu) as (x & Hx & Hf).
  destruct (reachable_req_ok w Hr x Hx Hf) as (fr & Hfr & Hres & Hup).
  unfold deliver_load. cbn. rewrite Hx, Hf.
  destruct (completion_done (owner x)
              (set_req (Some (mkXHR (owner x) 4 s)) (set_overrideStatus code w))
              (mkXHR (owner x) 4 s) fr) as (? & Hb & ? & _); try done.
  { unfold reported_status. cbn. by rewrite decide_True by done. }
  { unfold reported_status. cbn. by rewrite decide_True by done. }
  split_and!; try done. rewrite Hb. cbn. congruence.
Qed.

(** X6.  The delete button of the whole queue leaves an empty queue and no
    request in flight.  Unless a transfer is being set up, no entry is
    active afterwards, and with no status override pending no counter
    changes.  While a transfer is being set up there is no request to
    abort: its entry stays active although the queue is empty, and it is
    sent once the subscription is there. *)
Theorem deleting_the_queue (w : World) :
  reachable w →
  let w' := step w EvDeleteQueue in
  qs (uploadState w') = []
  ∧ (∀ y, req w' = Some y → in_flight y = false)
  ∧ (awaiting w = None →
     uploading (uploadState w') = None
     ∧ (overrideStatus w = 0 →
        done (uploadState w') = done (uploadState w)
        ∧ doneByte (uploadState w') = doneByte (uploadState w)
        ∧ errors (uploadState w') = errors (uploadState w)))
  ∧ (∀ k, awaiting w = Some k →
          uploading (uploadState w') = uploading (uploadState w)
          ∧ effects w' = effects w ∧ awaiting w' = Some k
          ∧ ∃ u location, uploading (uploadState w) = Some u
                          ∧ starts u location w' (step w' EvSubscribed)).
Proof.
  intros Hr. cbn.
  pose proof (reachable_sound w Hr) as Hs. pose proof (reachable_req_ok w Hr) as Hro.
  split_and!.
  - apply delete_queue_qs.
  - apply abortCurrentUpload_ended.
  - intros Hna. split; [by apply delete_queue_clears|].
    intros Ho. unfold delete_queue, abortCurrentUpload. cbn.
    destruct (req w) as [x|] eqn:Ex; [|done].
    destruct (in_flight x) eqn:Ef; [|by case_decide]. cbn.
    destruct (Hro x Ex Ef) as (fr & Hfr & Hres & _).
    destruct (completion_quiet (owner x)
                (emit (Abort x) (set_req (Some (mkXHR (owner x) 4 0)) (upd (set_qs []) w)))
                (mkXHR (owner x) 4 0) fr) as (? & ? & ? & _); try done.
    left. unfold reported_status. cbn. by rewrite Ho.
  - intros k Hk. destruct Hs as (_ & Hse & _).
    destruct (Hse k Hk) as ((fr & Hfr & _ & Hup) & Hno & _).
    unfold delete_queue.
    destruct (abortCurrentUpload_idle (upd (set_qs []) w) Hno) as (Hst & Heff & _).
    destruct (abortCurrentUpload_kept (upd (set_qs []) w)) as (Haw & _ & _ & Hfs).
    split_and!; [by rewrite Hst|done|by rewrite Haw|].
    exists (Frame.toUpload fr), (Frame.to fr). split; [done|].
    apply (subscribed_starts k); [by rewrite Haw|by rewrite Hfs].
Qed.

(** ** The active entry and the head of the queue *)

Lemma head_ok_same w w' :
  qs (uploadState w') = qs (uploadState w) →
  uploading (uploadState w') = uploading (uploadState w) →
  awaiting w' = awaiting w → frames w' = frames w →
  head_ok w → head_ok w'.
Proof. unfold head_ok. intros -> -> -> ->. done. Qed.

Lemma head_ok_idle w : uploading (uploadState w) = None → head_ok w.
Proof. intros Hn u Hu. congruence. Qed.

Lemma enqueue_rest_head items location w u loc rest more :
  qs (uploadState w) = mkQ loc (u :: rest) :: more →
  ∃ rest' more', qs (uploadState (enqueue_rest items location w)) = mkQ loc (u :: rest') :: more'.
Proof.
  intros Hq. unfold enqueue_rest.
  destruct (uniqBy _ items) as [|e t]; [eauto|].
  destruct (list_find _ _) as [[i q]|] eqn:Ef; cbn.
  - apply list_find_Some in Ef as (Hi & _ & _). rewrite Hq in *.
    destruct i as [|i]; cbn in *; simplify_eq; cbn; eauto.
  - rewrite Hq. cbn. eauto.
Qed.

Lemma enqueue_rest_head_ok items location w : head_ok w → head_ok (enqueue_rest items location w).
Proof.
  intros Hok u Hu.
  destruct (enqueue_rest_same items location w) as (_ & Hfs & Hup & Haw & _).
  rewrite Hup in Hu. destruct (Hok u Hu) as (loc & rest & more & Hq & Hto).
  destruct (enqueue_rest_head items location w u loc rest more Hq) as (r & m & ->).
  exists loc, r, m. split; [done|]. by rewrite Hfs, Haw.
Qed.

Lemma enqueue_call_head_ok items location w : head_ok w → head_ok (enqueue_call items location w).
Proof.
  intros Hok. unfold enqueue_call.
  destruct (remove_rejected _ _) as [[kept [|??]]|]; [|by eapply head_ok_same|done].
  by apply enqueue_rest_head_ok.
Qed.

Lemma deliver_load_cases s w :
  req_ok w → deliver_load s w = w ∨ uploading (uploadState (deliver_load s w)) = None.
Proof.
  intros Hro. unfold deliver_load.
  destruct (req w) as [x|] eqn:Ex; [|by left].
  destruct (in_flight x) eqn:Ef; [|by left]. right.
  destruct (Hro x Ex Ef) as (fr & Hfr & Hres & _).
  by apply (onloadend_clears _ _ (mkXHR (owner x) 4 s) fr).
Qed.

Lemma deliver_error_cases w :
  req_ok w → deliver_error w = w ∨ uploading (uploadState (deliver_error w)) = None.
Proof.
  intros Hro. unfold deliver_error.
  destruct (req w) as [x|] eqn:Ex; [|by left].
  destruct (in_flight x) eqn:Ef; [|by left]. right.
  destruct (Hro x Ex Ef) as (fr & Hfr & Hres & _). unfold Closure.onerror.
  apply (onloadend_clears _ _ (mkXHR (owner x) 4 0) fr); [by rewrite error_req|done| |done].
  by destruct (error_counts (owner x) 0 (set_req (Some (mkXHR (owner x) 4 0)) w))
    as (_ & _ & _ & -> & _).
Qed.

Lemma same_sym a b : same a b = same b a.
Proof. unfold same. apply Nat.eqb_sym. Qed.

(** With a call waiting or nothing in flight, [abortCurrentUpload] leaves
    the head of the queue where it is; otherwise no entry is active
    afterwards. *)
Lemma abortCurrentUpload_head_ok w :
  sound w → head_ok w → head_ok (abortCurrentUpload w).
Proof.
  intros Hs Hok.
  destruct (awaiting w) as [k|] eqn:Ek.
  - destruct Hs as (_ & Hse & _). destruct (Hse k Ek) as (_ & Hno & _).
    destruct (abortCurrentUpload_idle w Hno) as (Hst & _).
    destruct (abortCurrentUpload_kept w) as (Haw & _ & _ & Hfs).
    revert Hok. apply head_ok_same; by rewrite ?Hst.
  - by apply head_ok_idle, abortCurrentUpload_clears.
Qed.

Lemma delete_entry_head_ok idx f w :
  sound w → head_ok w → head_ok (delete_entry idx f w).
Proof.
  intros Hs Hok. unfold delete_entry.
  destruct (uploading (uploadState w)) as [u|] eqn:Eu.
  - destruct (same f u) eqn:Es.
    + by apply abortCurrentUpload_head_ok.
    + destruct (Hok u Eu) as (loc & rest & more & Hq & Hto).
      destruct (qs (uploadState w) !! idx) as [q|] eqn:Ei; [|by intros v Hv; eauto].
      assert (Hkeep : ∀ es, pull (u :: es) f = u :: pull es f).
      { intros es. unfold pull. rewrite filter_cons, decide_True; [done|].
        by rewrite same_sym. }
      rewrite Hq in Ei. destruct idx as [|idx]; cbn in Ei; simplify_eq; cbn.
      * rewrite Hkeep. cbn. intros v Hv. cbn in Hv. rewrite Eu in Hv. simplify_eq.
        cbn. rewrite Hq. cbn. eauto.
      * destruct (pull (entries q) f); cbn; intros v Hv; cbn in Hv; rewrite Eu in Hv;
          simplify_eq; cbn; rewrite Hq; cbn; eauto.
  - destruct (qs (uploadState w) !! idx) as [q|]; [|done]. cbn.
    destruct (pull (entries q) f); by apply head_ok_idle.
Qed.

Lemma scheduler_head_ok w : sound w → head_ok w → head_ok (scheduler w).
Proof.
  intros Hs Hok. unfold scheduler.
  destruct (qs (uploadState w)) as [|cur more] eqn:Eq; [by eapply head_ok_same|].
  destruct (entries cur) as [|first rest] eqn:Ee; [by eapply head_ok_same|].
  destruct (uploading (uploadState w)) eqn:Eu; [done|].
  destruct (paused (uploadState w)); [done|].
  destruct (sound_idle w Hs Eu) as (_ & _ & Hna).
  intros u. rewrite startUpload_uploading, startUpload_qs. intros [= <-].
  exists (to cur), rest, more. rewrite Eq. split.
  { f_equal. destruct cur. cbn in *. by subst. }
  intros k fr. rewrite startUpload_frames.
  destruct (notificationChannel w) as [c|] eqn:Ec.
  - rewrite (startUpload_open _ _ _ _ c) by done. unfold startUpload_send. cbn. congruence.
  - rewrite startUpload_waits by done. cbn. intros [= <-].
    rewrite lookup_app_r, Nat.sub_diag by done. by intros [= <-].
Qed.

Lemma subscribed_head_ok w : head_ok w → head_ok (subscribed w).
Proof.
  intros Hok. unfold subscribed.
  destruct (awaiting w) as [k|] eqn:Ek; [|done]. cbn.
  set (w1 := if decide _ then _ else _).
  assert (H1 : frames w1 = frames w ∧ uploadState w1 = uploadState w ∧ awaiting w1 = None)
    by (subst w1; by case_decide).
  destruct H1 as (Hf1 & Hu1 & Ha1).
  assert (Hgoal : ∀ v, uploadState v = uploadState w → awaiting v = None → head_ok v).
  { intros v Hv Ha u Hu. rewrite Hv in Hu. destruct (Hok u Hu) as (loc & rest & more & Hq & _).
    exists loc, rest, more. rewrite Hv. split; [done|]. intros ? ?. by rewrite Ha. }
  destruct (frames w1 !! k); by apply Hgoal.
Qed.

Lemma deliver_progress_head_ok l t w : sound w → head_ok w → head_ok (deliver_progress l t w).
Proof.
  intros Hs Hok.
  destruct (deliver_progress_kept l t w) as (Hx & Hu & Haw & _).
  unfold deliver_progress in *. destruct (req w) as [x|] eqn:Ex; [|done].
  destruct (in_flight x) eqn:Ef; [|done].
  pose proof (sound_in_flight w x Hs Ex Ef) as Hna.
  intros u Hup. rewrite Hu in Hup. destruct (Hok u Hup) as (loc & rest & more & Hq & _).
  exists loc, rest, more. split.
  - pose proof (deliver_progress_qs l t w) as Hqs. unfold deliver_progress in Hqs.
    rewrite Ex, Ef in Hqs. by rewrite Hqs.
  - intros k fr. rewrite Haw, Hna. done.
Qed.

(** Every event but the acceptance of a resume offer, and the deletion of
    the queue while a transfer is being set up, keeps the active entry at
    the head of the queue. *)
Lemma step_head_ok w e :
  sound w → e ≠ EvAnswer true → (e = EvDeleteQueue → awaiting w = None) →
  head_ok w → head_ok (step w e).
Proof.
  intros Hs Hne Hdq Hok. pose proof Hs as (Hro & _). destruct e; cbn.
  - by eapply head_ok_same.
  - by eapply head_ok_same.
  - unfold pickFiles. destruct (remove_rejected _ _) as [[??]|]; by eapply head_ok_same.
  - by eapply head_ok_same.
  - unfold send_files, clear.
    eapply head_ok_same;
      [| | | |by apply (enqueue_call_head_ok (adding (uploadState w)) location)]; done.
  - by apply enqueue_call_head_ok.
  - by apply enqueue_rest_head_ok.
  - by apply scheduler_head_ok.
  - by apply deliver_progress_head_ok.
  - match goal with
    | |- head_ok (deliver_load ?s w) =>
        destruct (deliver_load_cases s w Hro) as [-> | ?]; [done|by apply head_ok_idle]
    end.
  - destruct (deliver_error_cases w Hro) as [-> | ?]; [done|by apply head_ok_idle].
  - destruct (notificationSource w) as [h|]; [|done]. unfold notification.
    destruct (uploading (uploadState w)) eqn:Eu; [|done].
    case_decide.
    + destruct (frames w !! h); [|done]. case_decide; [done|]. by eapply head_ok_same.
    + case_decide; [|done]. case_decide; [|by eapply head_ok_same].
      apply abortCurrentUpload_head_ok; [revert Hs; by apply sound_same|].
      by eapply head_ok_same.
  - destruct confirmed; [done|]. unfold answered.
    destruct (closeLast w); [|done]. by eapply head_ok_same.
  - by apply head_ok_idle, delete_queue_clears; [|apply Hdq].
  - unfold toggle_pause. cbn. destruct (everPaused w); by eapply head_ok_same.
  - by eapply head_ok_same.
  - by apply delete_entry_head_ok.
  - unfold showUpload, resetCounters.
    destruct (qs (uploadState w)) eqn:E; eapply head_ok_same; try done; cbn; by rewrite ?E.
  - unfold onClose. cbn. destruct (reloadOnClose w); by eapply head_ok_same.
  - destruct (concluded w); [done|]. by eapply head_ok_same.
  - by eapply head_ok_same.
  - by apply subscribed_head_ok.
Qed.

Lemma run_head_ok (evs : list Event) :
  Forall (λ e, e ≠ EvAnswer true) evs →
  (∀ k, evs !! k = Some EvDeleteQueue → awaiting (run (take k evs) world0) = None) →
  head_ok (run evs world0).
Proof.
  induction evs as [|e evs IH] using rev_ind; intros Hall Hdq; [by apply head_ok_idle|].
  apply Forall_app in Hall as [Hall He]. apply Forall_cons in He as [He _].
  rewrite run_snoc.
  assert (Hr : reachable (run evs world0)) by (by exists evs).
  apply step_head_ok; [by apply reachable_sound|exact He| |].
  - intros ->. specialize (Hdq (length evs)).
    rewrite take_app_length in Hdq. apply Hdq.
    by rewrite lookup_app_r, Nat.sub_diag.
  - apply IH; [done|]. intros k Hk.
    assert (Hlt : (k < length evs)%nat) by (by eapply lookup_lt_Some).
    specialize (Hdq k). rewrite take_app_le in Hdq by lia. apply Hdq.
    by rewrite lookup_app_l.
Qed.

(** X7.  In a run in which no resume offer is accepted and the queue is
    not deleted while a transfer is being set up, the active entry is
    always the first entry of the first destination of the queue, so a
    completion takes exactly the active entry out of the queue. *)
Theorem active_entry_heads_the_queue (evs : list Event) (u : ToUpload) :
  Forall (λ e, e ≠ EvAnswer true) evs →
  (∀ k, evs !! k = Some EvDeleteQueue → awaiting (run (take k evs) world0) = None) →
  uploading (uploadState (run evs world0)) = Some u →
  ∃ location rest more,
    qs (uploadState (run evs world0)) = mkQ location (u :: rest) :: more.
Proof.
  intros Hall Hdq Hu.
  destruct (run_head_ok evs Hall Hdq u Hu) as (loc & rest & more & Hq & _). eauto.
Qed.

(** ** The scheduler *)

(** X8.  The scheduler never starts a transfer to a destination that is
    not the first of the queue. *)
Theorem scheduler_serves_the_first_destination (w : World) (i : nat) (q : Q) (b : ToUpload) :
  reachable w → qs (uploadState w) !! S i = Some q →
  ¬ starts b (to q) w (step w EvChange).
Proof.
  intros Hr Hq Hst. cbn in Hst.
  destruct (scheduler_starts_head _ _ _ Hst) as (rest & more & Hqs & _).
  destruct (reachable_queue_ok w Hr) as (_ & Hnd & _).
  rewrite Hqs in Hq, Hnd. cbn in Hq. rewrite fmap_cons in Hnd.
  apply NoDup_cons in Hnd as [Hnd _]. apply Hnd. cbn.
  apply list_elem_of_fmap. exists q. split; [done|]. by eapply list_elem_of_lookup_2.
Qed.

(** X9.  Running the scheduler again changes nothing: however often
    [uploadState] reports a change, a transfer is started once. *)
Theorem scheduler_is_idempotent (w : World) : scheduler (scheduler w) = scheduler w.
Proof.
  unfold scheduler at 2 3.
  destruct (qs (uploadState w)) as [|cur more] eqn:Eq.
  - unfold scheduler. cbn. by rewrite Eq.
  - destruct (entries cur) as [|first rest] eqn:Ee.
    + unfold scheduler. cbn. by rewrite Eq, Ee.
    + destruct (uploading (uploadState w)) eqn:Eu.
      * unfold scheduler. by rewrite Eq, Ee, Eu.
      * destruct (paused (uploadState w)) eqn:Ep.
        -- unfold scheduler. by rewrite Eq, Ee, Eu, Ep.
        -- unfold scheduler. by rewrite startUpload_qs, Eq, Ee, startUpload_uploading.
Qed.

(** ** Pause *)

Lemma next_paused w : paused (uploadState (Closure.next w)) = paused (uploadState w).
Proof. unfold Closure.next. cases. Qed.

Lemma error_paused k s w : paused (uploadState (Closure.error k s w)) = paused (uploadState w).
Proof. callbacks. cases. Qed.

Lemma done_paused k w : paused (uploadState (Closure.done k w)) = paused (uploadState w).
Proof. callbacks. cases. Qed.

Lemma onloadend_paused k w :
  paused (uploadState (Closure.onloadend k w)) = paused (uploadState w).
Proof.
  unfold Closure.onloadend.
  destruct (req w) as [x|] eqn:Ex; [|done].
  destruct (decide (readyState x ≠ 4)); [done|].
  set (w1 := if decide _ then _ else _).
  assert (Hq : paused (uploadState w1) = paused (uploadState w)).
  { subst w1. repeat case_decide; rewrite ?error_paused, ?done_paused; done. }
  destruct (frames w1 !! k) as [fr|]; [|done].
  destruct (Frame.resuming fr); [done|]. by rewrite next_paused.
Qed.

(** X10.  Pause applies to the queue only.  The pause button leaves the
    request in flight and the active entry alone; when that request then
    ends while the queue is paused, the scheduler starts nothing and sends
    nothing; once the queue is unpaused it starts the entry that is first
    in the queue. *)
Theorem pause_holds_the_queue_not_the_transfer (w : World) (x : XHR) (s : Z) :
  reachable w → req w = Some x → in_flight x = true →
  let paused_w := step w EvTogglePause in
  let ended := step paused_w (EvLoad s) in
  let waiting := step ended EvChange in
  let resumed := step (step waiting EvTogglePause) EvChange in
  req paused_w = req w
  ∧ uploading (uploadState paused_w) = uploading (uploadState w)
  ∧ (paused (uploadState w) = false →
     uploading (uploadState waiting) = None
     ∧ effects waiting = effects ended
     ∧ ∀ location b rest more,
         qs (uploadState ended) = mkQ location (b :: rest) :: more →
         uploading (uploadState resumed) = Some b).
Proof.
  intros Hr Hx Hf. cbn.
  assert (Hreq : req (toggle_pause w) = req w)
    by (unfold toggle_pause; cbn; by destruct (everPaused w)).
  assert (Hup : uploading (uploadState (toggle_pause w)) = uploading (uploadState w))
    by (unfold toggle_pause; cbn; by destruct (everPaused w)).
  split_and!; [done|done|]. intros Hp.
  assert (Hpw : paused (uploadState (toggle_pause w)) = true)
    by (unfold toggle_pause; cbn; rewrite Hp; by destruct (everPaused w)).
  pose proof (reachable_step w EvTogglePause Hr) as Hr1. cbn in Hr1.
  set (w1 := toggle_pause w) in *.
  destruct (reachable_req_ok w1 Hr1 x) as (fr & Hfr & Hres & _); [by rewrite Hreq|done|].
  assert (Hended : uploading (uploadState (deliver_load s w1)) = None
                   ∧ paused (uploadState (deliver_load s w1)) = true).
  { unfold deliver_load. rewrite Hreq, Hx, Hf. split.
    - by apply (onloadend_clears _ _ (mkXHR (owner x) 4 s) fr).
    - by rewrite onloadend_paused. }
  destruct Hended as [Hu2 Hp2].
  set (w2 := deliver_load s w1) in *.
  assert (Hwait : uploading (uploadState (scheduler w2)) = None
                  ∧ effects (scheduler w2) = effects w2
                  ∧ qs (uploadState (scheduler w2)) = qs (uploadState w2)
                  ∧ paused (uploadState (scheduler w2)) = true).
  { unfold scheduler. rewrite Hu2, Hp2.
    destruct (qs (uploadState w2)) as [|cur ?] eqn:Eq; [by rewrite ?Eq|].
    destruct (entries cur); cbn; by rewrite ?Eq. }
  destruct Hwait as (Hu3 & He3 & Hq3 & Hp3).
  split_and!; [done|done|].
  intros loc b rest more Hq.
  set (w3 := scheduler w2) in *.
  assert (Htog : uploading (uploadState (toggle_pause w3)) = None
                 ∧ qs (uploadState (toggle_pause w3)) = qs (uploadState w3)
                 ∧ paused (uploadState (toggle_pause w3)) = false).
  { unfold toggle_pause. cbn. rewrite Hp3. by destruct (everPaused w3). }
  destruct Htog as (Hu4 & Hq4 & Hp4).
  unfold scheduler. rewrite Hq4, Hq3, Hq, Hu4, Hp4. cbn.
  by rewrite startUpload_uploading.
Qed.

(** ** Resume offers *)

Lemma deliver_progress_spec w x fr l t :
  req w = Some x → in_flight x = true → frames w !! owner x = Some fr →
  partial (uploadState (deliver_progress l t w)) = l + Frame.resume fr
  ∧ progress (uploadState (deliver_progress l t w))
    = mkFraction (l + Frame.resume fr) (t + Frame.resume fr)
  ∧ bytesSent (deliver_progress l t w) = bytesSent w + (l - Frame.lastProgress fr)
  ∧ closeLast (deliver_progress l t w)
    = match closeLast w with
      | Some o =>
          if decide (l + Frame.resume fr ≠ partial (uploadState w)
                     ∧ l + Frame.resume fr >= o_size o)
          then None else Some o
      | None => None
      end.
Proof.
  intros Hx Hf Hfr.
  unfold deliver_progress, partial_changed, Closure.onprogress.
  rewrite Hx, Hf, Hfr. cbn.
  destruct (closeLast w) as [o|] eqn:Ec; cbn; rewrite ?Ec; [|done].
  destruct (decide (l + Frame.resume fr ≠ partial (uploadState w)
                    ∧ l + Frame.resume fr >= o_size o)); cbn; rewrite ?Ec; done.
Qed.

(** X11.  While a resume confirmation for [size] bytes is open, a progress
    event that changes [partial] to [size] or more dismisses it, and an
    answer given afterwards has no effect at all; a progress event that
    stays below [size] leaves it open. *)
Theorem confirmation_dismissed_at_the_threshold (w : World) (o : Offer) (x : XHR)
    (fr : Frame.t) (loaded total : Z) :
  closeLast w = Some o → req w = Some x → in_flight x = true →
  frames w !! owner x = Some fr →
  let w' := step w (EvProgress loaded total) in
  (loaded + Frame.resume fr ≠ partial (uploadState w) →
   loaded + Frame.resume fr >= o_size o →
   closeLast w' = None ∧ ∀ confirmed, step w' (EvAnswer confirmed) = w')
  ∧ (loaded + Frame.resume fr < o_size o → closeLast w' = Some o).
Proof.
  intros Hc Hx Hf Hfr. cbn.
  destruct (deliver_progress_spec w x fr loaded total Hx Hf Hfr) as (_ & _ & _ & Hcl).
  rewrite Hc in Hcl. split.
  - intros Hne Hge. rewrite decide_True in Hcl by done.
    split; [done|]. intros c. unfold answered. by rewrite Hcl.
  - intros Hlt. by rewrite decide_False in Hcl by lia.
Qed.

Lemma startUpload_bytesSent u loc r w : bytesSent (startUpload u loc r w) = bytesSent w.
Proof. callbacks. cases. Qed.

(** The world after an accepted offer whose callback belongs to the frame of
    the request in flight. *)
Lemma resume_handoff_world (w : World) (o : Offer) (fr : Frame.t) (x : XHR) :
  closeLast w = Some o → uploading (uploadState w) = Some (o_uploading o) →
  frames w !! o_frame o = Some fr →
  req w = Some x → in_flight x = true → owner x = o_frame o → overrideStatus w = 0 →
  answered true w
  = startUpload (Frame.toUpload fr) (Frame.to fr) (o_size o)
      (set_req (Some (mkXHR (owner x) 0 0))
         (set_closeLast None
            (emit (Abort x)
               (set_req (Some (mkXHR (owner x) 4 0))
                  (set_frames
                     (<[o_frame o := Frame.mk (Frame.toUpload fr) (Frame.to fr)
                          (Frame.resume fr) true (Frame.lastProgress fr)]> (frames w))
                     (set_closeLast None w)))))).
Proof.
  intros Hc Hu Hfr Hx Hf Hown Ho. unfold answered.
  rewrite Hc. cbn. rewrite Hu.
  replace (same (o_uploading o) (o_uploading o)) with true
    by (unfold same; by rewrite Nat.eqb_refl).
  cbn. rewrite Hfr.
  assert (Hlt : (o_frame o < length (frames w))%nat) by (by eapply lookup_lt_Some).
  f_equal. unfold abortCurrentUpload. cbn. rewrite Hx, Hf. cbn. f_equal.
  unfold Closure.onloadend. cbn. rewrite Ho.
  destruct (decide (4 ≠ 4)); [done|]. destruct (decide (0 ≠ 0)); [done|].
  rewrite decide_False by (by intros [? _]). cbn.
  rewrite Hown, list_lookup_insert_eq by done. done.
Qed.

(** A call made while none is waiting has sent its request once the
    subscription is there, whether it had to wait for it or not. *)
Lemma started_once_subscribed u loc r v :
  awaiting v = None →
  let v' := subscribed (startUpload u loc r v) in
  req v' = Some (mkXHR (length (frames v)) 1 0)
  ∧ frames v' = frames v ++ [Frame.mk u loc r false 0]
  ∧ bytesSent v' = bytesSent v.
Proof.
  intros Ha. cbn.
  destruct (notificationChannel v) as [c|] eqn:Ec.
  - rewrite (startUpload_open _ _ _ _ c) by done.
    unfold subscribed, startUpload_send. cbn. by rewrite Ha.
  - rewrite startUpload_waits by done. unfold subscribed. cbn.
    rewrite decide_True by done. cbn.
    rewrite lookup_app_r, Nat.sub_diag by done. done.
Qed.

(** X12.  After a resume offer of [size] bytes is accepted for the transfer
    whose frame the callback belongs to, and once the new call has its
    subscription (at once when a channel is open), the first progress
    event of the new request publishes [partial = loaded + size] over
    [total + size], and the byte counter grows by [loaded] only: the bytes
    before the offset are neither sent nor counted again. *)
Theorem progress_continues_from_the_offset (w : World) (o : Offer) (fr : Frame.t) (x : XHR)
    (loaded total : Z) :
  closeLast w = Some o → uploading (uploadState w) = Some (o_uploading o) →
  frames w !! o_frame o = Some fr →
  req w = Some x → in_flight x = true → owner x = o_frame o → overrideStatus w = 0 →
  awaiting w = None →
  let w' := step (step (step w (EvAnswer true)) EvSubscribed) (EvProgress loaded total) in
  partial (uploadState w') = loaded + o_size o
  ∧ progress (uploadState w') = mkFraction (loaded + o_size o) (total + o_size o)
  ∧ bytesSent w' = bytesSent w + loaded.
Proof.
  intros Hc Hu Hfr Hx Hf Hown Ho Ha. cbn.
  rewrite (resume_handoff_world w o fr x) by done.
  set (v := set_req _ _).
  destruct (started_once_subscribed (Frame.toUpload fr) (Frame.to fr) (o_size o) v)
    as (Hreq & Hfs & Hbs); [done|].
  destruct (deliver_progress_spec
              (subscribed (startUpload (Frame.toUpload fr) (Frame.to fr) (o_size o) v))
              (mkXHR (length (frames v)) 1 0)
              (Frame.mk (Frame.toUpload fr) (Frame.to fr) (o_size o) false 0) loaded total)
    as (Hp & Hg & Hb & _).
  - exact Hreq.
  - done.
  - rewrite Hfs. cbn. by rewrite lookup_app_r, Nat.sub_diag.
  - cbn in *. rewrite Hp, Hg, Hb, Hbs. subst v. cbn.
    split_and!; [done|done|lia].
Qed.

(** ** More on [enqueue] *)

(** X13.  In every reachable state the queue has one [QueueEntry] per
    destination, and within a destination no two entries have the same
    relative path. *)
Theorem queue_has_no_duplicates (w : World) :
  reachable w →
  NoDup (to <$> qs (uploadState w))
  ∧ Forall (λ q, NoDup (paths (entries q))) (qs (uploadState w)).
Proof. intros Hr. by destruct (reachable_queue_ok w Hr) as (_ & ? & ?). Qed.

Lemma enqueue_rest_appends items location w loc :
  (∃ more, queued_at loc (enqueue_rest items location w) = queued_at loc w ++ more)
  ∧ (∃ d, to <$> qs (uploadState (enqueue_rest items location w))
          = (to <$> qs (uploadState w)) ++ d).
Proof.
  unfold enqueue_rest.
  destruct (uniqBy _ items) as [|e t] eqn:Eu.
  { split; [exists []|exists []]; by rewrite app_nil_r. }
  destruct (list_find _ (qs (uploadState w))) as [[i q]|] eqn:Ef.
  - pose proof Ef as Ef'. apply list_find_Some in Ef' as (Hi & Hto & Hmin). split.
    + destruct (decide (loc = location)) as [->|Hne].
      * set (q' := mkQ (to q) (entries q ++ differenceBy (e :: t) (entries q)
                                              (λ y, path (file y) ""))).
        assert (Hf' : list_find (λ q0, to q0 = location) (<[i := q']> (qs (uploadState w)))
                      = Some (i, q')).
        { apply list_find_insert_Some. right. left. split_and!; try done.
          by eapply lookup_lt_Some. }
        unfold queued_at. cbn. rewrite Hf', Ef. cbn. eauto.
      * exists []. rewrite app_nil_r, !queued_at_entries_for. cbn.
        apply (entries_for_insert_other _ _ _ q); [done|congruence|cbn; congruence].
    + exists []. cbn. by rewrite app_nil_r, to_insert_same.
  - split.
    + rewrite !queued_at_entries_for. cbn.
      destruct (decide (loc ∈ to <$> qs (uploadState w))) as [Hin|Hout].
      * exists []. by rewrite app_nil_r, entries_for_app_l.
      * rewrite (entries_for_absent loc (qs (uploadState w))) by done. cbn. eauto.
    + cbn. rewrite fmap_app. eauto.
Qed.

(** X14.  [enqueue] only appends: for every destination the entries queued
    before are still there, in the same order and ahead of what is added,
    and a destination that is new goes to the end of the queue. *)
Theorem enqueue_only_appends (w : World) (items : list ToUpload) (location loc : string) :
  (∃ more, queued_at loc (enqueue items location w) = queued_at loc w ++ more)
  ∧ (∃ d, to <$> qs (uploadState (enqueue items location w))
          = (to <$> qs (uploadState w)) ++ d).
Proof.
  unfold enqueue.
  destruct (remove_rejected (accept w) items) as [[kept removed]|].
  - destruct removed; [apply enqueue_rest_appends|].
    apply (enqueue_rest_appends kept location (emit (Alert MRejected) w) loc).
  - split; [exists []|exists []]; by rewrite app_nil_r.
Qed.

Lemma uniqBy_from_keys {A K} `{EqDecision K} (key : A → K) (l : list A) (seen : list K) (k : K) :
  k ∈ key <$> uniqBy_from key seen l ↔ k ∈ key <$> l ∧ k ∉ seen.
Proof.
  revert seen. induction l as [|x l IH]; intros seen; cbn.
  - split; [intros Hk; inversion Hk|intros [Hk _]; inversion Hk].
  - destruct (decide (key x ∈ seen)) as [Hin|Hout].
    + rewrite IH. split.
      * intros [Hk Hs]. split; [by right|done].
      * intros [Hk Hs]. split; [|done].
        apply elem_of_cons in Hk as [->|Hk]; [done|done].
    + rewrite fmap_cons, elem_of_cons, IH. split.
      * intros [->|[Hk Hs]]; [split; [by left|done]|].
        split; [by right|]. intros ?. apply Hs. by right.
      * intros [Hk Hs]. apply elem_of_cons in Hk as [->|Hk]; [by left|].
        destruct (decide (k = key x)) as [->|Hne]; [by left|].
        right. split; [done|]. intros Hk'. apply elem_of_cons in Hk' as [?|?]; done.
Qed.

Lemma remove_rejected_kept a items kept removed :
  remove_rejected a items = Some (kept, removed) →
  ∀ x, x ∈ kept ↔ x ∈ items ∧ simulateBrowserAccept a (file x) = Some true.
Proof.
  revert kept removed. induction items as [|y items IH]; intros kept removed; cbn.
  - intros [= <- <-] x. split; [intros Hx; inversion Hx|intros [Hx _]; inversion Hx].
  - destruct (simulateBrowserAccept a (file y)) as [ok|] eqn:Ey; [|done].
    destruct (remove_rejected a items) as [[k r]|]; [|done].
    specialize (IH k r eq_refl).
    destruct ok; intros [= <- <-] x.
    + rewrite !elem_of_cons, IH. split.
      * intros [->|[? ?]]; [split; [by left|done]|split; [by right|done]].
      * intros [[->|?] ?]; [by left|by right].
    + rewrite elem_of_cons, IH. split.
      * intros [? ?]. split; [by right|done].
      * intros [[->|?] ?]; [congruence|done].
Qed.

Lemma enqueue_rest_paths items location w p :
  p ∈ paths (queued_at location (enqueue_rest items location w))
  ↔ p ∈ paths (queued_at location w) ∨ p ∈ paths items.
Proof.
  unfold enqueue_rest.
  pose proof (uniqBy_from_keys (λ y, path (file y) "") items [] p) as Hk.
  fold (uniqBy (λ y, path (file y) "") items) in Hk. fold (paths items) in Hk.
  fold (paths (uniqBy (λ y, path (file y) "") items)) in Hk.
  destruct (uniqBy _ items) as [|e t] eqn:Eu.
  { split; [by left|]. intros [?|Hp]; [done|].
    assert (Hn : p ∈ paths []) by (apply Hk; split; [done|apply not_elem_of_nil]).
    inversion Hn. }
  destruct (list_find _ (qs (uploadState w))) as [[i q]|] eqn:Ef.
  - pose proof Ef as Ef'. apply list_find_Some in Ef' as (Hi & Hto & Hmin).
    set (q' := mkQ (to q) (entries q ++ differenceBy (e :: t) (entries q)
                                          (λ y, path (file y) ""))).
    assert (Hf' : list_find (λ q0, to q0 = location) (<[i := q']> (qs (uploadState w)))
                  = Some (i, q')).
    { apply list_find_insert_Some. right. left. split_and!; try done.
      by eapply lookup_lt_Some. }
    unfold queued_at. cbn. rewrite Hf', Ef. cbn.
    unfold paths at 1. rewrite fmap_app, elem_of_app. fold (paths (entries q)).
    split.
    + intros [?|Hp]; [by left|]. right. apply Hk.
      apply list_elem_of_fmap in Hp as (y & -> & Hy).
      apply list_elem_of_filter in Hy as [_ Hy].
      apply list_elem_of_fmap. by exists y.
    + intros [?|Hp]; [by left|].
      destruct (decide (p ∈ paths (entries q))) as [?|Hout]; [by left|]. right.
      assert (Hp' : p ∈ paths (e :: t)) by (apply Hk; split; [done|apply not_elem_of_nil]).
      apply list_elem_of_fmap in Hp' as (y & -> & Hy).
      apply list_elem_of_fmap. exists y. split; [done|].
      unfold differenceBy. apply list_elem_of_filter. by split.
  - unfold queued_at. cbn. rewrite list_find_app_r by done. rewrite Ef. cbn.
    rewrite decide_True by done. cbn. split.
    + intros Hp. right. by apply Hk.
    + intros [Hp|Hp]; [inversion Hp|]. apply Hk. split; [done|apply not_elem_of_nil].
Qed.

(** X15.  When the accept policy can be evaluated on the whole batch, the
    relative paths queued for the destination after [enqueue] are those
    queued before together with those of the accepted files of the batch,
    and nothing else. *)
Theorem enqueue_queues_the_accepted_paths (w : World) (items : list ToUpload)
    (location p : string) :
  (∀ x, x ∈ items → is_Some (simulateBrowserAccept (accept w) (file x))) →
  (p ∈ paths (queued_at location (enqueue items location w))
   ↔ p ∈ paths (queued_at location w)
     ∨ ∃ x, x ∈ items ∧ simulateBrowserAccept (accept w) (file x) = Some true
            ∧ path (file x) "" = p).
Proof.
  intros Hall. unfold enqueue.
  destruct (remove_rejected (accept w) items) as [[kept removed]|] eqn:Er.
  - pose proof (remove_rejected_kept _ _ _ _ Er) as Hk.
    assert (Hq : ∀ v, qs (uploadState v) = qs (uploadState w) →
                 (p ∈ paths (queued_at location (enqueue_rest kept location v))
                  ↔ p ∈ paths (queued_at location w) ∨ p ∈ paths kept)).
    { intros v Hv. rewrite enqueue_rest_paths. unfold queued_at. by rewrite Hv. }
    assert (Hp : p ∈ paths kept
                 ↔ ∃ x, x ∈ items ∧ simulateBrowserAccept (accept w) (file x) = Some true
                        ∧ path (file x) "" = p).
    { unfold paths. rewrite list_elem_of_fmap. split.
      - intros (x & -> & Hx). apply Hk in Hx as [? ?]. eauto.
      - intros (x & Hx & Ha & <-). exists x. split; [done|]. by apply Hk. }
    destruct removed; rewrite Hq, Hp; done.
  - exfalso. clear p. induction items as [|y items IH]; [done|]. cbn in Er.
    destruct (Hall y) as [ok Hok]; [by left|]. rewrite Hok in Er.
    destruct (remove_rejected (accept w) items) as [[k r]|]; [done|].
    apply IH; [|done]. intros z Hz. apply Hall. by right.
Qed.

(** X16.  A batch without an accepted file (an empty batch, a batch of
    rejected files, or one on which the policy cannot be evaluated) leaves
    [uploadState] as it was; in particular no destination without entries
    is created. *)
Theorem enqueue_without_accepted_file (w : World) (items : list ToUpload) (location : string) :
  (∀ x, x ∈ items → simulateBrowserAccept (accept w) (file x) ≠ Some true) →
  uploadState (enqueue items location w) = uploadState w.
Proof.
  intros Hnone. unfold enqueue.
  destruct (remove_rejected (accept w) items) as [[kept removed]|] eqn:Er; [|done].
  destruct (remove_rejected_spec _ _ _ _ Er) as [Hk _].
  destruct kept as [|x kept].
  - by destruct removed.
  - destruct (Hk x) as [Hx Ha]; [by left|]. by destruct (Hnone x Hx).
Qed.

(** ** The send button and the batch it shares with [enqueue] *)

(** X17.  The send button hands [uploadState.adding] itself to [enqueue]
    and empties it right after.  With a rejected file in it, [enqueue]
    stops at the rejection alert: the click shows the alert, leaves the
    queue as it was and empties [adding]; when the alert is closed the rest
    of [enqueue] finds the array empty and queues nothing, so the accepted
    files of that batch are not enqueued. *)
Theorem send_with_a_rejected_file_queues_nothing (w : World) (location : string)
    (kept removed : list ToUpload) (r : ToUpload) :
  remove_rejected (accept w) (adding (uploadState w)) = Some (kept, r :: removed) →
  let w' := step w (EvSend location) in
  adding (uploadState w') = []
  ∧ qs (uploadState w') = qs (uploadState w)
  ∧ effects w' = effects w ++ [Alert MRejected]
  ∧ ∀ location', step w' (EvEnqueueRest (adding (uploadState w')) location') = w'.
Proof.
  intros Hr. cbn. unfold send_files, enqueue_call, clear. rewrite Hr. cbn. done.
Qed.

(** ** Deleting entries that are not active *)

Lemma upd_qs_same w : upd (set_qs (qs (uploadState w))) w = w.
Proof. destruct w as [u]. by destruct u. Qed.

(** X18.  The delete action of an entry that is not active leaves the
    world as it was when the index it carries is past the end of the queue
    or names a destination that does not hold the entry. *)
Theorem deleting_with_a_stale_index_changes_nothing (w : World) (idx : nat) (f : ToUpload) :
  reachable w →
  (∀ u, uploading (uploadState w) = Some u → same f u = false) →
  (∀ q, qs (uploadState w) !! idx = Some q → ∀ x, x ∈ entries q → same x f = false) →
  step w (EvDeleteEntry idx f) = w.
Proof.
  intros Hr Hact Hq. cbn. unfold delete_entry.
  assert (Hno : match uploading (uploadState w) with
                | Some current => same f current
                | None => false
                end = false).
  { destruct (uploading (uploadState w)) as [u|]; [by apply Hact|done]. }
  rewrite Hno.
  destruct (qs (uploadState w) !! idx) as [q|] eqn:Ei; [|done].
  assert (Hpull : pull (entries q) f = entries q).
  { unfold pull. specialize (Hq q eq_refl).
    induction (entries q) as [|x l IH]; [done|].
    rewrite filter_cons_True by (apply Hq; by left).
    f_equal. apply IH. intros y Hy. apply Hq. by right. }
  cbn. rewrite Hpull.
  destruct (reachable_queue_ok w Hr) as (Hne & _ & _).
  rewrite Forall_forall in Hne.
  assert (Hq0 : entries q ≠ []) by (apply Hne; by eapply list_elem_of_lookup_2).
  destruct (entries q) as [|x l] eqn:Eq; [done|].
  replace (mkQ (to q) (x :: l)) with q by (destruct q; cbn in *; by subst).
  rewrite list_insert_id by done. apply upd_qs_same.
Qed.

(** ** The accept policy *)

(** X19.  A policy made of extensions only is decided on the file's name
    alone: the file is accepted exactly when its name ends with one of the
    extensions, the regular-expression engine is never asked and the test
    cannot throw. *)
Theorem extension_policy_needs_no_engine (a : string) (f : File) :
  a ≠ "" →
  Forall (λ p, startsWith p "." = true) (split_accept (normalizeAccept a)) →
  simulateBrowserAccept (Some a) f
  = Some (existsb (endsWith (name f)) (split_accept (normalizeAccept a))).
Proof.
  intros Ha Hall. unfold simulateBrowserAccept. rewrite decide_False by done.
  induction Hall as [|p l Hp Hl IH]; [done|].
  cbn. rewrite Hp. destruct (endsWith (name f) p); [done|]. exact IH.
Qed.

Lemma remove_spaces_cons c s :
  c ≠ " "%char → remove_spaces (String c s) = String c (remove_spaces s).
Proof. intros Hc. destruct c as [[] [] [] [] [] [] [] []]; done. Qed.

Lemma replace_pipes_cons c s :
  c ≠ "|"%char → replace_pipes (String c s) = String c (replace_pipes s).
Proof. intros Hc. destruct c as [[] [] [] [] [] [] [] []]; done. Qed.

Lemma replace_pipes_free s : free_of ["|"%char] (replace_pipes s) = true.
Proof.
  induction s as [|c s IH]; [done|].
  destruct (decide (c = "|"%char)) as [->|Hne]; [exact IH|].
  rewrite replace_pipes_cons by done. cbn [free_of existsb]. rewrite IH.
  destruct (Ascii.eqb_spec c "|"%char); done.
Qed.

Lemma remove_spaces_free s :
  free_of ["|"%char] s = true → free_of [" "%char; "|"%char] (remove_spaces s) = true.
Proof.
  induction s as [|c s IH]; [done|]. intros Hs.
  cbn [free_of existsb] in Hs. apply andb_true_iff in Hs as [Hc Hs].
  destruct (decide (c = " "%char)) as [->|Hsp]; [by apply IH|].
  rewrite remove_spaces_cons by done. cbn [free_of existsb]. rewrite IH by done.
  destruct (Ascii.eqb_spec c " "%char); [done|].
  rewrite orb_false_r in Hc. cbn. by rewrite orb_false_r, Hc.
Qed.

Lemma free_of_cons cs c s :
  free_of cs (String c s) = true → existsb (Ascii.eqb c) cs = false ∧ free_of cs s = true.
Proof. cbn [free_of]. intros [Hc Hs]%andb_true_iff. by apply negb_true_iff in Hc. Qed.

Lemma remove_spaces_id s : free_of [" "%char; "|"%char] s = true → remove_spaces s = s.
Proof.
  induction s as [|c s IH]; [done|]. intros [Hc Hs]%free_of_cons.
  cbn in Hc. apply orb_false_iff in Hc as [Hsp _]. apply Ascii.eqb_neq in Hsp.
  rewrite remove_spaces_cons by done. by rewrite IH.
Qed.

Lemma replace_pipes_id s : free_of [" "%char; "|"%char] s = true → replace_pipes s = s.
Proof.
  induction s as [|c s IH]; [done|]. intros [Hc Hs]%free_of_cons.
  cbn in Hc. apply orb_false_iff in Hc as [_ Hp]. rewrite orb_false_r in Hp.
  apply Ascii.eqb_neq in Hp.
  rewrite replace_pipes_cons by done. by rewrite IH.
Qed.

Lemma append_cons d s t : String d s +:+ t = String d (s +:+ t).
Proof. reflexivity. Qed.

Lemma string_of_rev_cons c tok :
  string_of_list_ascii (rev (c :: tok)) = string_of_list_ascii (rev tok) +:+ String c "".
Proof.
  cbn [rev]. induction (rev tok) as [|d l IH]; [done|].
  cbn [app string_of_list_ascii]. by rewrite append_cons, IH.
Qed.

Lemma append_cons_assoc s c t : (s +:+ String c "") +:+ t = s +:+ String c t.
Proof. induction s as [|d s IH]; [done|]. by rewrite !append_cons, IH. Qed.

Lemma append_empty s : s +:+ "" = s.
Proof. induction s as [|d s IH]; [done|]. by rewrite append_cons, IH. Qed.

Lemma free_of_append cs s t :
  free_of cs (s +:+ t) = free_of cs s && free_of cs t.
Proof.
  induction s as [|c s IH]; [done|]. rewrite append_cons. cbn [free_of].
  by rewrite IH, andb_assoc.
Qed.

Lemma split_go_not_nil after tok sp s : split_go after tok sp s ≠ [].
Proof.
  revert after tok sp. induction s as [|c s IH]; intros after tok sp; cbn; [done|].
  destruct (Ascii.eqb c " "); [destruct after; apply IH|].
  destruct (_ || _); [done|apply IH].
Qed.

Lemma concat_cons sep x l :
  l ≠ [] → String.concat sep (x :: l) = x +:+ sep +:+ String.concat sep l.
Proof. by destruct l. Qed.

Lemma split_go_plain s : free_of [" "%char; "|"%char] s = true →
  ∀ after tok,
    String.concat "," (split_go after tok [] s) = string_of_list_ascii (rev tok) +:+ s
    ∧ (free_of [" "%char; "|"%char; ","%char] (string_of_list_ascii (rev tok)) = true →
       Forall (λ p, free_of [" "%char; "|"%char; ","%char] p = true)
              (split_go after tok [] s)).
Proof.
  induction s as [|c s IH]; intros Hs after tok.
  { cbn [split_go app]. split.
    - cbn [String.concat]. by rewrite append_empty.
    - intros Ht. by constructor. }
  apply free_of_cons in Hs as [Hc Hs]. cbn in Hc.
  apply orb_false_iff in Hc as [Hsp Hp]. rewrite orb_false_r in Hp.
  cbn [split_go app]. rewrite Hsp, Hp. cbn [orb].
  destruct (Ascii.eqb_spec c ","%char) as [->|Hcm].
  - destruct (IH Hs true []) as [Hcat Hall]. split.
    + rewrite concat_cons by apply split_go_not_nil. by rewrite Hcat.
    + intros Ht. constructor; [done|]. by apply Hall.
  - destruct (IH Hs false (c :: tok)) as [Hcat Hall]. split.
    + rewrite Hcat, string_of_rev_cons. apply append_cons_assoc.
    + intros Ht. apply Hall. rewrite string_of_rev_cons, free_of_append, Ht.
      cbn. rewrite Hsp, Hp. by destruct (Ascii.eqb_spec c ","%char).
Qed.

(** X20.  [normalizeAccept] leaves neither a space nor a [|] in the
    policy, so it changes nothing when applied again, and the pieces the
    policy is then split into are those between its commas: they hold no
    separator, and joined by commas they give the normalised policy
    back. *)
Theorem normalized_policy_splits_at_commas (a : string) :
  free_of [" "%char; "|"%char] (normalizeAccept a) = true
  ∧ normalizeAccept (normalizeAccept a) = normalizeAccept a
  ∧ String.concat "," (split_accept (normalizeAccept a)) = normalizeAccept a
  ∧ Forall (λ p, free_of [" "%char; "|"%char; ","%char] p = true)
           (split_accept (normalizeAccept a)).
Proof.
  assert (Hfree : free_of [" "%char; "|"%char] (normalizeAccept a) = true).
  { unfold normalizeAccept. apply remove_spaces_free, replace_pipes_free. }
  destruct (split_go_plain _ Hfree false []) as [Hcat Hall].
  split_and!; [done| |exact Hcat|by apply Hall].
  unfold normalizeAccept at 1. fold (normalizeAccept a).
  by rewrite replace_pipes_id, remove_spaces_id.
Qed.

(** ** The end of the queue *)

Lemma next_drains w q u :
  qs (uploadState w) = [q] → entries q = [u] →
  qs (uploadState (Closure.next w)) = []
  ∧ reloadOnClose (Closure.next w) = false
  ∧ effects (Closure.next w)
    = effects w ++ ReloadListLater :: (if uploadDialogIsOpen w then [] else [Alert MConcluded])
  ∧ concluded (Closure.next w)
    = (if uploadDialogIsOpen w then concluded w else S (concluded w)).
Proof.
  intros Hq He. unfold Closure.next. cbn. rewrite Hq, He. cbn.
  destruct (uploadDialogIsOpen w); cbn; split_and!; try done.
  by rewrite <- app_assoc.
Qed.

Lemma error_keeps k s w :
  uploadDialogIsOpen (Closure.error k s w) = uploadDialogIsOpen w
  ∧ concluded (Closure.error k s w) = concluded w
  ∧ ∃ l, effects (Closure.error k s w) = effects w ++ l
         ∧ Forall (λ e, is_failure_alert e = true) l.
Proof.
  unfold Closure.error. cbn.
  destruct (decide (errors (uploadState w) ≠ 0)); cbn.
  { split_and!; try done. exists []. by rewrite app_nil_r. }
  destruct (frames w !! k) as [fr|]; cbn.
  - split_and!; try done. eexists [_]. split; [done|]. by constructor.
  - split_and!; try done. exists []. by rewrite app_nil_r.
Qed.

Lemma done_keeps k w :
  uploadDialogIsOpen (Closure.done k w) = uploadDialogIsOpen w
  ∧ concluded (Closure.done k w) = concluded w
  ∧ effects (Closure.done k w) = effects w.
Proof. unfold Closure.done. by destruct (frames w !! k). Qed.

(** X21.  When the request of the only entry left in the queue ends, with
    whatever status, the queue is empty and nothing is active; the list is
    reloaded shortly after, so [reloadOnClose] is withdrawn and closing the
    dialog later does not reload it again; the summary of the batch is
    shown only when the upload dialog is closed, and the counters are reset
    when that summary is closed.  The scheduler then closes the
    notification channel, so that the next batch opens a new one. *)
Theorem last_entry_concludes_the_queue (w : World) (x : XHR) (s : Z) (q : Q) (u : ToUpload) :
  reachable w → req w = Some x → in_flight x = true →
  qs (uploadState w) = [q] → entries q = [u] →
  let ended := step w (EvLoad s) in
  let idle := step ended EvChange in
  qs (uploadState ended) = []
  ∧ uploading (uploadState ended) = None
  ∧ reloadOnClose ended = false
  ∧ (∃ l, effects ended
          = effects w ++ l ++ ReloadListLater
              :: (if uploadDialogIsOpen w then [] else [Alert MConcluded])
          ∧ Forall (λ e, is_failure_alert e = true) l)
  ∧ concluded ended = (if uploadDialogIsOpen w then concluded w else S (concluded w))
  ∧ notificationChannel idle = None
  ∧ notificationSource idle = None
  ∧ effects idle = effects ended
  ∧ effects (step idle EvCloseUpload) = effects idle
  ∧ (uploadDialogIsOpen w = false →
     let closed := step idle EvConcludedClosed in
     done (uploadState closed) = 0 ∧ doneByte (uploadState closed) = 0
     ∧ errors (uploadState closed) = 0).
Proof.
  intros Hr Hx Hf Hq He.
  destruct (reachable_req_ok w Hr x Hx Hf) as (fr & Hfr & Hres & _).
  cbn. unfold deliver_load. rewrite Hx, Hf.
  rewrite (onloadend_ended _ _ (mkXHR (owner x) 4 s) fr) by done. cbv zeta.
  set (w0 := set_req (Some (mkXHR (owner x) 4 s)) w).
  set (st := reported_status w0 (status (mkXHR (owner x) 4 s))).
  set (w1 := if decide (st ≠ 0 ∧ st ≠ HTTP_CONFLICT) then _ else _).
  assert (H1 : qs (uploadState w1) = [q]
               ∧ uploadDialogIsOpen w1 = uploadDialogIsOpen w
               ∧ concluded w1 = concluded w
               ∧ ∃ l, effects w1 = effects w ++ l
                      ∧ Forall (λ e, is_failure_alert e = true) l).
  { subst w1. destruct (decide (st ≠ 0 ∧ st ≠ HTTP_CONFLICT)).
    - destruct (decide (st >= 400)).
      + rewrite error_qs.
        destruct (error_keeps (owner x) st (set_closeLast None w0)) as (-> & -> & l & -> & Hl).
        split_and!; try done. by exists l.
      + rewrite done_qs.
        destruct (done_keeps (owner x) (set_closeLast None w0)) as (-> & -> & ->).
        split_and!; try done. exists []. by rewrite app_nil_r.
    - split_and!; try done. exists []. by rewrite app_nil_r. }
  destruct H1 as (Hq1 & Ho1 & Hc1 & l & Hl1 & Hfail).
  destruct (next_drains w1 q u Hq1 He) as (Hq2 & Hre2 & He2 & Hc2).
  destruct (next_spec w1) as (_ & _ & _ & Hu2 & _).
  set (w2 := Closure.next w1) in *.
  assert (Hs : scheduler w2 = set_notificationSource None (set_notificationChannel None w2)).
  { unfold scheduler. by rewrite Hq2. }
  rewrite Hs. cbn.
  split_and!; try done.
  - exists l. split; [|done]. rewrite He2, Hl1, Ho1. by rewrite <- app_assoc.
  - by rewrite Hc2, Ho1, Hc1.
  - unfold onClose. cbn. by rewrite Hre2.
  - intros Hclosed. rewrite Hc2, Ho1, Hclosed. done.
Qed.

(** ** Picked files *)

Lemma remove_rejected_total a items :
  (∀ x, x ∈ items → is_Some (simulateBrowserAccept a (file x))) →
  ∃ kept removed, remove_rejected a items = Some (kept, removed).
Proof.
  induction items as [|y items IH]; intros Hall; [by exists [], []|].
  cbn. destruct (Hall y) as [ok ->]; [by left|].
  destruct IH as (k & r & ->); [intros z Hz; apply Hall; by right|].
  destruct ok; eauto.
Qed.

Lemma remove_rejected_accepted a items :
  (∀ x, x ∈ items → simulateBrowserAccept a (file x) = Some true) →
  remove_rejected a items = Some (items, []).
Proof.
  induction items as [|y items IH]; intros Hall; [done|].
  cbn. rewrite (Hall y) by (by left). rewrite IH; [done|].
  intros z Hz. apply Hall. by right.
Qed.

(** X22.  The file picker keeps the accepted files only, so a batch made
    of picked files is sent without a rejection notice: the send button
    empties [adding], shows nothing, and every file of the batch has its
    path queued for the destination. *)
Theorem picked_files_are_sent_without_rejection (w : World) (list : list ToUpload)
    (location : string) :
  (∀ x, x ∈ adding (uploadState w) → simulateBrowserAccept (accept w) (file x) = Some true) →
  (∀ x, x ∈ list → is_Some (simulateBrowserAccept (accept w) (file x))) →
  let picked := step w (EvPick list) in
  let sent := step picked (EvSend location) in
  (∀ x, x ∈ adding (uploadState picked)
        ↔ x ∈ adding (uploadState w)
          ∨ (x ∈ list ∧ simulateBrowserAccept (accept w) (file x) = Some true))
  ∧ effects sent = effects w
  ∧ adding (uploadState sent) = []
  ∧ ∀ x, x ∈ adding (uploadState picked) →
         path (file x) "" ∈ paths (queued_at location sent).
Proof.
  intros Hadd Hall.
  destruct (remove_rejected_total _ _ Hall) as (kept & removed & Hrr).
  pose proof (remove_rejected_kept _ _ _ _ Hrr) as Hk.
  cbn. unfold pickFiles. rewrite Hrr.
  set (w1 := upd (set_adding (adding (uploadState w) ++ kept)) w).
  assert (Hmem : ∀ x, x ∈ adding (uploadState w1)
                      ↔ x ∈ adding (uploadState w)
                        ∨ (x ∈ list ∧ simulateBrowserAccept (accept w) (file x) = Some true)).
  { intros x. subst w1. cbn. by rewrite elem_of_app, Hk. }
  assert (Hacc : remove_rejected (accept w1) (adding (uploadState w1))
                 = Some (adding (uploadState w1), [])).
  { apply remove_rejected_accepted. intros x Hx. apply Hmem in Hx as [Hx|[_ Hx]]; [|done].
    by apply Hadd. }
  unfold send_files, enqueue_call. rewrite Hacc.
  split_and!; [done|by rewrite enqueue_rest_effects|done|].
  intros x Hx.
  assert (Hqa : ∀ v, queued_at location (clear v) = queued_at location v) by done.
  rewrite Hqa. apply enqueue_rest_paths. right.
  apply list_elem_of_fmap. by exists x.
Qed.

(** ** The pause hint *)

Lemma same_hints_refl w : same_hints w w.
Proof. done. Qed.

Lemma same_hints_trans w1 w2 w3 : same_hints w1 w2 → same_hints w2 w3 → same_hints w1 w3.
Proof. intros [? ?] [? ?]. split; congruence. Qed.

Lemma same_hints_emit e w : is_pause_hint e = false → same_hints w (emit e w).
Proof.
  intros He. split; [done|]. cbn. unfold pause_hints. rewrite filter_app.
  rewrite filter_cons_False by (by rewrite He). by rewrite app_nil_r.
Qed.

Lemma same_hints_fields w w' :
  everPaused w' = everPaused w → effects w' = effects w → same_hints w w'.
Proof. intros ? He. split; [done|]. by rewrite He. Qed.

Lemma error_hints k s w : same_hints w (Closure.error k s w).
Proof.
  unfold Closure.error. cbn. case_decide; [done|].
  destruct (frames w !! k); [|done].
  eapply same_hints_trans; [|by apply same_hints_emit]. done.
Qed.

Lemma done_hints k w : same_hints w (Closure.done k w).
Proof. unfold Closure.done. by destruct (frames w !! k). Qed.

Lemma next_hints w : same_hints w (Closure.next w).
Proof.
  unfold Closure.next. cbn. destruct (qs (uploadState w)) as [|q0 rest]; [done|]. cbn.
  set (qs' := match tail (entries q0) with [] => rest | _ :: _ => _ end).
  destruct qs'; [|done].
  set (w1 := emit ReloadListLater _).
  assert (H1 : same_hints w w1).
  { eapply same_hints_trans; [|by apply same_hints_emit]. done. }
  destruct (uploadDialogIsOpen _); [exact H1|].
  eapply same_hints_trans; [exact H1|].
  eapply same_hints_trans; [by apply (same_hints_emit (Alert MConcluded))|]. done.
Qed.

Lemma onloadend_hints k w : same_hints w (Closure.onloadend k w).
Proof.
  unfold Closure.onloadend. destruct (req w) as [x|]; [|done].
  case_decide; [done|].
  set (st := if decide (overrideStatus w ≠ 0) then _ else _).
  set (w1 := if decide (st ≠ 0 ∧ st ≠ HTTP_CONFLICT) then _ else _).
  assert (H1 : same_hints w w1).
  { subst w1. repeat case_decide.
    - eapply same_hints_trans; [|apply error_hints]. done.
    - eapply same_hints_trans; [|apply done_hints]. done.
    - done. }
  destruct (frames w1 !! k) as [fr|]; [|done].
  destruct (Frame.resuming fr); [done|].
  eapply same_hints_trans; [exact H1|apply next_hints].
Qed.

Lemma abortCurrentUpload_hints w : same_hints w (abortCurrentUpload w).
Proof.
  unfold abortCurrentUpload. destruct (req w) as [x|]; [|done].
  destruct (in_flight x); [|by case_decide].
  set (w1 := emit _ _).
  assert (H1 : same_hints w w1).
  { eapply same_hints_trans; [|by apply same_hints_emit]. done. }
  eapply same_hints_trans; [exact H1|].
  eapply same_hints_trans; [apply onloadend_hints|]. done.
Qed.

Lemma startUpload_hints u loc r w : same_hints w (startUpload u loc r w).
Proof.
  destruct (notificationChannel w) as [c|] eqn:Ec.
  - rewrite (startUpload_open _ _ _ _ c) by done. unfold startUpload_send.
    eapply same_hints_trans; [|by apply same_hints_emit]. done.
  - by rewrite startUpload_waits.
Qed.

Lemma subscribed_hints w : same_hints w (subscribed w).
Proof.
  unfold subscribed. destruct (awaiting w) as [k|]; [|done]. cbn.
  set (w1 := if decide _ then _ else _).
  assert (H1 : same_hints w w1) by (subst w1; by case_decide).
  destruct (frames w1 !! k) as [fr|]; [|done]. unfold startUpload_send.
  eapply same_hints_trans; [exact H1|].
  eapply same_hints_trans; [|by apply same_hints_emit]. done.
Qed.

Lemma scheduler_hints w : same_hints w (scheduler w).
Proof.
  unfold scheduler. destruct (qs (uploadState w)) as [|cur ?]; [done|].
  destruct (entries cur); [done|].
  destruct (uploading (uploadState w)); [done|].
  destruct (paused (uploadState w)); [done|apply startUpload_hints].
Qed.

Lemma notification_hints h name data w : same_hints w (notification h name data w).
Proof.
  unfold notification. destruct (uploading (uploadState w)) as [u|]; [|done].
  case_decide.
  - destruct (frames w !! h) as [fr|]; [|done]. case_decide; [done|].
    eapply same_hints_trans; [|by apply same_hints_fields].
    eapply same_hints_trans; [|by apply same_hints_emit]. done.
  - case_decide; [|done]. cbn. case_decide; [|done].
    eapply same_hints_trans; [|apply abortCurrentUpload_hints]. done.
Qed.

Lemma answered_hints c w : same_hints w (answered c w).
Proof.
  unfold answered. destruct (closeLast w) as [o|]; [|done].
  destruct (negb c); [done|]. cbn.
  destruct (uploading (uploadState w)) as [cur|]; [|done].
  destruct (negb _); [done|].
  destruct (frames w !! o_frame o) as [fr|]; [|done].
  eapply same_hints_trans; [|apply startUpload_hints].
  eapply same_hints_trans; [|apply abortCurrentUpload_hints]. done.
Qed.

Lemma enqueue_rest_hints items loc w : same_hints w (enqueue_rest items loc w).
Proof.
  apply same_hints_fields; [|apply enqueue_rest_effects].
  unfold enqueue_rest. cases.
Qed.

Lemma enqueue_call_hints items loc w : same_hints w (enqueue_call items loc w).
Proof.
  unfold enqueue_call. destruct (remove_rejected _ _) as [[kept [|r removed]]|]; [| |done].
  - apply enqueue_rest_hints.
  - by apply same_hints_emit.
Qed.

Lemma delete_entry_hints idx f w : same_hints w (delete_entry idx f w).
Proof.
  unfold delete_entry. destruct (match uploading _ with Some _ => _ | None => _ end).
  - apply abortCurrentUpload_hints.
  - destruct (qs (uploadState w) !! idx) as [q|]; [|done]. cbn. by destruct (pull _ _).
Qed.

Lemma step_hints w e : e ≠ EvTogglePause → same_hints w (step w e).
Proof.
  intros He. destruct e; cbn; try done.
  - unfold pickFiles. by destruct (remove_rejected _ _) as [[??]|].
  - unfold send_files. eapply same_hints_trans; [apply enqueue_call_hints|done].
  - apply enqueue_call_hints.
  - apply enqueue_rest_hints.
  - apply scheduler_hints.
  - unfold deliver_progress. destruct (req w) as [x|]; [|done].
    destruct (in_flight x); [|done].
    apply same_hints_fields.
    + unfold partial_changed, Closure.onprogress. cases.
    + unfold partial_changed, Closure.onprogress. cases.
  - unfold deliver_load. destruct (req w) as [x|]; [|done].
    destruct (in_flight x); [|done].
    eapply same_hints_trans; [|apply onloadend_hints]. done.
  - unfold deliver_error. destruct (req w) as [x|]; [|done].
    destruct (in_flight x); [|done].
    eapply same_hints_trans; [|apply onloadend_hints].
    eapply same_hints_trans; [|apply error_hints]. done.
  - destruct (notificationSource w); [apply notification_hints|done].
  - apply answered_hints.
  - unfold delete_queue. eapply same_hints_trans; [|apply abortCurrentUpload_hints]. done.
  - apply delete_entry_hints.
  - unfold showUpload. by destruct (qs (uploadState w)).
  - unfold onClose. cbn. destruct (reloadOnClose w); [|done].
    eapply same_hints_trans; [|by apply same_hints_emit]. done.
  - by destruct (concluded w).
  - apply subscribed_hints.
Qed.

(** X23.  The hint about what pause applies to is shown once: whatever
    happens, it has been shown exactly once when the pause button was ever
    used and not at all otherwise, and using the button again shows
    nothing. *)
Theorem pause_hint_is_shown_once (w : World) :
  reachable w →
  pause_hints (effects w) = (if everPaused w then [Alert MPauseHint] else [])
  ∧ (everPaused w = true → effects (step w EvTogglePause) = effects w).
Proof.
  intros Hr. split.
  - revert w Hr. apply reachable_ind; [done|].
    intros w e _ IH.
    assert (He : e = EvTogglePause ∨ e ≠ EvTogglePause)
      by (destruct e; first [by left|by right]).
    destruct He as [->|Hne].
    + cbn. unfold toggle_pause. cbn. destruct (everPaused w) eqn:Ep; cbn; rewrite ?Ep.
      * exact IH.
      * unfold pause_hints in *. rewrite filter_app, IH. done.
    + destruct (step_hints w e Hne) as [-> ->]. exact IH.
  - intros Hp. cbn. unfold toggle_pause. cbn. by rewrite Hp.
Qed.

(** ** The byte counter of the speed estimate *)

Lemma deliver_progress_frame w x fr l t :
  req w = Some x → in_flight x = true → frames w !! owner x = Some fr →
  req (deliver_progress l t w) = Some x
  ∧ frames (deliver_progress l t w) !! owner x
    = Some (Frame.mk (Frame.toUpload fr) (Frame.to fr) (Frame.resume fr)
              (Frame.resuming fr) l).
Proof.
  intros Hx Hf Hfr.
  unfold deliver_progress, partial_changed, Closure.onprogress.
  rewrite Hx, Hf, Hfr. cbn.
  assert (Hlt : (owner x < length (frames w))%nat) by (by eapply lookup_lt_Some).
  destruct (closeLast w) as [o|]; cbn; [case_decide; cbn|];
    by rewrite list_lookup_insert_eq.
Qed.

(** X24.  However the transport cuts the progress of one request into
    events, the byte counter of the speed estimate grows by the bytes
    reported last, less those already counted for the request, and
    [partial] stands at the bytes reported last plus the resume offset: no
    byte is counted twice. *)
Theorem progress_deltas_add_up (w : World) (x : XHR) (fr : Frame.t)
    (evs : list (Z * Z)) (loaded total : Z) :
  req w = Some x → in_flight x = true → frames w !! owner x = Some fr →
  let w' := run ((λ p, EvProgress p.1 p.2) <$> (evs ++ [(loaded, total)])) w in
  bytesSent w' = bytesSent w + (loaded - Frame.lastProgress fr)
  ∧ partial (uploadState w') = loaded + Frame.resume fr.
Proof.
  cbv zeta. revert w fr. induction evs as [|[l t] evs IH]; intros w fr Hx Hf Hfr.
  - cbn [app fmap list_fmap]. rewrite run_cons. cbn [run foldl step fst snd].
    destruct (deliver_progress_spec w x fr loaded total Hx Hf Hfr) as (Hp & _ & Hb & _).
    done.
  - cbn [app fmap list_fmap]. rewrite run_cons. cbn [step fst snd].
    destruct (deliver_progress_frame w x fr l t Hx Hf Hfr) as [Hx' Hfr'].
    destruct (deliver_progress_spec w x fr l t Hx Hf Hfr) as (_ & _ & Hb & _).
    destruct (IH _ _ Hx' Hf Hfr') as [Hb' Hp'].
    split; [|exact Hp']. rewrite Hb', Hb. cbn. lia.
Qed.

(** ** The conflict status *)

(** When the request of the active transfer ends with the conflict
    status, [done], [doneByte] and [errors] keep their values, no entry is
    active any more, and the queue has advanced by one entry, the first of
    the first [QueueEntry]: when that is the active entry, the entry is out
    of the queue and the queue goes on with the entry behind it. *)
(** A request in flight that ends, whatever the status, takes the first
    entry out of the queue. *)
Lemma completion_shifts_queue (w : World) (x : XHR) (s : Z) :
  reachable w → req w = Some x → in_flight x = true →
  qs (uploadState (step w (EvLoad s))) = shift_queue (qs (uploadState w)).
Proof.
  intros Hr Hx Hf. cbn. unfold deliver_load. rewrite Hx, Hf.
  destruct (reachable_req_ok w Hr x Hx Hf) as (fr & Hfr & Hres & _).
  rewrite (onloadend_ended _ _ (mkXHR (owner x) 4 s) fr); [|done..].
  rewrite next_qs. repeat case_decide; by rewrite ?error_qs, ?done_qs.
Qed.

(** What sends no request sends none of an entry [u]. *)
Lemma sends_of_no_send (u : ToUpload) (l : list Effect) :
  Forall (λ e, is_send e = false) l → sends_of u l = [].
Proof.
  induction 1 as [|e l He _ IH]; [done|].
  unfold sends_of in *. rewrite filter_cons_False; [exact IH|].
  destruct e; cbn in *; done.
Qed.

Lemma conflict_completion (w : World) (x : XHR) (s : Z) :
  reachable w → req w = Some x → in_flight x = true →
  reported_status w s = HTTP_CONFLICT →
  let w' := step w (EvLoad s) in
  done (uploadState w') = done (uploadState w)
  ∧ doneByte (uploadState w') = doneByte (uploadState w)
  ∧ errors (uploadState w') = errors (uploadState w)
  ∧ uploading (uploadState w') = None
  ∧ qs (uploadState w') = shift_queue (qs (uploadState w))
  ∧ (∀ u location rest more,
       uploading (uploadState w) = Some u →
       qs (uploadState w) = mkQ location (u :: rest) :: more →
       qs (uploadState w') = match rest with
                             | [] => more
                             | _ :: _ => mkQ location rest :: more
                             end
       ∧ u ∉ queued_at location w').
Proof.
  intros Hr Hx Hf Hs. cbn. unfold deliver_load. rewrite Hx, Hf.
  destruct (reachable_req_ok w Hr x Hx Hf) as (fr & Hfr & Hres & _).
  rewrite (onloadend_ended _ _ (mkXHR (owner x) 4 s) fr); [|done..].
  cbn [status]. replace (reported_status (set_req _ w) s) with HTTP_CONFLICT by done.
  rewrite decide_False by (intros [_ ?]; done).
  destruct (next_spec (set_closeLast None (set_req (Some (mkXHR (owner x) 4 s)) w)))
    as (Hd & Hb & He & Hu & _).
  assert (Hq : qs (uploadState (Closure.next
                 (set_closeLast None (set_req (Some (mkXHR (owner x) 4 s)) w))))
               = shift_queue (qs (uploadState w))) by (by rewrite next_qs).
  split_and!; try done.
  intros u loc rest more Hup Hqs.
  assert (Hq' : shift_queue (qs (uploadState w))
                = match rest with [] => more | _ :: _ => mkQ loc rest :: more end).
  { rewrite Hqs. unfold shift_queue. cbn. by destruct rest. }
  split; [by rewrite Hq, Hq'|].
  rewrite queued_at_entries_for, Hq, Hq'.
  destruct (reachable_queue_ok w Hr) as (_ & Hto & Hp). rewrite Hqs in Hto, Hp.
  rewrite fmap_cons in Hto. apply NoDup_cons in Hto as [Hfresh _].
  apply Forall_cons in Hp as [Hp _]. cbn in Hp, Hfresh.
  apply NoDup_fmap_1 in Hp. apply NoDup_cons in Hp as [Hp _].
  destruct rest as [|e t].
  - rewrite entries_for_absent by done. apply not_elem_of_nil.
  - cbn. by rewrite decide_True.
Qed.

(** ** First in, first out *)

Lemma sends_nothing_refl w : sends_nothing w w.
Proof. exists []. by rewrite app_nil_r. Qed.

Lemma sends_nothing_trans w1 w2 w3 :
  sends_nothing w1 w2 → sends_nothing w2 w3 → sends_nothing w1 w3.
Proof.
  intros (l1 & H1 & F1) (l2 & H2 & F2). exists (l1 ++ l2).
  split; [by rewrite H2, H1, app_assoc|by apply Forall_app].
Qed.

Lemma sends_nothing_emit e w : is_send e = false → sends_nothing w (emit e w).
Proof. intros He. exists [e]. split; [done|by constructor]. Qed.

Lemma sends_nothing_fields w w' : effects w' = effects w → sends_nothing w w'.
Proof. intros He. exists []. by rewrite He, app_nil_r. Qed.

Lemma error_sends_nothing k s w : sends_nothing w (Closure.error k s w).
Proof.
  unfold Closure.error. cbn. case_decide; [by apply sends_nothing_fields|].
  destruct (frames w !! k); [|by apply sends_nothing_fields].
  eapply sends_nothing_trans; [|by apply sends_nothing_emit]. by apply sends_nothing_fields.
Qed.

Lemma done_sends_nothing k w : sends_nothing w (Closure.done k w).
Proof. unfold Closure.done. destruct (frames w !! k); by apply sends_nothing_fields. Qed.

Lemma next_sends_nothing w : sends_nothing w (Closure.next w).
Proof.
  destruct (next_spec w) as (_ & _ & _ & _ & _ & l & Hl & _).
  unfold Closure.next in *. cbn in *.
  destruct (qs (uploadState w)) as [|q0 rest]; [by apply sends_nothing_fields|]. cbn in *.
  destruct (match tail (entries q0) with [] => rest | _ :: _ => _ end);
    [|by apply sends_nothing_fields].
  set (w1 := emit ReloadListLater _).
  assert (H1 : sends_nothing w w1).
  { eapply sends_nothing_trans; [|by apply sends_nothing_emit]. by apply sends_nothing_fields. }
  destruct (uploadDialogIsOpen _); [exact H1|].
  eapply sends_nothing_trans; [exact H1|].
  eapply sends_nothing_trans; [by apply (sends_nothing_emit (Alert MConcluded))|].
  by apply sends_nothing_fields.
Qed.

Lemma onloadend_sends_nothing k w : sends_nothing w (Closure.onloadend k w).
Proof.
  unfold Closure.onloadend. destruct (req w) as [x|]; [|apply sends_nothing_refl].
  case_decide; [apply sends_nothing_refl|].
  set (st := if decide (overrideStatus w ≠ 0) then _ else _).
  set (w1 := if decide (st ≠ 0 ∧ st ≠ HTTP_CONFLICT) then _ else _).
  assert (H1 : sends_nothing w w1).
  { subst w1. repeat case_decide.
    - eapply sends_nothing_trans; [|apply error_sends_nothing]. by apply sends_nothing_fields.
    - eapply sends_nothing_trans; [|apply done_sends_nothing]. by apply sends_nothing_fields.
    - by apply sends_nothing_fields. }
  destruct (frames w1 !! k) as [fr|]; [|done].
  destruct (Frame.resuming fr); [done|].
  eapply sends_nothing_trans; [exact H1|apply next_sends_nothing].
Qed.

Lemma abortCurrentUpload_sends_nothing w : sends_nothing w (abortCurrentUpload w).
Proof.
  unfold abortCurrentUpload. destruct (req w) as [x|]; [|apply sends_nothing_refl].
  destruct (in_flight x); [|case_decide; by apply sends_nothing_fields].
  set (w1 := emit _ _).
  assert (H1 : sends_nothing w w1).
  { eapply sends_nothing_trans; [|by apply sends_nothing_emit]. by apply sends_nothing_fields. }
  eapply sends_nothing_trans; [exact H1|].
  eapply sends_nothing_trans; [apply onloadend_sends_nothing|]. by apply sends_nothing_fields.
Qed.

Lemma notification_sends_nothing h name data w : sends_nothing w (notification h name data w).
Proof.
  unfold notification. destruct (uploading (uploadState w)) as [u|]; [|apply sends_nothing_refl].
  case_decide.
  - destruct (frames w !! h) as [fr|]; [|apply sends_nothing_refl].
    case_decide; [apply sends_nothing_refl|].
    eapply sends_nothing_trans; [|by apply sends_nothing_fields].
    eapply sends_nothing_trans; [|by apply sends_nothing_emit]. by apply sends_nothing_fields.
  - case_decide; [|apply sends_nothing_refl]. cbn.
    case_decide; [|by apply sends_nothing_fields].
    eapply sends_nothing_trans; [|apply abortCurrentUpload_sends_nothing].
    by apply sends_nothing_fields.
Qed.

Lemma enqueue_call_sends_nothing items loc w : sends_nothing w (enqueue_call items loc w).
Proof.
  unfold enqueue_call. destruct (remove_rejected _ _) as [[kept [|r removed]]|].
  - apply sends_nothing_fields, enqueue_rest_effects.
  - by apply sends_nothing_emit.
  - apply sends_nothing_refl.
Qed.

Lemma delete_entry_sends_nothing idx f w : sends_nothing w (delete_entry idx f w).
Proof.
  unfold delete_entry. destruct (match uploading _ with Some _ => _ | None => _ end).
  - apply abortCurrentUpload_sends_nothing.
  - destruct (qs (uploadState w) !! idx) as [q|]; [|apply sends_nothing_refl]. cbn.
    destruct (pull _ _); by apply sends_nothing_fields.
Qed.

(** A request is sent by the scheduler, by the call that got its
    subscription, or at the acceptance of a resume offer, and by no other
    event. *)
Lemma step_sends_nothing w e :
  e ≠ EvChange → e ≠ EvSubscribed → e ≠ EvAnswer true → sends_nothing w (step w e).
Proof.
  intros H1 H2 H3. destruct e; cbn; try done; try (by apply sends_nothing_fields).
  - unfold pickFiles. destruct (remove_rejected _ _) as [[??]|]; by apply sends_nothing_fields.
  - unfold send_files.
    eapply sends_nothing_trans; [apply enqueue_call_sends_nothing|by apply sends_nothing_fields].
  - apply enqueue_call_sends_nothing.
  - apply sends_nothing_fields, enqueue_rest_effects.
  - unfold deliver_progress. destruct (req w) as [x|]; [|apply sends_nothing_refl].
    destruct (in_flight x); [|apply sends_nothing_refl].
    apply sends_nothing_fields. unfold partial_changed, Closure.onprogress. cases.
  - unfold deliver_load. destruct (req w) as [x|]; [|apply sends_nothing_refl].
    destruct (in_flight x); [|apply sends_nothing_refl].
    eapply sends_nothing_trans; [|apply onloadend_sends_nothing]. by apply sends_nothing_fields.
  - unfold deliver_error. destruct (req w) as [x|]; [|apply sends_nothing_refl].
    destruct (in_flight x); [|apply sends_nothing_refl].
    eapply sends_nothing_trans; [|apply onloadend_sends_nothing].
    eapply sends_nothing_trans; [|apply error_sends_nothing]. by apply sends_nothing_fields.
  - destruct (notificationSource w); [apply notification_sends_nothing|apply sends_nothing_refl].
  - destruct confirmed; [done|]. unfold answered.
    destruct (closeLast w); by apply sends_nothing_fields.
  - unfold delete_queue.
    eapply sends_nothing_trans; [|apply abortCurrentUpload_sends_nothing].
    by apply sends_nothing_fields.
  - unfold toggle_pause. cbn. destruct (everPaused w); [by apply sends_nothing_fields|].
    eapply sends_nothing_trans; [|by apply sends_nothing_emit]. by apply sends_nothing_fields.
  - apply delete_entry_sends_nothing.
  - unfold showUpload. destruct (qs (uploadState w)); by apply sends_nothing_fields.
  - unfold onClose. cbn. destruct (reloadOnClose w); [|by apply sends_nothing_fields].
    eapply sends_nothing_trans; [|by apply sends_nothing_emit]. by apply sends_nothing_fields.
  - destruct (concluded w); by apply sends_nothing_fields.
Qed.














End Engine.

(** ** The code on concrete inputs

    From here on the patterns are simple ones and the engine is
    [simple_patterns]. *)
#[local] Existing Instance simple_patterns.

Ltac compute_it := vm_compute; first [reflexivity | discriminate | done].

Lemma first_started_reachable : reachable (run first_started world0).
Proof. by exists first_started. Defined.

Lemma first_started_req : req (run first_started world0) = Some (mkXHR 0 1 0).
Proof. compute_it. Defined.

Lemma first_request_in_flight : in_flight (mkXHR 0 1 0) = true.
Proof. compute_it. Defined.


(** C7, as stated, fails when the transport reports another total than
    the size of the range: for a file of 100 bytes sent from offset 0 in a
    body of 120 bytes, 50 bytes sent are published as 50/120, not 50/100. *)
Lemma progress_is_over_the_reported_total : ¬ progress_as_stated.
Proof.
  intros Hc.
  assert (Hu : uploading (uploadState (run first_started world0)) = Some entryA)
    by compute_it.
  specialize (Hc (run first_started world0) (mkXHR 0 1 0) entryA 50 120
                first_started_reachable first_started_req first_request_in_flight Hu).
  vm_compute in Hc. discriminate.
Qed.


(** C1: the code at a resume offer for the second entry of a queue.
    [entryB] is active, the server offers to resume it from byte 5 of its
    10 bytes and the user accepts.  The request is aborted, but the queue
    advances past [entryB], and the transfer that starts is one of
    [entryA], the first entry of the queue, from byte 5: the callback and
    its [resuming] flag belong to the frame of the first transfer. *)
Theorem resume_of_second_entry_restarts_first :
  let offered : gmap string Z := {[ "b.bin" := 5 ]} in
  let w := run (second_started ++ [EvNotification "upload.resumable" offered]) world0 in
  let w' := step w (EvAnswer true) in
  uploading (uploadState w) = Some entryB
  ∧ qs (uploadState w) = [mkQ "/docs/" [entryB]]
  ∧ closeLast w = Some (mkOffer 0 entryB 5)
  ∧ qs (uploadState w') = []
  ∧ uploading (uploadState w') = Some entryA
  ∧ effects w' = effects w ++ [Abort (mkXHR 1 1 0);
                               ReloadListLater; Alert MConcluded;
                               Send "/docs/" (Some 0%nat) 5 "" false entryA 5 "a.bin"].
Proof. vm_compute. repeat split. Qed.

(** C2: the code at a conflict status for an active entry that is not the
    first of the queue.  After the restart shown for C1, [entryA] is the
    active entry although it has left the queue; [entryX] is queued then and
    is the first entry.  The request of [entryA] ends with the conflict
    status: no counter changes, but what [next] takes out of the queue is
    [entryX], for which no request was ever sent, and the queue is
    empty. *)
Theorem conflict_completion_drops_another_entry :
  let w := run resumed_second world0 in
  let w' := step w (EvLoad 409) in
  uploading (uploadState w) = Some entryA
  ∧ req w = Some (mkXHR 2 1 0)
  ∧ qs (uploadState w) = [mkQ "/docs/" [entryX]]
  ∧ reported_status w 409 = HTTP_CONFLICT
  ∧ done (uploadState w') = done (uploadState w)
  ∧ doneByte (uploadState w') = doneByte (uploadState w)
  ∧ errors (uploadState w') = errors (uploadState w)
  ∧ uploading (uploadState w') = None
  ∧ qs (uploadState w') = []
  ∧ sends_of entryX (effects w') = [].
Proof. vm_compute. repeat split. Qed.

(** The same without a resume offer: the queue is deleted while the
    transfer of [entryA] is being set up.  There is no request to abort, so
    [entryA] stays active and its request is sent when the subscription is
    there, with the channel id the scheduler has withdrawn meanwhile; when
    it ends, whatever the status, [entryX] is taken out of the queue
    without having been sent. *)
Lemma queue_deleted_during_setup (s : Z) :
  let w := run deleted_during_setup world0 in
  let w' := step w (EvLoad s) in
  uploading (uploadState w) = Some entryA
  ∧ req w = Some (mkXHR 0 1 0)
  ∧ qs (uploadState w) = [mkQ "/docs/" [entryX]]
  ∧ effects w = [Send "/docs/" None 0 "" false entryA 0 "a.bin"]
  ∧ notificationSource w = None
  ∧ qs (uploadState w') = []
  ∧ sends_of entryX (effects w') = [].
Proof.
  cbv zeta.
  assert (Hr : reachable (run deleted_during_setup world0))
    by (exists deleted_during_setup; reflexivity).
  assert (Hu : uploading (uploadState (run deleted_during_setup world0)) = Some entryA)
    by compute_it.
  assert (Hx : req (run deleted_during_setup world0) = Some (mkXHR 0 1 0)) by compute_it.
  assert (Hq : qs (uploadState (run deleted_during_setup world0)) = [mkQ "/docs/" [entryX]])
    by compute_it.
  assert (He : effects (run deleted_during_setup world0)
               = [Send "/docs/" None 0 "" false entryA 0 "a.bin"]) by compute_it.
  assert (Hn : notificationSource (run deleted_during_setup world0) = None) by compute_it.
  revert Hr Hu Hx Hq He Hn. generalize (run deleted_during_setup world0).
  intros w Hr Hu Hx Hq He Hn.
  split_and!; [exact Hu|exact Hx|exact Hq|exact He|exact Hn| |].
  - rewrite (completion_shifts_queue w (mkXHR 0 1 0) s Hr Hx eq_refl), Hq. reflexivity.
  - destruct (step_sends_nothing w (EvLoad s)) as (l & Hl & Hall); [discriminate..|].
    rewrite Hl, He. unfold sends_of. rewrite filter_app.
    fold (sends_of entryX l). rewrite (sends_of_no_send entryX l Hall). reflexivity.
Qed.

(** C8: the code at an oversized offer for the second entry of a queue.
    [entryB] has 10 bytes and the server reports 50; the size is compared
    with the 100 bytes of [entryA], whose frame the callback closes over,
    so the offer is not dropped and the confirmation is shown. *)
Theorem oversized_offer_for_second_entry_is_shown :
  let offered : gmap string Z := {[ "b.bin" := 50 ]} in
  let w := run second_started world0 in
  let w' := step w (EvNotification "upload.resumable" offered) in
  uploading (uploadState w) = Some entryB
  ∧ 50 > size (file entryB)
  ∧ effects w' = effects w ++ [ConfirmResume 50 100]
  ∧ closeLast w' = Some (mkOffer 0 entryB 50).
Proof. vm_compute. repeat split. Qed.

(** C9: the code on two policies without wildcard.  Under the policy
    image/svg+xml a file of exactly that type is rejected, because [+] is a
    quantifier of the regular expression the pattern is turned into; under
    application/xml a file of type application/xml-dtd passes, because the
    expression is searched for anywhere in the type. *)
Theorem accept_policy_is_a_regular_expression :
  let svg := mkFile "logo.svg" "" "image/svg+xml" 2048 in
  let dtd := mkFile "schema.dtd" "" "application/xml-dtd" 512 in
  simulateBrowserAccept (Some "image/svg+xml") svg = Some false
  ∧ qs (uploadState (enqueue [mkToUpload 7 svg None] "/docs/"
                       (set_accept (Some "image/svg+xml") world0))) = []
  ∧ simulateBrowserAccept (Some "application/xml") dtd = Some true
  ∧ qs (uploadState (enqueue [mkToUpload 8 dtd None] "/docs/"
                       (set_accept (Some "application/xml") world0)))
    = [mkQ "/docs/" [mkToUpload 8 dtd None]].
Proof. vm_compute. repeat split. Qed.

(** ** The theorems at concrete inputs *)

Lemma queue_entries_never_empty_witness :
  reachable (run first_started world0)
  ∧ Forall (λ q, entries q ≠ []) (qs (uploadState (run first_started world0))).
Proof.
  split; [exact first_started_reachable|].
  apply queue_entries_never_empty. exact first_started_reachable.
Defined.


Lemma network_error_counted_once_witness :
  let w := run first_started world0 in
  req w = Some (mkXHR 0 1 0) ∧ in_flight (mkXHR 0 1 0) = true ∧ overrideStatus w = 0
  ∧ errors (uploadState (step w EvNetworkError)) = errors (uploadState w) + 1
  ∧ errors (uploadState (abortCurrentUpload w)) = errors (uploadState w).
Proof.
  cbv zeta.
  assert (Ho : overrideStatus (run first_started world0) = 0) by compute_it.
  destruct (network_error_counted_once (run first_started world0) (mkXHR 0 1 0)
              first_started_req first_request_in_flight Ho)
    as (_ & _ & _ & He & _ & _ & Ha & _).
  split_and!; [exact first_started_req|exact first_request_in_flight|exact Ho
              |exact He|exact Ha].
Defined.

Lemma progress_published_witness :
  let w := run first_started world0 in
  let w' := step w (EvProgress 50 120) in
  req w = Some (mkXHR 0 1 0) ∧ in_flight (mkXHR 0 1 0) = true
  ∧ frames w !! 0%nat = Some (Frame.mk entryA "/docs/" 0 false 0)
  ∧ partial (uploadState w') = 50 + 0
  ∧ progress (uploadState w') = mkFraction (50 + 0) (120 + 0)
  ∧ bytesSent w' = bytesSent w + (50 - 0).
Proof.
  cbv zeta.
  assert (Hfr : frames (run first_started world0) !! 0%nat
                = Some (Frame.mk entryA "/docs/" 0 false 0)) by compute_it.
  destruct (progress_published (run first_started world0) (mkXHR 0 1 0)
              (Frame.mk entryA "/docs/" 0 false 0) 50 120
              first_started_req first_request_in_flight Hfr)
    as (Hp & Hg & _ & Hb & _).
  split_and!; [exact first_started_req|exact first_request_in_flight|exact Hfr
              |exact Hp|exact Hg|exact Hb].
Defined.

Lemma enqueue_same_pair_once_witness :
  let once := enqueue [entryA] "/docs/" world0 in
  let twice := enqueue [entryA] "/docs/" once in
  reachable world0
  ∧ simulateBrowserAccept (accept world0) (file entryA) = Some true
  ∧ uploadState twice = uploadState once
  ∧ length (filter (λ y, path (file y) "" = path (file entryA) "")
              (queued_at "/docs/" twice)) = 1%nat.
Proof.
  cbv zeta.
  assert (Hr : reachable world0) by (by exists []).
  assert (Ha : simulateBrowserAccept (accept world0) (file entryA) = Some true) by compute_it.
  destruct (enqueue_same_pair_once world0 entryA "/docs/" Hr Ha) as (_ & Hs & Hc).
  split_and!; [exact Hr|exact Ha|exact Hs|exact Hc].
Defined.




(** ** The further properties at concrete inputs *)

Lemma first_started_uploading :
  uploading (uploadState (run first_started world0)) = Some entryA.
Proof. compute_it. Defined.

Lemma first_started_frame :
  frames (run first_started world0) !! 0%nat = Some (Frame.mk entryA "/docs/" 0 false 0).
Proof. compute_it. Defined.

Lemma first_started_override : overrideStatus (run first_started world0) = 0.
Proof. compute_it. Defined.

Lemma first_started_source : notificationSource (run first_started world0) = Some 0%nat.
Proof. compute_it. Defined.

Lemma resume_offered_closeLast :
  closeLast (run resume_offered world0) = Some (mkOffer 0 entryA 50).
Proof. compute_it. Defined.

Lemma resume_offered_req : req (run resume_offered world0) = Some (mkXHR 0 1 0).
Proof. compute_it. Defined.

Lemma resume_offered_frame :
  frames (run resume_offered world0) !! 0%nat = Some (Frame.mk entryA "/docs/" 0 false 0).
Proof. compute_it. Defined.

Lemma setting_up_reachable : reachable (run setting_up world0).
Proof. by exists setting_up. Defined.

Lemma setting_up_uploading : uploading (uploadState (run setting_up world0)) = Some entryA.
Proof. compute_it. Defined.

Lemma setting_up_awaiting : awaiting (run setting_up world0) = Some 0%nat.
Proof. compute_it. Defined.

Lemma active_while_sent_or_set_up_witness :
  reachable (run setting_up world0)
  ∧ ∃ fr, frames (run setting_up world0) !! 0%nat = Some fr
          ∧ uploading (uploadState (run setting_up world0)) = Some (Frame.toUpload fr).
Proof.
  split; [exact setting_up_reachable|].
  destruct (active_while_sent_or_set_up _ setting_up_reachable) as (_ & _ & Hwait).
  exact (Hwait 0%nat setting_up_awaiting).
Defined.

Lemma success_counts_the_active_file_witness :
  let w := run first_started world0 in
  reachable w ∧ req w = Some (mkXHR 0 1 0) ∧ in_flight (mkXHR 0 1 0) = true
  ∧ reported_status w 200 ≠ 0 ∧ reported_status w 200 < 400
  ∧ ∃ u, uploading (uploadState w) = Some u
         ∧ done (uploadState (step w (EvLoad 200))) = done (uploadState w) + 1
         ∧ doneByte (uploadState (step w (EvLoad 200)))
           = doneByte (uploadState w) + size (file u).
Proof.
  cbv zeta.
  assert (Hne : reported_status (run first_started world0) 200 ≠ 0) by compute_it.
  assert (Hlt : reported_status (run first_started world0) 200 < 400) by compute_it.
  destruct (success_counts_the_active_file (run first_started world0) (mkXHR 0 1 0) 200
              first_started_reachable first_started_req first_request_in_flight Hne Hlt)
    as (u & Hu & Hd & Hb & _).
  split_and!; [exact first_started_reachable|exact first_started_req
              |exact first_request_in_flight|exact Hne|exact Hlt|].
  exists u. split_and!; [exact Hu|exact Hd|exact Hb].
Defined.

Lemma deleting_the_active_entry_witness :
  let w := run setting_up world0 in
  let w' := step w (EvDeleteEntry 0 entryA) in
  reachable w ∧ uploading (uploadState w) = Some entryA ∧ same entryA entryA = true
  ∧ awaiting w = Some 0%nat
  ∧ uploadState w' = uploadState w
  ∧ effects w' = effects w
  ∧ ∃ location, starts entryA location w' (step w' EvSubscribed).
Proof.
  cbv zeta.
  assert (Hs : same entryA entryA = true) by compute_it.
  destruct (deleting_the_active_entry (run setting_up world0) entryA entryA 0
              setting_up_reachable setting_up_uploading Hs)
    as (_ & Hwait).
  destruct (Hwait 0%nat setting_up_awaiting) as (Hst & Heff & _ & Hsent).
  split_and!; [exact setting_up_reachable|exact setting_up_uploading|exact Hs
              |exact setting_up_awaiting|exact Hst|exact Heff|exact Hsent].
Defined.

Lemma pushed_error_status_aborts_witness :
  let w := run first_started world0 in
  let data : gmap string Z := {[ "a.bin" := 500 ]} in
  let w' := step w (EvNotification "upload.status" data) in
  reachable w ∧ notificationSource w = Some 0%nat
  ∧ uploading (uploadState w) = Some entryA
  ∧ data !! path (file entryA) "" = Some 500 ∧ 500 >= 400
  ∧ uploading (uploadState w') = None
  ∧ errors (uploadState w')
    = errors (uploadState w) + (if decide (500 = HTTP_CONFLICT) then 0 else 1).
Proof.
  cbv zeta.
  assert (Hd : ({[ "a.bin" := 500 ]} : gmap string Z) !! path (file entryA) "" = Some 500)
    by compute_it.
  assert (Hge : 500 >= 400) by lia.
  destruct (pushed_error_status_aborts (run first_started world0) 0 entryA
              {[ "a.bin" := 500 ]} 500 first_started_reachable first_started_source
              first_started_uploading Hd Hge)
    as (Hu & _ & _ & He & _).
  split_and!; [exact first_started_reachable|exact first_started_source
              |exact first_started_uploading|exact Hd|exact Hge|exact Hu|exact He].
Defined.

Lemma pushed_success_status_overrides_the_response_witness :
  let w := run first_started world0 in
  let data : gmap string Z := {[ "a.bin" := 201 ]} in
  let w' := step (step w (EvNotification "upload.status" data)) (EvLoad 500) in
  reachable w ∧ notificationSource w = Some 0%nat
  ∧ uploading (uploadState w) = Some entryA
  ∧ data !! path (file entryA) "" = Some 201 ∧ 201 ≠ 0 ∧ 201 < 400
  ∧ done (uploadState w') = done (uploadState w) + 1
  ∧ errors (uploadState w') = errors (uploadState w).
Proof.
  cbv zeta.
  assert (Hd : ({[ "a.bin" := 201 ]} : gmap string Z) !! path (file entryA) "" = Some 201)
    by compute_it.
  assert (Hne : 201 ≠ 0) by lia.
  assert (Hlt : 201 < 400) by lia.
  destruct (pushed_success_status_overrides_the_response (run first_started world0) 0 entryA
              {[ "a.bin" := 201 ]} 201 500 first_started_reachable first_started_source
              first_started_uploading Hd Hne Hlt)
    as (_ & _ & Hdone & _ & He).
  split_and!; [exact first_started_reachable|exact first_started_source
              |exact first_started_uploading|exact Hd|exact Hne|exact Hlt|exact Hdone|exact He].
Defined.

Lemma deleting_the_queue_witness :
  let w := run setting_up world0 in
  let w' := step w EvDeleteQueue in
  reachable w ∧ awaiting w = Some 0%nat
  ∧ qs (uploadState w') = []
  ∧ uploading (uploadState w') = uploading (uploadState w)
  ∧ ∃ u location, uploading (uploadState w) = Some u
                  ∧ starts u location w' (step w' EvSubscribed).
Proof.
  cbv zeta.
  destruct (deleting_the_queue (run setting_up world0) setting_up_reachable)
    as (Hq & _ & _ & Hwait).
  destruct (Hwait 0%nat setting_up_awaiting) as (Hu & _ & _ & Hsent).
  split_and!; [exact setting_up_reachable|exact setting_up_awaiting|exact Hq|exact Hu
              |exact Hsent].
Defined.

Lemma first_started_no_resume : Forall (λ e, e ≠ EvAnswer true) first_started.
Proof. unfold first_started. repeat constructor; discriminate. Defined.

Lemma first_started_no_queue_deletion (k : nat) :
  first_started !! k = Some EvDeleteQueue →
  awaiting (run (take k first_started) world0) = None.
Proof.
  intros Hk. exfalso. destruct k as [|[|[|k]]]; vm_compute in Hk; discriminate.
Defined.

Lemma active_entry_heads_the_queue_witness :
  Forall (λ e, e ≠ EvAnswer true) first_started
  ∧ (∀ k, first_started !! k = Some EvDeleteQueue →
          awaiting (run (take k first_started) world0) = None)
  ∧ uploading (uploadState (run first_started world0)) = Some entryA
  ∧ ∃ location rest more,
      qs (uploadState (run first_started world0)) = mkQ location (entryA :: rest) :: more.
Proof.
  split_and!; [exact first_started_no_resume|exact first_started_no_queue_deletion
              |exact first_started_uploading|].
  exact (active_entry_heads_the_queue first_started entryA first_started_no_resume
           first_started_no_queue_deletion first_started_uploading).
Defined.

Lemma scheduler_serves_the_first_destination_witness :
  let w := run [EvEnqueue [entryA] "/docs/"; EvEnqueue [entryB] "/pics/"] world0 in
  reachable w
  ∧ qs (uploadState w) !! 1%nat = Some (mkQ "/pics/" [entryB])
  ∧ ¬ starts entryB (to (mkQ "/pics/" [entryB])) w (step w EvChange).
Proof.
  cbv zeta.
  assert (Hr : reachable (run [EvEnqueue [entryA] "/docs/"; EvEnqueue [entryB] "/pics/"] world0))
    by (by eexists).
  assert (Hq : qs (uploadState (run [EvEnqueue [entryA] "/docs/"; EvEnqueue [entryB] "/pics/"]
                                  world0)) !! 1%nat
               = Some (mkQ "/pics/" [entryB])) by compute_it.
  split_and!; [exact Hr|exact Hq|].
  exact (scheduler_serves_the_first_destination _ 0 (mkQ "/pics/" [entryB]) entryB Hr Hq).
Defined.

Lemma pause_holds_the_queue_not_the_transfer_witness :
  let w := run first_started world0 in
  let paused_w := step w EvTogglePause in
  let waiting := step (step paused_w (EvLoad 200)) EvChange in
  reachable w ∧ req w = Some (mkXHR 0 1 0) ∧ in_flight (mkXHR 0 1 0) = true
  ∧ paused (uploadState w) = false
  ∧ req paused_w = req w
  ∧ uploading (uploadState waiting) = None
  ∧ effects waiting = effects (step paused_w (EvLoad 200)).
Proof.
  cbv zeta.
  assert (Hp : paused (uploadState (run first_started world0)) = false) by compute_it.
  destruct (pause_holds_the_queue_not_the_transfer (run first_started world0) (mkXHR 0 1 0) 200
              first_started_reachable first_started_req first_request_in_flight)
    as (Hreq & _ & Hrest).
  destruct (Hrest Hp) as (Hu & He & _).
  split_and!; [exact first_started_reachable|exact first_started_req
              |exact first_request_in_flight|exact Hp|exact Hreq|exact Hu|exact He].
Defined.

Lemma confirmation_dismissed_at_the_threshold_witness :
  let w := run resume_offered world0 in
  closeLast w = Some (mkOffer 0 entryA 50) ∧ req w = Some (mkXHR 0 1 0)
  ∧ in_flight (mkXHR 0 1 0) = true
  ∧ frames w !! 0%nat = Some (Frame.mk entryA "/docs/" 0 false 0)
  ∧ closeLast (step w (EvProgress 60 100)) = None
  ∧ closeLast (step w (EvProgress 40 100)) = Some (mkOffer 0 entryA 50).
Proof.
  cbv zeta.
  destruct (confirmation_dismissed_at_the_threshold (run resume_offered world0)
              (mkOffer 0 entryA 50) (mkXHR 0 1 0) (Frame.mk entryA "/docs/" 0 false 0) 60 100
              resume_offered_closeLast resume_offered_req first_request_in_flight
              resume_offered_frame)
    as (Hover & _).
  destruct (confirmation_dismissed_at_the_threshold (run resume_offered world0)
              (mkOffer 0 entryA 50) (mkXHR 0 1 0) (Frame.mk entryA "/docs/" 0 false 0) 40 100
              resume_offered_closeLast resume_offered_req first_request_in_flight
              resume_offered_frame)
    as (_ & Hunder).
  assert (Hch : 60 + Frame.resume (Frame.mk entryA "/docs/" 0 false 0)
                ≠ partial (uploadState (run resume_offered world0))) by compute_it.
  assert (Hge : 60 + Frame.resume (Frame.mk entryA "/docs/" 0 false 0)
                >= o_size (mkOffer 0 entryA 50)) by compute_it.
  assert (Hlt : 40 + Frame.resume (Frame.mk entryA "/docs/" 0 false 0)
                < o_size (mkOffer 0 entryA 50)) by compute_it.
  destruct (Hover Hch Hge) as [Hnone _].
  split_and!; [exact resume_offered_closeLast|exact resume_offered_req
              |exact first_request_in_flight|exact resume_offered_frame|exact Hnone
              |exact (Hunder Hlt)].
Defined.

Lemma progress_continues_from_the_offset_witness :
  let w := run resume_offered world0 in
  let w' := step (step (step w (EvAnswer true)) EvSubscribed) (EvProgress 10 50) in
  closeLast w = Some (mkOffer 0 entryA 50)
  ∧ uploading (uploadState w) = Some entryA
  ∧ frames w !! 0%nat = Some (Frame.mk entryA "/docs/" 0 false 0)
  ∧ req w = Some (mkXHR 0 1 0) ∧ in_flight (mkXHR 0 1 0) = true
  ∧ overrideStatus w = 0 ∧ awaiting w = None
  ∧ partial (uploadState w') = 10 + 50
  ∧ progress (uploadState w') = mkFraction (10 + 50) (50 + 50)
  ∧ bytesSent w' = bytesSent w + 10.
Proof.
  cbv zeta.
  assert (Hu : uploading (uploadState (run resume_offered world0))
               = Some (o_uploading (mkOffer 0 entryA 50))) by compute_it.
  assert (Ho : overrideStatus (run resume_offered world0) = 0) by compute_it.
  assert (Ha : awaiting (run resume_offered world0) = None) by compute_it.
  destruct (progress_continues_from_the_offset (run resume_offered world0)
              (mkOffer 0 entryA 50) (Frame.mk entryA "/docs/" 0 false 0) (mkXHR 0 1 0) 10 50
              resume_offered_closeLast Hu resume_offered_frame resume_offered_req
              first_request_in_flight eq_refl Ho Ha)
    as (Hp & Hg & Hb).
  split_and!; [exact resume_offered_closeLast|exact Hu|exact resume_offered_frame
              |exact resume_offered_req|exact first_request_in_flight|exact Ho|exact Ha
              |exact Hp|exact Hg|exact Hb].
Defined.

Lemma queue_has_no_duplicates_witness :
  reachable (run first_started world0)
  ∧ NoDup (to <$> qs (uploadState (run first_started world0))).
Proof.
  split; [exact first_started_reachable|].
  exact (proj1 (queue_has_no_duplicates _ first_started_reachable)).
Defined.

Lemma enqueue_queues_the_accepted_paths_witness :
  (∀ x, x ∈ [entryA; entryB] → is_Some (simulateBrowserAccept (accept world0) (file x)))
  ∧ ("b.bin" ∈ paths (queued_at "/docs/" (enqueue [entryA; entryB] "/docs/" world0))
     ↔ "b.bin" ∈ paths (queued_at "/docs/" world0)
       ∨ ∃ x, x ∈ [entryA; entryB]
              ∧ simulateBrowserAccept (accept world0) (file x) = Some true
              ∧ path (file x) "" = "b.bin").
Proof.
  assert (Hall : ∀ x, x ∈ [entryA; entryB] →
                      is_Some (simulateBrowserAccept (accept world0) (file x)))
    by (intros x _; exists true; reflexivity).
  split; [exact Hall|].
  exact (enqueue_queues_the_accepted_paths world0 [entryA; entryB] "/docs/" "b.bin" Hall).
Defined.

Lemma enqueue_without_accepted_file_witness :
  let w := set_accept (Some ".png") world0 in
  (∀ x, x ∈ [entryA] → simulateBrowserAccept (accept w) (file x) ≠ Some true)
  ∧ uploadState (enqueue [entryA] "/docs/" w) = uploadState w.
Proof.
  cbv zeta.
  assert (Hnone : ∀ x, x ∈ [entryA] →
                       simulateBrowserAccept (accept (set_accept (Some ".png") world0)) (file x)
                       ≠ Some true).
  { intros x Hx. apply list_elem_of_singleton in Hx as ->. compute_it. }
  split; [exact Hnone|].
  exact (enqueue_without_accepted_file _ [entryA] "/docs/" Hnone).
Defined.

Lemma send_with_a_rejected_file_queues_nothing_witness :
  let w := run [EvSetAccept (Some ".png"); EvDrop [picture; entryA]] world0 in
  let w' := step w (EvSend "/docs/") in
  remove_rejected (accept w) (adding (uploadState w)) = Some ([picture], [entryA])
  ∧ adding (uploadState w') = []
  ∧ qs (uploadState w') = qs (uploadState w)
  ∧ effects w' = effects w ++ [Alert MRejected]
  ∧ step w' (EvEnqueueRest (adding (uploadState w')) "/docs/") = w'.
Proof.
  cbv zeta.
  assert (Hr : remove_rejected
                 (accept (run [EvSetAccept (Some ".png"); EvDrop [picture; entryA]] world0))
                 (adding (uploadState
                            (run [EvSetAccept (Some ".png"); EvDrop [picture; entryA]] world0)))
               = Some ([picture], [entryA])) by compute_it.
  destruct (send_with_a_rejected_file_queues_nothing _ "/docs/" [picture] [] entryA Hr)
    as (Ha & Hq & He & Hrest).
  split_and!; [exact Hr|exact Ha|exact Hq|exact He|exact (Hrest "/docs/")].
Defined.

Lemma deleting_with_a_stale_index_changes_nothing_witness :
  let w := run first_started world0 in
  reachable w
  ∧ (∀ u, uploading (uploadState w) = Some u → same entryX u = false)
  ∧ (∀ q, qs (uploadState w) !! 5%nat = Some q → ∀ x, x ∈ entries q → same x entryX = false)
  ∧ step w (EvDeleteEntry 5 entryX) = w.
Proof.
  cbv zeta.
  assert (Hact : ∀ u, uploading (uploadState (run first_started world0)) = Some u →
                      same entryX u = false).
  { intros u Hu. rewrite first_started_uploading in Hu.
    injection Hu as <-. reflexivity. }
  assert (Hidx : ∀ q, qs (uploadState (run first_started world0)) !! 5%nat = Some q →
                      ∀ x, x ∈ entries q → same x entryX = false).
  { intros q Hq. vm_compute in Hq. discriminate. }
  split_and!; [exact first_started_reachable|exact Hact|exact Hidx|].
  exact (deleting_with_a_stale_index_changes_nothing _ 5 entryX
           first_started_reachable Hact Hidx).
Defined.

Lemma extension_policy_needs_no_engine_witness :
  let f := mkFile "photo.jpg" "" "image/jpeg" 10 in
  ".png, .jpg" ≠ ""
  ∧ Forall (λ p, startsWith p "." = true) (split_accept (normalizeAccept ".png, .jpg"))
  ∧ simulateBrowserAccept (Some ".png, .jpg") f
    = Some (existsb (endsWith (name f)) (split_accept (normalizeAccept ".png, .jpg"))).
Proof.
  cbv zeta.
  assert (Hne : ".png, .jpg" ≠ "") by discriminate.
  assert (Hall : Forall (λ p, startsWith p "." = true)
                   (split_accept (normalizeAccept ".png, .jpg")))
    by (vm_compute; repeat constructor).
  split_and!; [exact Hne|exact Hall|].
  exact (extension_policy_needs_no_engine ".png, .jpg" (mkFile "photo.jpg" "" "image/jpeg" 10)
           Hne Hall).
Defined.

Lemma last_entry_concludes_the_queue_witness :
  let w := run last_started world0 in
  let ended := step w (EvLoad 200) in
  let idle := step ended EvChange in
  reachable w ∧ req w = Some (mkXHR 0 1 0) ∧ in_flight (mkXHR 0 1 0) = true
  ∧ qs (uploadState w) = [mkQ "/docs/" [entryB]]
  ∧ entries (mkQ "/docs/" [entryB]) = [entryB]
  ∧ uploadDialogIsOpen w = false
  ∧ qs (uploadState ended) = []
  ∧ reloadOnClose ended = false
  ∧ notificationChannel idle = None
  ∧ done (uploadState (step idle EvConcludedClosed)) = 0.
Proof.
  cbv zeta.
  assert (Hr : reachable (run last_started world0)) by (by exists last_started).
  assert (Hx : req (run last_started world0) = Some (mkXHR 0 1 0)) by compute_it.
  assert (Hq : qs (uploadState (run last_started world0)) = [mkQ "/docs/" [entryB]])
    by compute_it.
  assert (Ho : uploadDialogIsOpen (run last_started world0) = false) by compute_it.
  destruct (last_entry_concludes_the_queue (run last_started world0) (mkXHR 0 1 0) 200
              (mkQ "/docs/" [entryB]) entryB Hr Hx first_request_in_flight Hq eq_refl)
    as (Hq' & _ & Hre & _ & _ & Hch & _ & _ & _ & Hclosed).
  destruct (Hclosed Ho) as (Hd & _).
  split_and!; [exact Hr|exact Hx|exact first_request_in_flight|exact Hq|reflexivity|exact Ho
              |exact Hq'|exact Hre|exact Hch|exact Hd].
Defined.

Lemma picked_files_are_sent_without_rejection_witness :
  let w := run [EvSetAccept (Some ".png")] world0 in
  let picked := step w (EvPick [picture; entryA]) in
  let sent := step picked (EvSend "/docs/") in
  (∀ x, x ∈ adding (uploadState w) → simulateBrowserAccept (accept w) (file x) = Some true)
  ∧ (∀ x, x ∈ [picture; entryA] → is_Some (simulateBrowserAccept (accept w) (file x)))
  ∧ effects sent = effects w
  ∧ adding (uploadState sent) = [].
Proof.
  cbv zeta.
  assert (Hadd : ∀ x, x ∈ adding (uploadState (run [EvSetAccept (Some ".png")] world0)) →
                      simulateBrowserAccept (accept (run [EvSetAccept (Some ".png")] world0))
                        (file x) = Some true).
  { intros x Hx. exfalso. exact (not_elem_of_nil x Hx). }
  assert (Hall : ∀ x, x ∈ [picture; entryA] →
                      is_Some (simulateBrowserAccept
                                 (accept (run [EvSetAccept (Some ".png")] world0)) (file x))).
  { intros x Hx. apply elem_of_cons in Hx as [->|Hx].
    - exists true. compute_it.
    - apply list_elem_of_singleton in Hx as ->. exists false. compute_it. }
  destruct (picked_files_are_sent_without_rejection _ [picture; entryA] "/docs/" Hadd Hall)
    as (_ & He & Ha & _).
  split_and!; [exact Hadd|exact Hall|exact He|exact Ha].
Defined.

Lemma pause_hint_is_shown_once_witness :
  let w := run (first_started ++ [EvTogglePause]) world0 in
  reachable w ∧ everPaused w = true
  ∧ pause_hints (effects w) = (if everPaused w then [Alert MPauseHint] else [])
  ∧ effects (step w EvTogglePause) = effects w.
Proof.
  cbv zeta.
  assert (Hr : reachable (run (first_started ++ [EvTogglePause]) world0)) by (by eexists).
  assert (Hp : everPaused (run (first_started ++ [EvTogglePause]) world0) = true)
    by compute_it.
  destruct (pause_hint_is_shown_once _ Hr) as [Hh Hagain].
  split_and!; [exact Hr|exact Hp|exact Hh|exact (Hagain Hp)].
Defined.

Lemma progress_deltas_add_up_witness :
  let w := run first_started world0 in
  let w' := run [EvProgress 10 120; EvProgress 40 120; EvProgress 90 120] w in
  req w = Some (mkXHR 0 1 0) ∧ in_flight (mkXHR 0 1 0) = true
  ∧ frames w !! 0%nat = Some (Frame.mk entryA "/docs/" 0 false 0)
  ∧ bytesSent w' = bytesSent w + (90 - 0)
  ∧ partial (uploadState w') = 90 + 0.
Proof.
  cbv zeta.
  destruct (progress_deltas_add_up (run first_started world0) (mkXHR 0 1 0)
              (Frame.mk entryA "/docs/" 0 false 0) [(10, 120); (40, 120)] 90 120
              first_started_req first_request_in_flight first_started_frame)
    as [Hb Hp].
  split_and!; [exact first_started_req|exact first_request_in_flight
              |exact first_started_frame|exact Hb|exact Hp].
Defined.
